(** * ShellMaster: the reconnaissance pipeline, embedded from the Python source

    The development follows the three modules of [src/shellmaster]:
    - [safety.py]: the three-tier safety gate ([is_safe_scout_cmd],
      [get_safety_reason]);
    - [domains.py]: the domain planner ([get_scout_commands]);
    - [graph.py]: complexity assessment, JSON repair and the four pipeline
      nodes ([refine_node], [scout_node], [generate_node]).

    Python strings are sequences of Unicode code points, and are modelled as
    lists of code points.  The part of the Unicode character database that the
    code consults beyond ASCII (alphanumeric class, decimal digits, case
    mapping) is a parameter of the development: see [UCD]. *)

From Stdlib Require Import String Ascii List NArith ZArith Bool Lia.
From Stdlib Require Import DecimalString.
From Stdlib Require Import PrimFloat Uint63.
Import ListNotations.

Set Implicit Arguments.
Open Scope N_scope.

(* ================================================================== *)
(** * 1. Python [str] *)
(* ================================================================== *)

Definition str := list N.

Fixpoint bytes_of (s : string) : list N :=
  match s with
  | EmptyString => []
  | String a s' => N_of_ascii a :: bytes_of s'
  end.

(** Source literals are written as UTF-8 text; [utf8] decodes them into
    code points (an ill-formed byte is kept as it is). *)
Fixpoint utf8 (bs : list N) : str :=
  match bs with
  | [] => []
  | b0 :: t0 =>
    if b0 <? 0x80 then b0 :: utf8 t0
    else match t0 with
    | [] => b0 :: utf8 t0
    | b1 :: t1 =>
      if b0 <? 0xE0 then ((b0 - 0xC0) * 64 + (b1 - 0x80)) :: utf8 t1
      else match t1 with
      | [] => b0 :: utf8 t0
      | b2 :: t2 =>
        if b0 <? 0xF0
        then ((b0 - 0xE0) * 4096 + (b1 - 0x80) * 64 + (b2 - 0x80)) :: utf8 t2
        else match t2 with
        | [] => b0 :: utf8 t0
        | b3 :: t3 =>
          ((b0 - 0xF0) * 262144 + (b1 - 0x80) * 4096
           + (b2 - 0x80) * 64 + (b3 - 0x80)) :: utf8 t3
        end
      end
    end
  end.

Definition py (s : string) : str := utf8 (bytes_of s).

(** A one-character literal. *)
Definition c_ (s : string) : N := hd 0 (py s).

Definition NL : N := 10.
Definition CR : N := 13.
Definition DQUOTE : N := 34.
Definition SQUOTE : N := 39.
Definition BACKSLASH : N := 92.

Fixpoint str_eqb (a b : str) : bool :=
  match a, b with
  | [], [] => true
  | x :: a', y :: b' => (x =? y) && str_eqb a' b'
  | _, _ => false
  end.

(** [x in l] for a list (or set) of strings. *)
Definition str_in (x : str) (l : list str) : bool := existsb (str_eqb x) l.

(** [Py_UNICODE_ISSPACE]: the code points [str.strip], [str.split] and the
    regular-expression class [\s] treat as white space. *)
Definition isspace (c : N) : bool :=
  ((0x09 <=? c) && (c <=? 0x0D)) || ((0x1C <=? c) && (c <=? 0x20))
  || (c =? 0x85) || (c =? 0xA0) || (c =? 0x1680)
  || ((0x2000 <=? c) && (c <=? 0x200A))
  || (c =? 0x2028) || (c =? 0x2029) || (c =? 0x202F) || (c =? 0x205F)
  || (c =? 0x3000).

Fixpoint lstrip (s : str) : str :=
  match s with
  | c :: s' => if isspace c then lstrip s' else s
  | [] => []
  end.

Definition rstrip (s : str) : str := rev (lstrip (rev s)).

(** [s.strip()] *)
Definition strip (s : str) : str := rstrip (lstrip s).

(** [s.startswith(p)] *)
Fixpoint startswith (s p : str) : bool :=
  match p, s with
  | [], _ => true
  | a :: p', b :: s' => (a =? b) && startswith s' p'
  | _ :: _, [] => false
  end.

(** [p in s] for strings: [p] occurs in [s]. *)
Fixpoint contains (s p : str) : bool :=
  startswith s p
  || match s with
     | [] => false
     | _ :: s' => contains s' p
     end.

(** [s.split()]: the maximal runs of characters that are not white space. *)
Fixpoint split_ws_go (acc : str) (s : str) : list str :=
  match s with
  | [] => match acc with [] => [] | _ => [rev acc] end
  | c :: s' =>
    if isspace c
    then match acc with
         | [] => split_ws_go [] s'
         | _ => rev acc :: split_ws_go [] s'
         end
    else split_ws_go (c :: acc) s'
  end.

Definition split_ws (s : str) : list str := split_ws_go [] s.

(** [s.split(sep)] for a one-character separator. *)
Fixpoint split_on_go (sep : N) (acc : str) (s : str) : list str :=
  match s with
  | [] => [rev acc]
  | c :: s' =>
    if c =? sep then rev acc :: split_on_go sep [] s'
    else split_on_go sep (c :: acc) s'
  end.

Definition split_on (sep : N) (s : str) : list str := split_on_go sep [] s.

(** [s.replace(old, new)] for a one-character [old]. *)
Definition replace_char (old : N) (new : str) (s : str) : str :=
  flat_map (fun c => if c =? old then new else [c]) s.

(** [sep.join(l)] *)
Fixpoint join (sep : str) (l : list str) : str :=
  match l with
  | [] => []
  | [x] => x
  | x :: l' => x ++ sep ++ join sep l'
  end.

(** ** The Unicode character database beyond ASCII

    [str.lower], the classes [\w], [\b] and [\d], [int] and case-insensitive
    matching consult the character database.  On ASCII they are fixed here;
    on other code points they are the fields of [UCD], about which nothing
    is assumed.  [ucd_lower] gets the text before (reversed) and after the
    code point, as the lower case of a capital sigma depends on them. *)
Class UCD : Type := {
  ucd_isalnum : N -> bool;
  ucd_todecimal : N -> option N;
  ucd_isdigit : N -> bool;
  ucd_lower : str -> N -> str -> str;
  ucd_icase : N -> N -> bool
}.

(** A database in which no code point beyond ASCII is alphanumeric, a digit
    or cased; used to evaluate the functions on concrete input. *)
Definition ucd_plain : UCD := {|
  ucd_isalnum := fun _ => false;
  ucd_todecimal := fun _ => None;
  ucd_isdigit := fun _ => false;
  ucd_lower := fun _ c _ => [c];
  ucd_icase := N.eqb
|}.

Definition is_ascii (c : N) : bool := c <? 128.

Definition ascii_upper (c : N) : bool := (65 <=? c) && (c <=? 90).
Definition ascii_lower (c : N) : bool := (97 <=? c) && (c <=? 122).
Definition ascii_digit (c : N) : bool := (48 <=? c) && (c <=? 57).
Definition ascii_word (c : N) : bool :=
  ascii_upper c || ascii_lower c || ascii_digit c || (c =? 95).

Definition ascii_tolower (c : N) : N := if ascii_upper c then c + 32 else c.

Section Unicode.
Context {U : UCD}.

(** [\w] on a [str] pattern: [Py_UNICODE_ISALNUM(c) || c == '_']. *)
Definition is_word (c : N) : bool :=
  if is_ascii c then ascii_word c else ucd_isalnum c.

(** The value of a decimal digit ([\d], [int]). *)
Definition decimal (c : N) : option N :=
  if is_ascii c then (if ascii_digit c then Some (c - 48) else None)
  else ucd_todecimal c.

Definition is_digit (c : N) : bool :=
  match decimal c with Some _ => true | None => false end.

(** [s.isdigit()] *)
Definition isdigit (s : str) : bool :=
  match s with
  | [] => false
  | _ => forallb (fun c => if is_ascii c then ascii_digit c else ucd_isdigit c) s
  end.

Fixpoint lower_go (bef : str) (s : str) : str :=
  match s with
  | [] => []
  | c :: s' =>
    (if is_ascii c then [ascii_tolower c] else ucd_lower bef c s')
      ++ lower_go (c :: bef) s'
  end.

(** [s.lower()] *)
Definition lower (s : str) : str := lower_go [] s.

(** A literal of a pattern compiled with [re.IGNORECASE] against a
    character of the text. *)
Definition icase_eq (p c : N) : bool :=
  if is_ascii p && is_ascii c then ascii_tolower p =? ascii_tolower c
  else ucd_icase p c.

(** [int(s)] for a string of decimal digits (most significant first);
    [None] stands for [ValueError]. *)
Fixpoint int_go (acc : N) (s : str) : option N :=
  match s with
  | [] => Some acc
  | c :: s' =>
    match decimal c with
    | Some d => int_go (10 * acc + d) s'
    | None => None
    end
  end.

Definition py_int (s : str) : option N :=
  match s with
  | [] => None
  | _ => int_go 0 s
  end.

End Unicode.

(* ================================================================== *)
(** * 2. The fragment of Python's [re] the sources use *)
(* ================================================================== *)

(** Members of a character class [[...]]. *)
Inductive citem : Type :=
| CChar (c : N)
| CRange (lo hi : N)
| CSpace                        (* \s *)
| CNotSpace.                    (* \S *)

(** Patterns that consume exactly one character. *)
Inductive atom : Type :=
| ALit (c : N)                  (* a literal *)
| ALitI (c : N)                 (* a literal under re.IGNORECASE *)
| ADot                          (* . : anything but a newline *)
| ADigit                        (* \d *)
| ASet (neg : bool) (items : list citem).

(** Every repetition in the sources' patterns ranges over a one-character
    pattern, and is greedy. *)
Inductive regex : Type :=
| Eps
| One (a : atom)
| Rep (a : atom) (lo : nat) (hi : option nat)   (* a{lo,hi}, a*, a+ *)
| Cat (r1 r2 : regex)
| Alt (r1 r2 : regex)
| Group (n : nat) (r : regex)                   (* the n-th capturing group *)
| Bol                                           (* ^ *)
| Eol                                           (* $ *)
| WordB                                         (* \b *)
| NotBehind (a : atom)                          (* (?<!a) *)
| NotAhead (a : atom).                          (* (?!a) *)

Definition lit (s : string) : regex :=
  fold_right (fun c r => Cat (One (ALit c)) r) Eps (py s).
Definition lit_str (s : str) : regex :=
  fold_right (fun c r => Cat (One (ALit c)) r) Eps s.
Definition liti (s : string) : regex :=
  fold_right (fun c r => Cat (One (ALitI c)) r) Eps (py s).
Definition seq (l : list regex) : regex := fold_right Cat Eps l.
Definition alts (l : list regex) : regex :=
  match l with
  | [] => Eps
  | r :: l' => fold_left Alt l' r
  end.
Definition star (a : atom) : regex := Rep a 0 None.
Definition plus (a : atom) : regex := Rep a 1 None.
Definition sp : atom := ASet false [CSpace].

(** The state of a match: the text before the cursor (reversed), the text
    after it, and the groups captured so far. *)
Record mstate : Type := MState {
  before : str;
  after : str;
  groups : list (nat * str)
}.

Definition citem_ok (i : citem) (c : N) : bool :=
  match i with
  | CChar x => c =? x
  | CRange lo hi => (lo <=? c) && (c <=? hi)
  | CSpace => isspace c
  | CNotSpace => negb (isspace c)
  end.

Definition under (hi : option nat) (n : nat) : bool :=
  match hi with
  | None => true
  | Some h => Nat.ltb n h
  end.

Fixpoint get_group (n : nat) (g : list (nat * str)) : option str :=
  match g with
  | [] => None
  | (m, s) :: g' => if Nat.eqb n m then Some s else get_group n g'
  end.

Section Matcher.
Context {U : UCD}.

Definition atom_ok (a : atom) (c : N) : bool :=
  match a with
  | ALit x => c =? x
  | ALitI x => icase_eq x c
  | ADot => negb (c =? NL)
  | ADigit => is_digit c
  | ASet neg items => xorb neg (existsb (fun i => citem_ok i c) items)
  end.

(** Greedy repetition with backtracking: take as many characters as
    allowed, and give them back one at a time while the rest fails. *)
Fixpoint rep_greedy (A : Type) (a : atom) (lo : nat) (hi : option nat)
    (n : nat) (bef aft : str) (k : str -> str -> option A) : option A :=
  let stop := if Nat.leb lo n then k bef aft else None in
  match aft with
  | c :: aft' =>
    if under hi n && atom_ok a c
    then match rep_greedy a lo hi (S n) (c :: bef) aft' k with
         | Some x => Some x
         | None => stop
         end
    else stop
  | [] => stop
  end.

Definition prev_word (st : mstate) : bool :=
  match before st with c :: _ => is_word c | [] => false end.
Definition next_word (st : mstate) : bool :=
  match after st with c :: _ => is_word c | [] => false end.

(** The text consumed between two states of one match. *)
Definition consumed (st st' : mstate) : str :=
  rev (firstn (length (before st') - length (before st))%nat (before st')).

(** The backtracking matcher, in continuation-passing style: [rmatch r st k]
    is the first way, in Python's order of preference, to match [r] at [st]
    so that the continuation [k] succeeds. *)
Fixpoint rmatch (A : Type) (r : regex) (st : mstate)
    (k : mstate -> option A) : option A :=
  match r with
  | Eps => k st
  | One a =>
    match after st with
    | c :: aft =>
      if atom_ok a c then k (MState (c :: before st) aft (groups st))
      else None
    | [] => None
    end
  | Rep a lo hi =>
    rep_greedy a lo hi 0 (before st) (after st)
      (fun b a' => k (MState b a' (groups st)))
  | Cat r1 r2 => rmatch r1 st (fun st' => rmatch r2 st' k)
  | Alt r1 r2 =>
    match rmatch r1 st k with
    | Some x => Some x
    | None => rmatch r2 st k
    end
  | Group n r1 =>
    rmatch r1 st
      (fun st' =>
         k (MState (before st') (after st')
                   ((n, consumed st st') :: groups st')))
  | Bol => match before st with [] => k st | _ => None end
  | Eol =>
    match after st with
    | [] => k st
    | [c] => if c =? NL then k st else None
    | _ => None
    end
  | WordB => if xorb (prev_word st) (next_word st) then k st else None
  | NotBehind a =>
    match before st with
    | c :: _ => if atom_ok a c then None else k st
    | [] => k st
    end
  | NotAhead a =>
    match after st with
    | c :: _ => if atom_ok a c then None else k st
    | [] => k st
    end
  end.

(** A match at the cursor: the state at its end. *)
Definition match_at (r : regex) (bef aft : str) : option mstate :=
  rmatch r (MState bef aft []) (fun st => Some st).

(** [re.match(r, s)] *)
Definition re_match (r : regex) (s : str) : option mstate := match_at r [] s.

(** [re.search(r, s)]: the leftmost match, as (text before it reversed,
    state at its end). *)
Fixpoint search_from (r : regex) (bef aft : str) : option (str * mstate) :=
  match match_at r bef aft with
  | Some st => Some (bef, st)
  | None =>
    match aft with
    | c :: aft' => search_from r (c :: bef) aft'
    | [] => None
    end
  end.

Definition re_search (r : regex) (s : str) : option (str * mstate) :=
  search_from r [] s.

(** [bool(re.search(r, s))] *)
Definition re_found (r : regex) (s : str) : bool :=
  match re_search r s with Some _ => true | None => false end.

(** [m.group(0)] *)
Definition group0 (m : str * mstate) : str :=
  rev (firstn (length (before (snd m)) - length (fst m))%nat (before (snd m))).

(** [m.group(n)] for a group that took part in the match. *)
Definition group (n : nat) (m : str * mstate) : str :=
  match get_group n (groups (snd m)) with
  | Some s => s
  | None => []
  end.

(** [re.sub(r, repl, s)] for a literal replacement.  The cursor walks the
    text; [skip] counts the characters of the current match still to drop.
    An empty match is replaced and the character after it kept. *)
Fixpoint sub_go (r : regex) (repl : str) (bef aft : str) (skip : nat) : str :=
  match skip with
  | S n =>
    match aft with
    | c :: aft' => sub_go r repl (c :: bef) aft' n
    | [] => []
    end
  | O =>
    match match_at r bef aft with
    | Some st =>
      match (length (before st) - length bef)%nat with
      | S n =>
        repl ++ match aft with
                | c :: aft' => sub_go r repl (c :: bef) aft' n
                | [] => []
                end
      | O =>
        repl ++ match aft with
                | c :: aft' => c :: sub_go r repl (c :: bef) aft' 0
                | [] => []
                end
      end
    | None =>
      match aft with
      | c :: aft' => c :: sub_go r repl (c :: bef) aft' 0
      | [] => []
      end
    end
  end.

Definition re_sub (r : regex) (repl : str) (s : str) : str :=
  sub_go r repl [] s 0.

(** [re.split(r, s)] for a pattern without groups that matches no empty
    text: [acc] is the piece being collected (reversed). *)
Fixpoint split_go (r : regex) (acc : str) (bef aft : str) (skip : nat)
  : list str :=
  match skip with
  | S n =>
    match aft with
    | c :: aft' => split_go r acc (c :: bef) aft' n
    | [] => [rev acc]
    end
  | O =>
    match match_at r bef aft with
    | Some st =>
      match (length (before st) - length bef)%nat with
      | S n =>
        rev acc :: match aft with
                   | c :: aft' => split_go r [] (c :: bef) aft' n
                   | [] => [[]]
                   end
      | O =>
        match aft with
        | c :: aft' => split_go r (c :: acc) (c :: bef) aft' 0
        | [] => [rev acc]
        end
      end
    | None =>
      match aft with
      | c :: aft' => split_go r (c :: acc) (c :: bef) aft' 0
      | [] => [rev acc]
      end
    end
  end.

Definition re_split (r : regex) (s : str) : list str := split_go r [] [] s 0.

End Matcher.

(* ================================================================== *)
(** * 3. safety.py *)
(* ================================================================== *)

(** ** 3.1 The lists

    The three sets are Python [set]s; the lists below keep the order of the
    source text.  A loop over a set visits its elements in an order the
    language does not fix, so the loops take the list they visit as an
    argument. *)

Definition UNCONDITIONAL_ALLOW : list str := map py [
  "ls"; "cat"; "pwd"; "echo"; "printf"; "test"; "["; "tail"; "head";
  "wc"; "whoami"; "id"; "uname"; "hostname"; "stat"; "readlink";
  "basename"; "dirname"; "realpath"; "file"; "tree"; "md5sum";
  "sha256sum"; "sha1sum"; "sort"; "uniq"; "cut"; "tr"; "nl"; "tac";
  "rev"; "grep"; "egrep"; "fgrep"; "zgrep"; "diff"; "comm"; "join";
  "paste"; "expand"; "unexpand"; "column"; "fold"; "fmt"; "less"; "more";
  "env"; "printenv"; "locale"; "set"; "df"; "du"; "lsblk"; "mount";
  "findmnt"; "blkid"; "find"; "locate"; "which"; "whereis"; "type";
  "command"; "ps"; "pgrep"; "pidof"; "top"; "htop"; "free"; "uptime";
  "vmstat"; "mpstat"; "iostat"; "sar"; "nproc"; "getconf"; "lsof";
  "fuser"; "lscpu"; "lsmem"; "lspci"; "lsusb"; "lshw"; "dmidecode";
  "uname"; "hostnamectl"; "timedatectl"; "localectl";
  "cat /proc/cpuinfo"; "cat /proc/meminfo"; "date"; "cal"; "uptime";
  "timedatectl"; "w"; "who"; "users"; "last"; "lastlog"; "finger";
  "pinky"; "groups"; "getent"; "systemctl status"; "systemctl is-active";
  "systemctl is-enabled"; "systemctl list-units";
  "systemctl list-unit-files"; "systemctl show"; "systemctl cat";
  "service"; "chkconfig"; "journalctl"; "dmesg"; "ip"; "ifconfig"; "ss";
  "netstat"; "ping"; "ping6"; "dig"; "nslookup"; "host"; "resolvectl";
  "traceroute"; "tracepath"; "mtr"; "arp"; "route"; "routel"; "curl";
  "wget"; "dpkg"; "dpkg-query"; "apt list"; "apt show"; "apt-cache";
  "apt-mark"; "rpm"; "yum list"; "yum info"; "dnf list"; "dnf info";
  "pip list"; "pip show"; "pip freeze"; "pip3 list"; "pip3 show";
  "pip3 freeze"; "conda list"; "conda info"; "snap list"; "snap info";
  "flatpak list"; "flatpak info"; "npm list"; "npm view"; "gem list";
  "gem info"; "docker ps"; "docker images"; "docker logs";
  "docker inspect"; "docker stats"; "docker top"; "docker port";
  "docker diff"; "docker history"; "docker version"; "docker info";
  "docker-compose ps"; "docker-compose logs"; "docker-compose config";
  "podman ps"; "podman images"; "podman logs"; "podman inspect";
  "git status"; "git log"; "git diff"; "git branch"; "git remote";
  "git show"; "git ls-files"; "git ls-tree"; "git rev-parse";
  "git config --list"; "git config --get"; "getfacl"; "getcap"; "lsattr";
  "namei"; "stat"; "nvidia-smi"; "xhost"; "xrandr"; "xdpyinfo";
  "xwininfo"; "loginctl"; "w"; "jq"; "yq"; "bc"; "expr"; "seq"; "yes";
  "true"; "false"; "sleep"; "timeout"; "tee"; "xargs"
]%string.

(** The rules of a restricted command.  The keys [allowed_args] and
    [description] of the source are never read by the code. *)
Record rules : Type := Rules {
  forbidden_args : option (list str);
  forbidden_patterns : option (list regex);
  allowed_targets : option (list str);
  max_seconds : option N
}.

Definition RESTRICTED_COMMANDS : list (str * rules) := [
  (py "sed",
   Rules (Some (map py ["-i"; "--in-place"]%string)) None None None);
  (py "awk",
   Rules None
     (Some [ seq [lit "system"; star sp; lit "("];       (* system\s*\( *)
             seq [lit "print"; star sp; lit ">"];        (* print\s*> *)
             seq [lit "getline"; star sp; lit "<"] ])    (* getline\s*< *)
     None None);
  (py "perl",
   Rules (Some (map py ["-i"; "-e.*unlink"; "-e.*system"]%string))
     None None None);
  (py "curl",
   Rules (Some (map py ["-o"; "-O"; "--output"; "-T"; "--upload-file";
                        "-X POST"; "-X PUT"; "-X DELETE"]%string))
     None None None);
  (py "wget",
   Rules (Some (map py ["--post-data"; "--post-file"; "--method"]%string))
     None None None);
  (py "tee",
   Rules None None
     (Some (map py ["/dev/null"; "/dev/stdout"; "/dev/stderr"; "-"]%string))
     None);
  (py "sleep", Rules None None None (Some 10))
].

Definition COMBO_ONLY_COMMANDS : list str := map py [
  "xargs"; "parallel"
]%string.

Definition DANGEROUS_COMMANDS : list str := map py [
  "rm"; "rmdir"; "shred"; "truncate"; "mv"; "cp"; "chmod"; "chown";
  "chgrp"; "chattr"; "dd"; "mkfs"; "fdisk"; "parted"; "gdisk"; "mkswap";
  "swapon"; "swapoff"; "mount"; "umount"; "reboot"; "shutdown";
  "poweroff"; "halt"; "init"; "systemctl start"; "systemctl stop";
  "systemctl restart"; "systemctl enable"; "systemctl disable";
  "service start"; "service stop"; "service restart"; "useradd";
  "userdel"; "usermod"; "groupadd"; "groupdel"; "groupmod"; "passwd";
  "chpasswd"; "newusers"; "iptables"; "ip6tables"; "nft"; "ufw";
  "ip link set"; "ip addr add"; "ip addr del"; "ip route add";
  "ip route del"; "ifconfig.*up"; "ifconfig.*down"; "apt install";
  "apt remove"; "apt purge"; "apt autoremove"; "apt-get install";
  "apt-get remove"; "apt-get purge"; "yum install"; "yum remove";
  "yum erase"; "dnf install"; "dnf remove"; "dnf erase"; "pip install";
  "pip uninstall"; "pip3 install"; "pip3 uninstall"; "npm install";
  "npm uninstall"; "docker run"; "docker exec"; "docker rm";
  "docker rmi"; "docker stop"; "docker kill"; "docker start";
  "docker-compose up"; "docker-compose down"; "docker-compose rm";
  "kill"; "killall"; "pkill"; "crontab"; "at"; "eval"; "exec"; "nc";
  "ncat"; "netcat"; "ssh"; "scp"; "rsync"
]%string.

Definition hexdigit : atom :=
  ASet false [CRange (c_ "0") (c_ "9"); CRange (c_ "a") (c_ "f");
              CRange (c_ "A") (c_ "F")].

(** Each pattern with its source text, which [get_safety_reason] reports. *)
Definition DANGEROUS_PATTERNS : list (str * regex) := [
  (py "`", lit "`");
  (py "\$\(", lit "$(");
  (py "\$\{.*:-.*\}",
   seq [lit "${"; star ADot; lit ":-"; star ADot; lit "}"]);
  (py "<\(", lit "<(");
  (py ">\(", lit ">(");
  (py ">\s*[^|&]",
   seq [lit ">"; star sp; One (ASet true [CChar (c_ "|"); CChar (c_ "&")])]);
  (py ">>\s*", seq [lit ">>"; star sp]);
  (py "<\s*[^<]", seq [lit "<"; star sp; One (ASet true [CChar (c_ "<")])]);
  (py "\|\|", lit "||");
  (py "(?<!&)&(?!&)",
   seq [NotBehind (ALit (c_ "&")); lit "&"; NotAhead (ALit (c_ "&"))]);
  (py ";\s*", seq [lit ";"; star sp]);
  (py "\n", One (ALit NL));
  (py "\r", One (ALit CR));
  (py "\\x[0-9a-fA-F]{2}",
   seq [One (ALit BACKSLASH); lit "x"; Rep hexdigit 2 (Some 2%nat)]);
  (py "\\u[0-9a-fA-F]{4}",
   seq [One (ALit BACKSLASH); lit "u"; Rep hexdigit 4 (Some 4%nat)])
].

Definition SPACE : str := py " ".

(** The order in which one run of the interpreter visits the elements of
    the two sets that the gate loops over: any lists with the elements of
    the sets. *)
Class SetOrder : Type := {
  allow_order : list str;
  deny_order : list str;
  allow_order_ok : forall x, In x allow_order <-> In x UNCONDITIONAL_ALLOW;
  deny_order_ok : forall x, In x deny_order <-> In x DANGEROUS_COMMANDS
}.

(** The order of the source text. *)
Definition source_order : SetOrder := {|
  allow_order := UNCONDITIONAL_ALLOW;
  deny_order := DANGEROUS_COMMANDS;
  allow_order_ok := fun x => iff_refl _;
  deny_order_ok := fun x => iff_refl _
|}.

Fixpoint lookup (A : Type) (k : str) (d : list (str * A)) : option A :=
  match d with
  | [] => None
  | (k', v) :: d' => if str_eqb k k' then Some v else lookup k d'
  end.

(** [l[-1]] of a list that is not empty. *)
Definition last_str (l : list str) : str := last l [].

(** [s[n:]] *)
Definition drop (n : nat) (s : str) : str := skipn n s.

Section Safety.
Context {U : UCD} {O : SetOrder}.

(** ** 3.2 The checks *)

Definition _get_base_command (cmd : str) : str :=
  let cmd := strip cmd in
  let cmd := if startswith cmd (py "sudo ") then strip (drop 5 cmd) else cmd in
  match split_ws cmd with
  | [] => []
  | first_word :: _ =>
    if contains first_word (py "/")
    then last_str (split_on (c_ "/") first_word)
    else first_word
  end.

(** The [tee] rule: the word after each word [tee] must be an allowed
    target or start with a dash. *)
Fixpoint tee_targets_ok (targets : list str) (parts : list str) : bool :=
  match parts with
  | [] => true
  | p :: rest =>
    match rest with
    | target :: _ =>
      if str_eqb p (py "tee") && negb (str_in target targets)
         && negb (startswith target (py "-"))
      then false
      else tee_targets_ok targets rest
    | [] => true
    end
  end.

Definition sleep_re : regex :=                      (* sleep\s+(\d+) *)
  seq [lit "sleep"; plus sp; Group 1 (plus ADigit)].

Definition _check_restricted_command (cmd base_cmd : str) : bool :=
  match lookup base_cmd RESTRICTED_COMMANDS with
  | None => true
  | Some rules =>
    if match forbidden_args rules with
       | Some l => existsb (fun forbidden => contains cmd forbidden) l
       | None => false
       end
    then false
    else if match forbidden_patterns rules with
            | Some l => existsb (fun pattern => re_found pattern cmd) l
            | None => false
            end
    then false
    else if str_eqb base_cmd (py "sleep")
            && match max_seconds rules, re_search sleep_re cmd with
               | Some m, Some mt =>
                 match py_int (group 1 mt) with
                 | Some n => m <? n
                 | None => false
                 end
               | _, _ => false
               end
    then false
    else if str_eqb base_cmd (py "tee")
            && match allowed_targets rules with
               | Some targets =>
                 let parts := split_ws cmd in
                 Nat.ltb 1 (length parts) && negb (tee_targets_ok targets parts)
               | None => false
               end
    then false
    else true
  end.

Definition assign_re : regex :=            (* ^[A-Za-z_][A-Za-z0-9_]*=.*$ *)
  seq [Bol;
       One (ASet false [CRange (c_ "A") (c_ "Z"); CRange (c_ "a") (c_ "z");
                        CChar (c_ "_")]);
       star (ASet false [CRange (c_ "A") (c_ "Z"); CRange (c_ "a") (c_ "z");
                         CRange (c_ "0") (c_ "9"); CChar (c_ "_")]);
       lit "="; star ADot; Eol].

(** The loop [for allowed in UNCONDITIONAL_ALLOW] of [_is_allowed_subcmd],
    over the order [l]; falling out of the loop returns [False]. *)
Fixpoint allow_loop (l : list str) (sub original_sub base_cmd : str) : bool :=
  match l with
  | [] => false
  | allowed :: l' =>
    if contains allowed SPACE
    then
      if str_eqb sub allowed || startswith sub (allowed ++ SPACE) then true
      else allow_loop l' sub original_sub base_cmd
    else if str_eqb base_cmd allowed
    then
      match lookup base_cmd RESTRICTED_COMMANDS with
      | Some _ =>
        if negb (_check_restricted_command original_sub base_cmd) then false
        else true
      | None => true
      end
    else allow_loop l' sub original_sub base_cmd
  end.

(** The body of [_is_allowed_subcmd] after the assignment test. *)
Definition allowed_by_list (allow : list str) (sub original_sub : str) : bool :=
  let base_cmd := _get_base_command sub in
  match base_cmd with
  | [] => false
  | _ => allow_loop allow sub original_sub base_cmd
  end.

Definition _is_allowed_subcmd_in (allow : list str) (sub : str) : bool :=
  let sub := strip sub in
  match sub with
  | [] => false
  | _ =>
    let original_sub := sub in
    let sub := if startswith sub (py "sudo ") then strip (drop 5 sub) else sub in
    if contains sub (py "=") && negb (contains sub SPACE)
    then
      if existsb (fun x => contains sub x) [py "`"; py "$("; [NL]; [CR]; py ";"]
      then false
      else
        match re_match assign_re sub with
        | Some _ => true
        | None => allowed_by_list allow sub original_sub
        end
    else allowed_by_list allow sub original_sub
  end.

Definition _is_allowed_subcmd : str -> bool :=
  _is_allowed_subcmd_in allow_order.

Definition _check_dangerous_patterns (cmd : str) : bool :=
  negb (existsb (fun p => re_found (snd p) cmd) DANGEROUS_PATTERNS).

(** [rf"\b{re.escape(dangerous)}\b"]: the escaped word matches itself. *)
Definition word_re (dangerous : str) : regex :=
  seq [WordB; lit_str dangerous; WordB].

(** One deny-list entry against the lower-cased command. *)
Definition dangerous_hit (cmd_lower dangerous : str) : bool :=
  if contains dangerous SPACE then contains cmd_lower dangerous
  else re_found (word_re dangerous) cmd_lower.

Definition _check_dangerous_commands_in (deny : list str) (cmd : str) : bool :=
  let cmd_lower := lower cmd in
  negb (existsb (dangerous_hit cmd_lower) deny).

Definition _check_dangerous_commands : str -> bool :=
  _check_dangerous_commands_in deny_order.

Definition split_re : regex :=                 (* \s*\|\s*|\s*&&\s* *)
  Alt (seq [star sp; lit "|"; star sp]) (seq [star sp; lit "&&"; star sp]).

(** The loop [for i, sub in enumerate(parts)] of [is_safe_scout_cmd]. *)
Fixpoint subcmds_ok (allow : list str) (i : nat) (parts : list str) : bool :=
  match parts with
  | [] => true
  | sub :: rest =>
    let sub := strip sub in
    match sub with
    | [] => subcmds_ok allow (S i) rest
    | _ =>
      let base := _get_base_command sub in
      if str_in base COMBO_ONLY_COMMANDS && Nat.eqb i 0 then false
      else if negb (_is_allowed_subcmd_in allow sub) then false
      else subcmds_ok allow (S i) rest
    end
  end.

Definition is_safe_scout_cmd_in (allow deny : list str) (cmd : str) : bool :=
  let cmd := strip cmd in
  match cmd with
  | [] => false
  | _ =>
    if negb (_check_dangerous_patterns cmd) then false
    else if negb (_check_dangerous_commands_in deny cmd) then false
    else subcmds_ok allow 0 (re_split split_re cmd)
  end.

Definition is_safe_scout_cmd : str -> bool :=
  is_safe_scout_cmd_in allow_order deny_order.

(** ** 3.3 The reason of a rejection *)

Fixpoint first_pattern (ps : list (str * regex)) (cmd : str) : option str :=
  match ps with
  | [] => None
  | (text, r) :: ps' =>
    if re_found r cmd then Some text else first_pattern ps' cmd
  end.

Fixpoint first_dangerous (deny : list str) (cmd_lower : str) : option str :=
  match deny with
  | [] => None
  | dangerous :: deny' =>
    if dangerous_hit cmd_lower dangerous then Some dangerous
    else first_dangerous deny' cmd_lower
  end.

Fixpoint first_rejected (allow : list str) (parts : list str) : option str :=
  match parts with
  | [] => None
  | sub :: rest =>
    let sub := strip sub in
    match sub with
    | [] => first_rejected allow rest
    | _ =>
      if negb (_is_allowed_subcmd_in allow sub)
      then Some (_get_base_command sub)
      else first_rejected allow rest
    end
  end.

Definition get_safety_reason_in (allow deny : list str) (cmd : str)
  : option str :=
  let cmd := strip cmd in
  match cmd with
  | [] => Some (py "空命令")
  | _ =>
    match first_pattern DANGEROUS_PATTERNS cmd with
    | Some pattern => Some (py "包含危险模式: " ++ pattern)
    | None =>
      match first_dangerous deny (lower cmd) with
      | Some dangerous => Some (py "包含危险命令: " ++ dangerous)
      | None =>
        match first_rejected allow (re_split split_re cmd) with
        | Some base => Some (py "命令不在白名单中: " ++ base)
        | None => None
        end
      end
    end
  end.

Definition get_safety_reason : str -> option str :=
  get_safety_reason_in allow_order deny_order.

End Safety.

(* ================================================================== *)
(** * 4. Python values and exceptions *)
(* ================================================================== *)

(** The values an entity or the declared complexity of an intent may hold:
    the scalars of JSON, numbers being integers.  (Nested values and
    fractional numbers are outside the model.) *)
Inductive pyval : Type :=
| VNone
| VBool (b : bool)
| VInt (z : Z)
| VStr (s : str).

Inductive exn : Type :=
| TypeError
| AttributeError
| ValueError
| KeyError.

(** The outcome of a call: a value, or an exception that leaves it. *)
Inductive result (A : Type) : Type :=
| Ok (a : A)
| Raise (e : exn).

Arguments Ok {A} a.
Arguments Raise {A} e.

Definition bind (A B : Type) (c : result A) (k : A -> result B) : result B :=
  match c with
  | Ok a => k a
  | Raise e => Raise e
  end.

Notation "x <- c ;; k" := (bind c (fun x => k))
  (at level 61, c at next level, right associativity).

(** [bool(v)] *)
Definition truthy (v : pyval) : bool :=
  match v with
  | VNone => false
  | VBool b => b
  | VInt z => negb (Z.eqb z 0)
  | VStr s => match s with [] => false | _ => true end
  end.

(** [a or b] *)
Definition py_or (a b : pyval) : pyval := if truthy a then a else b.

Definition str_of_Z (z : Z) : str :=
  bytes_of (NilZero.string_of_int (Z.to_int z)).

(** [str(v)], which is also how an f-string shows [v]. *)
Definition py_str (v : pyval) : str :=
  match v with
  | VNone => py "None"
  | VBool true => py "True"
  | VBool false => py "False"
  | VInt z => str_of_Z z
  | VStr s => s
  end.

(** A [dict] with string keys, as the list of its items in insertion
    order; a key is looked up at its first item. *)
Definition dict := list (str * pyval).

(** [d.get(k)] *)
Definition dict_get (d : dict) (k : string) : pyval :=
  match lookup (py k) d with
  | Some v => v
  | None => VNone
  end.

(** [d[k] = v] *)
Fixpoint dict_set (d : dict) (k : str) (v : pyval) : dict :=
  match d with
  | [] => [(k, v)]
  | (k', v') :: d' =>
    if str_eqb k k' then (k, v) :: d' else (k', v') :: dict_set d' k v
  end.

(* ================================================================== *)
(** * 5. domains.py *)
(* ================================================================== *)

Inductive TaskComplexity : Type :=
| TRIVIAL
| SIMPLE
| MODERATE
| COMPLEX.

(** The value of a member of the [IntEnum]. *)
Definition complexity_value (c : TaskComplexity) : Z :=
  match c with
  | TRIVIAL => 1
  | SIMPLE => 2
  | MODERATE => 3
  | COMPLEX => 4
  end.

(** [TaskComplexity(z)] *)
Definition TaskComplexity_of (z : Z) : result TaskComplexity :=
  if Z.eqb z 1 then Ok TRIVIAL
  else if Z.eqb z 2 then Ok SIMPLE
  else if Z.eqb z 3 then Ok MODERATE
  else if Z.eqb z 4 then Ok COMPLEX
  else Raise ValueError.

Definition complexity_eqb (a b : TaskComplexity) : bool :=
  Z.eqb (complexity_value a) (complexity_value b).

Section Domains.
Context {U : UCD}.

(** ** 5.1 Quoting and validation *)

Definition alnum_items : list citem :=
  [CRange (c_ "a") (c_ "z"); CRange (c_ "A") (c_ "Z");
   CRange (c_ "0") (c_ "9")].

(** [shlex._find_unsafe]: [[^\w@%+=:,./-]] compiled with [re.ASCII]. *)
Definition unsafe_char : atom :=
  ASet true (alnum_items ++ map CChar (py "_@%+=:,./-")).

(** [shlex.quote] on a string. *)
Definition shlex_quote (s : str) : str :=
  match s with
  | [] => [SQUOTE; SQUOTE]
  | _ =>
    if forallb (fun c => negb (atom_ok unsafe_char c)) s then s
    else [SQUOTE]
           ++ replace_char SQUOTE [SQUOTE; DQUOTE; SQUOTE; DQUOTE; SQUOTE] s
           ++ [SQUOTE]
  end.

(** [q(s)]: [shlex.quote] raises [TypeError] on what is not a string. *)
Definition q (v : pyval) : result str :=
  match v with
  | VStr s => Ok (shlex_quote s)
  | _ => Raise TypeError
  end.

Definition SAFE_NAME_REGEX : regex :=        (* ^[a-zA-Z0-9._:@+-]{1,128}$ *)
  seq [Bol; Rep (ASet false (alnum_items ++ map CChar (py "._:@+-"))) 1
              (Some 128%nat); Eol].

Definition safe_name (v : pyval) : option str :=
  let s := match v with VNone => [] | _ => strip (py_str v) end in
  match s with
  | [] => None
  | _ =>
    match re_match SAFE_NAME_REGEX s with
    | Some _ => Some s
    | None => None
    end
  end.

(** ** 5.2 The probes of each domain *)

Definition when (A : Type) (b : bool) (l : list A) : list A :=
  if b then l else [].

Definition file_commands (entities : dict) (query : str) : result (list str) :=
  let path := dict_get entities "path" in
  let filename := py_or (dict_get entities "filename")
                        (dict_get entities "target") in
  c1 <- (if truthy path
         then q_path <- q path ;;
              Ok [py "ls -la " ++ q_path; py "file " ++ q_path;
                  py "stat " ++ q_path]
         else Ok []) ;;
  c2 <- (if truthy filename && negb (truthy path)
         then q_name <- q filename ;;
              Ok [py "find . -maxdepth 5 -name " ++ q_name ++ py " -type f";
                  py "find /home -maxdepth 4 -name " ++ q_name
                    ++ py " -type f 2>/dev/null || true";
                  py "locate " ++ q_name ++ py " 2>/dev/null | head -10 || true"]
         else Ok []) ;;
  Ok (c1 ++ c2
      ++ when (negb (truthy path) && negb (truthy filename))
           [py "pwd"; py "ls -la"]).

Definition process_commands (entities : dict) (query : str)
  : result (list str) :=
  let target := py_or (dict_get entities "target")
                      (dict_get entities "process") in
  let pid := dict_get entities "pid" in
  let port := dict_get entities "port" in
  c <- (if truthy pid
        then Ok [py "ps -p " ++ py_str pid
                   ++ py " -o pid,ppid,user,%cpu,%mem,stat,start,time,command";
                 py "ls -l /proc/" ++ py_str pid
                   ++ py "/fd 2>/dev/null | head -20 || true"]
        else if truthy target
        then q_target <- q target ;;
             Ok [py "pgrep -a " ++ q_target;
                 py "ps aux | grep -i " ++ q_target ++ py " | grep -v grep"]
        else if truthy port
        then Ok [py "ss -tlnp 'sport = :" ++ py_str port ++ py "'";
                 py "lsof -i :" ++ py_str port ++ py " 2>/dev/null || true"]
        else Ok [py "ps aux --sort=-%mem | head -15";
                 py "ps aux --sort=-%cpu | head -15"]) ;;
  Ok (c ++ [py "free -h"; py "uptime"]).

Definition network_commands (entities : dict) (query : str)
  : result (list str) :=
  let port := dict_get entities "port" in
  let ip := dict_get entities "ip" in
  let domain := py_or (dict_get entities "domain")
                      (dict_get entities "target") in
  c3 <- (if truthy domain && negb (truthy ip)
         then q_domain <- q domain ;;
              Ok [py "dig +short " ++ q_domain;
                  py "ping -c 2 -W 2 " ++ q_domain]
         else Ok []) ;;
  Ok ([py "ip -br addr"]
      ++ when (truthy port)
           [py "ss -tlnp 'sport = :" ++ py_str port ++ py "'";
            py "ss -tlnp 'dport = :" ++ py_str port ++ py "'"]
      ++ when (truthy ip) [py "ping -c 2 -W 2 " ++ py_str ip]
      ++ c3
      ++ when (negb (truthy port)) [py "ss -tlnH | head -20"]
      ++ [py "cat /etc/resolv.conf"]).

Definition service_commands (entities : dict) (query : str)
  : result (list str) :=
  let service := py_or (dict_get entities "service")
                       (dict_get entities "target") in
  if truthy service
  then match safe_name service with
       | Some s_service =>
         Ok [py "systemctl status " ++ s_service ++ py " --no-pager -l";
             py "systemctl is-active " ++ s_service;
             py "systemctl is-enabled " ++ s_service;
             py "journalctl -u " ++ s_service ++ py " -n 30 --no-pager"]
       | None => Ok []
       end
  else Ok [py "systemctl list-units --type=service --state=running --no-pager";
           py "systemctl list-units --type=service --state=failed --no-pager"].

Definition system_commands (entities : dict) (query : str)
  : result (list str) :=
  Ok [py "uname -a"; py "cat /etc/os-release"; py "hostnamectl";
      py "uptime"; py "free -h"; py "df -hT"; py "lscpu | head -20";
      py "date"].

Definition software_commands (entities : dict) (query : str)
  : result (list str) :=
  let package := py_or (dict_get entities "package")
                       (dict_get entities "target") in
  Ok ([py "command -v apt dpkg pip pip3 snap flatpak conda"]
      ++ if truthy package
         then match safe_name package with
              | Some s_pkg =>
                [py "dpkg -l " ++ s_pkg ++ py " 2>/dev/null || true";
                 py "apt-cache policy " ++ s_pkg ++ py " 2>/dev/null || true";
                 py "pip3 show " ++ s_pkg ++ py " 2>/dev/null || true";
                 py "snap list " ++ s_pkg ++ py " 2>/dev/null || true";
                 py "which " ++ s_pkg ++ py " 2>/dev/null || true"]
              | None => []
              end
         else []).

Definition storage_commands (entities : dict) (query : str)
  : result (list str) :=
  let path := dict_get entities "path" in
  let target := dict_get entities "target" in
  c1 <- (if truthy path
         then q_path <- q path ;;
              Ok [py "df -hT " ++ q_path; py "du -sh " ++ q_path;
                  py "ls -la " ++ q_path]
         else Ok []) ;;
  c2 <- (if truthy target
         then let q_target :=
                shlex_quote (py "*" ++ py_str target ++ py "*") in
              q_t <- q target ;;
              Ok [py "find /mnt /media /run/media -maxdepth 2 -type d -iname "
                    ++ q_target ++ py " 2>/dev/null || true";
                  py "blkid";
                  py "lsblk -o NAME,SIZE,MODEL,LABEL,MOUNTPOINT | grep -v 'loop\|ram' | grep -i "
                    ++ q_t
                    ++ py " || lsblk -e7 -o NAME,SIZE,MODEL,LABEL,MOUNTPOINT"]
         else Ok []) ;;
  Ok ([py "lsblk -o NAME,SIZE,TYPE,MOUNTPOINT,LABEL,MODEL,FSTYPE,UUID,PARTLABEL";
       py "df -hT";
       py "findmnt -l -o TARGET,SOURCE,FSTYPE,LABEL"] ++ c1 ++ c2).

Definition container_commands (entities : dict) (query : str)
  : result (list str) :=
  let container := py_or (dict_get entities "container")
                         (dict_get entities "target") in
  c <- (if truthy container
        then q_container <- q container ;;
             Ok [py "docker ps -a --filter name=" ++ q_container
                   ++ py " --format 'table {{.ID}}\t{{.Image}}\t{{.Status}}\t{{.Names}}'";
                 py "docker inspect " ++ q_container
                   ++ py " 2>/dev/null | head -50 || true";
                 py "docker logs --tail 30 " ++ q_container
                   ++ py " 2>/dev/null || true"]
        else Ok [py "docker ps --format 'table {{.ID}}\t{{.Image}}\t{{.Status}}\t{{.Names}}'";
                 py "docker images --format 'table {{.Repository}}\t{{.Tag}}\t{{.Size}}'"]) ;;
  Ok ([py "command -v docker podman docker-compose"] ++ c).

Definition user_commands (entities : dict) (query : str)
  : result (list str) :=
  let user := py_or (dict_get entities "user") (dict_get entities "target") in
  let path := dict_get entities "path" in
  c1 <- (if truthy user
         then q_user <- q user ;;
              Ok [py "id " ++ q_user ++ py " 2>/dev/null || true";
                  py "getent passwd " ++ q_user]
         else Ok []) ;;
  c2 <- (if truthy path
         then q_path <- q path ;;
              Ok [py "ls -la " ++ q_path;
                  py "getfacl " ++ q_path ++ py " 2>/dev/null || true";
                  py "stat " ++ q_path]
         else Ok []) ;;
  Ok ([py "id"; py "whoami"; py "groups"] ++ c1 ++ c2
      ++ [py "w"; py "last -5"]).

Definition log_commands (entities : dict) (query : str)
  : result (list str) :=
  let service := py_or (dict_get entities "service")
                       (dict_get entities "target") in
  if truthy service
  then match safe_name service with
       | Some s_service =>
         Ok [py "journalctl -u " ++ s_service ++ py " -n 50 --no-pager";
             py "journalctl -u " ++ s_service ++ py " -p err -n 20 --no-pager";
             py "find /var/log -maxdepth 2 -name '*" ++ s_service
               ++ py "*' -type f 2>/dev/null"]
       | None => Ok []
       end
  else Ok [py "journalctl -p err -n 30 --no-pager";
           py "dmesg | tail -30";
           py "ls -lt /var/log/*.log 2>/dev/null | head -10"].

(** ** 5.3 The planner *)

Definition domain_methods
  : list (str * (dict -> str -> result (list str))) := [
  (py "file", file_commands);
  (py "process", process_commands);
  (py "network", network_commands);
  (py "service", service_commands);
  (py "system", system_commands);
  (py "software", software_commands);
  (py "storage", storage_commands);
  (py "container", container_commands);
  (py "user", user_commands);
  (py "log", log_commands)
].

(** The loop [for domain in domains]. *)
Fixpoint collect (domains : list str) (entities : dict) (query : str)
    (complexity : TaskComplexity) : result (list str) :=
  match domains with
  | [] => Ok []
  | domain :: rest =>
    match lookup domain domain_methods with
    | Some method =>
      domain_cmds <- method entities query ;;
      let domain_cmds :=
        match complexity with
        | SIMPLE => firstn 3 domain_cmds
        | MODERATE => firstn 5 domain_cmds
        | _ => domain_cmds
        end in
      more <- collect rest entities query complexity ;;
      Ok (domain_cmds ++ more)
    | None => collect rest entities query complexity
    end
  end.

(** The loop that keeps the first occurrence of each command; [seen] is
    the set of the commands met so far. *)
Fixpoint unique (seen : list str) (cmd_set : list str) : list str :=
  match cmd_set with
  | [] => []
  | c :: rest =>
    if str_in c seen then unique seen rest
    else c :: unique (c :: seen) rest
  end.

Definition max_cmds (complexity : TaskComplexity) : nat :=
  match complexity with
  | SIMPLE => 5
  | MODERATE => 10
  | COMPLEX => 20
  | TRIVIAL => 10
  end.

Definition get_scout_commands (domains : list str) (entities : dict)
    (query : str) (complexity : TaskComplexity) : result (list str) :=
  match complexity with
  | TRIVIAL => Ok []
  | _ =>
    cmd_set <- collect domains entities query complexity ;;
    Ok (firstn (max_cmds complexity) (unique [] cmd_set))
  end.

End Domains.

(* ================================================================== *)
(** * 6. graph.py *)
(* ================================================================== *)

(** ** 6.1 Constants *)

Definition SUPPORTED_DOMAINS : list str := map py [
  "file"; "process"; "network"; "service"; "system";
  "software"; "storage"; "container"; "user"; "log"
]%string.

(** [^(a|b|...)$], compiled with [re.IGNORECASE] where it is used. *)
Definition trivial_re (l : list string) : regex :=
  seq [Bol; Group 1 (alts (map liti l)); Eol].

Definition TRIVIAL_PATTERNS : list regex := [
  trivial_re ["pwd"; "当前目录"; "当前路径"; "我在哪"]%string;
  trivial_re ["whoami"; "我是谁"; "当前用户"]%string;
  trivial_re ["date"; "时间"; "日期"; "几点"; "什么时候"]%string;
  trivial_re ["uptime"; "运行时间"; "开机多久"]%string;
  trivial_re ["hostname"; "主机名"]%string;
  trivial_re ["uname"; "系统版本"; "内核版本"]%string;
  trivial_re ["id"; "用户id"; "用户信息"]%string;
  trivial_re ["df"; "磁盘空间"; "磁盘使用"]%string;
  trivial_re ["free"; "内存"; "内存使用"]%string
].

Definition DIAGNOSTIC_KEYWORDS : list str := map py [
  "为什么"; "怎么回事"; "排查"; "诊断"; "问题";
  "不工作"; "失败"; "错误"; "异常"; "故障";
  "无法"; "不能"; "连不上"; "打不开"; "起不来"
]%string.

Definition TRIVIAL_COMMANDS : list (str * str) :=
  map (fun kv => (py (fst kv), py (snd kv))) [
  ("pwd", "pwd");
  ("当前目录", "pwd");
  ("当前路径", "pwd");
  ("我在哪", "pwd");
  ("whoami", "whoami");
  ("我是谁", "whoami");
  ("当前用户", "whoami");
  ("date", "date");
  ("时间", "date '+%Y-%m-%d %H:%M:%S'");
  ("日期", "date '+%Y-%m-%d'");
  ("几点", "date '+%H:%M:%S'");
  ("uptime", "uptime");
  ("运行时间", "uptime");
  ("开机多久", "uptime");
  ("hostname", "hostname");
  ("主机名", "hostname");
  ("id", "id");
  ("用户id", "id");
  ("df", "df -h");
  ("磁盘空间", "df -h");
  ("磁盘使用", "df -h");
  ("free", "free -h");
  ("内存", "free -h");
  ("内存使用", "free -h")
]%string.

(** ** 6.2 The intent *)

(** The intent once [refine_node] has normalised it.  The key [action] is
    never read and is left out. *)
Record Intent : Type := mkIntent {
  i_domains : list str;
  i_entities : dict;
  i_complexity : option pyval;        (* the key is absent when [None] *)
  i_parse_error : option str;
  i_llm_error : option str
}.

(** What [json.loads] may return for the keys [refine_node] reads. *)
Inductive raw_domains : Type :=
| RDAbsent
| RDScalar (v : pyval)
| RDList (l : list pyval).

Inductive raw_entities : Type :=
| REAbsent
| REDict (d : dict)
| REOther.                            (* any value that is not a dict *)

Record RawIntent : Type := mkRaw {
  r_domains : raw_domains;
  r_entities : raw_entities;
  r_complexity : option pyval
}.

Inductive json : Type :=
| JObject (i : RawIntent)
| JOther.                             (* a document that is not an object *)

(** ** 6.3 The probe executor's records *)

Record ProbeResult : Type := mkProbe {
  cmd : str;
  stdout : str;
  stderr : str;
  rc : Z
}.

(** The outcome of [subprocess.run(..., timeout=10)]. *)
Inductive proc : Type :=
| Completed (out err : str) (returncode : Z)
| TimeoutExpired
| SpawnError (msg : str).

Record AgentState : Type := mkState {
  query : str;
  intent : option Intent;
  complexity : option pyval;
  context : option str;
  scout_info : option str;
  examples : option str;
  command : option str;
  error : option str
}.

(** The state [graph.invoke] starts from. *)
Definition initial_state (q : str) : AgentState :=
  mkState q None None None None None None None.

(** ** 6.4 The world outside the pipeline

    The language model, the JSON parser, the knowledge base, the shell and
    two pieces of the source whose results no statement below looks into
    are parameters:
    - [invoke_intent] and [invoke_generate] are [_invoke_llm_with_retry] on
      the two prompts: the reply, or the text of the exception;
    - [json_loads] is [json.loads]: the document, or the text of the
      [JSONDecodeError];
    - [extract_entities_from_query] is the regex fallback (its [tool] entity
      depends on the order of a set);
    - [subprocess_run] gets the commands spawned before and the command;
    - [scan_results] is the loop of [extract_facts], which returns the lists
      [facts] and [raw_outputs]. *)
Class World : Type := {
  invoke_intent : str -> str + str;
  invoke_generate : AgentState -> str + str;
  json_loads : str -> json + str;
  extract_entities_from_query : str -> dict;
  kb_search : str -> option str;
  get_system_context : str;
  subprocess_run : list str -> str -> proc;
  scan_results : list ProbeResult -> dict -> str -> list str * list str
}.

Section Graph.
Context {U : UCD} {O : SetOrder} {W : World}.

(** ** 6.5 Complexity *)

Definition is_some (A : Type) (o : option A) : bool :=
  match o with Some _ => true | None => false end.

Definition assess_complexity (query : str) (intent : Intent)
  : TaskComplexity :=
  let query_lower := strip (lower query) in
  if existsb (fun pattern => is_some (re_match pattern query_lower))
       TRIVIAL_PATTERNS
  then TRIVIAL
  else if existsb (fun keyword => contains query keyword) DIAGNOSTIC_KEYWORDS
  then COMPLEX
  else
    let domains := i_domains intent in
    if Nat.leb 3 (length domains) then COMPLEX
    else if Nat.eqb (length domains) 2 then MODERATE
    else
      let entities := i_entities intent in
      let has_target :=
        existsb (fun k => truthy (dict_get entities k))
          ["target"; "path"; "filename"; "port"; "service"; "container"]%string in
      if has_target then SIMPLE else MODERATE.

(** ** 6.6 JSON repair *)

Definition fence_json_re : regex := seq [lit "```json"; star sp].
Definition fence_re : regex := seq [lit "```"; star sp].
Definition braces_re : regex :=                       (* \{[\s\S]*\} *)
  seq [lit "{"; star (ASet false [CSpace; CNotSpace]); lit "}"].
Definition comma_brace_re : regex := seq [lit ","; star sp; lit "}"].
Definition comma_bracket_re : regex := seq [lit ","; star sp; lit "]"].

Definition fix_json_string (s : str) : str :=
  let s := re_sub fence_json_re [] s in
  let s := re_sub fence_re [] s in
  let s := strip s in
  let s := match re_search braces_re s with
           | Some m => group0 m
           | None => s
           end in
  let s := replace_char SQUOTE [DQUOTE] s in
  let s := re_sub comma_brace_re (py "}") s in
  let s := re_sub comma_bracket_re (py "]") s in
  s.

(** [parse_json_safe]: the document and no error, or the default and the
    text of the first error. *)
Definition parse_json_safe (s : str) (default : json) : json * option str :=
  match json_loads s with
  | inl v => (v, None)
  | inr e =>
    match json_loads (fix_json_string s) with
    | inl v => (v, None)
    | inr _ => (default, Some e)
    end
  end.

(** ** 6.7 [refine_node] *)

Definition default_intent : RawIntent :=
  mkRaw (RDList [VStr (py "file")]) (REDict []) (Some (VInt 2)).

Definition supported (v : pyval) : option str :=
  match v with
  | VStr d => if str_in d SUPPORTED_DOMAINS then Some d else None
  | _ => None
  end.

Fixpoint keep_supported (l : list pyval) : list str :=
  match l with
  | [] => []
  | v :: l' =>
    match supported v with
    | Some d => d :: keep_supported l'
    | None => keep_supported l'
    end
  end.

(** The four lines that repair [intent["domains"]]. *)
Definition fix_domains (d : raw_domains) : result (list str) :=
  l <- match d with
       | RDAbsent => Ok [VStr (py "file")]
       | RDScalar v =>
         if negb (truthy v) then Ok [VStr (py "file")]
         else match v with
              | VStr _ => Ok [v]
              | _ => Raise TypeError          (* the value is not iterable *)
              end
       | RDList [] => Ok [VStr (py "file")]
       | RDList l => Ok l
       end ;;
  match keep_supported l with
  | [] => Ok [py "file"]
  | ds => Ok ds
  end.

(** The loop that adds the regex entities the model did not provide. *)
Fixpoint add_regex_entities (regex_entities : dict) (entities : dict) : dict :=
  match regex_entities with
  | [] => entities
  | (key, value) :: rest =>
    add_regex_entities rest
      (if truthy value && negb (truthy (match lookup key entities with
                                        | Some v => v
                                        | None => VNone
                                        end))
       then dict_set entities key value
       else entities)
  end.

(** The two promotions of [target]. *)
Definition promote_target (entities : dict) : result dict :=
  let target := dict_get entities "target" in
  entities <-
    (if truthy target
     then match target with
          | VStr t =>
            if startswith t (py "/") && negb (truthy (dict_get entities "path"))
            then Ok (dict_set entities (py "path") target)
            else Ok entities
          | _ => Raise AttributeError       (* no method startswith *)
          end
     else Ok entities) ;;
  if truthy target && isdigit (py_str target)
     && negb (truthy (dict_get entities "port"))
  then Ok (dict_set entities (py "port") (VStr (py_str target)))
  else Ok entities.

(** The number a value compares as, when it is one. *)
Definition number (v : pyval) : option Z :=
  match v with
  | VInt z => Some z
  | VBool true => Some 1%Z
  | VBool false => Some 0%Z
  | _ => None
  end.

(** [max(llm_complexity, assessed_complexity)]: the second argument
    replaces the first when it is greater. *)
Definition py_max (a : pyval) (b : TaskComplexity) : result pyval :=
  match number a with
  | Some z =>
    if Z.ltb z (complexity_value b) then Ok (VInt (complexity_value b))
    else Ok a
  | None => Raise TypeError
  end.

(** The intent [refine_node] starts its repairs from: the parsed reply,
    or the default when the call or the parse failed. *)
Definition llm_intent (q : str) : json :=
  match invoke_intent q with
  | inl result_str => fst (parse_json_safe result_str (JObject default_intent))
  | inr _ => JObject default_intent
  end.

(** The annotations [_parse_error] and [_llm_error] of that intent. *)
Definition llm_errors (q : str) : option str * option str :=
  match invoke_intent q with
  | inl result_str =>
    match parse_json_safe result_str (JObject default_intent) with
    | (_, Some e) => (match e with [] => None | _ => Some e end, None)
    | (_, None) => (None, None)
    end
  | inr e => (None, Some e)
  end.

Definition refine_node (state : AgentState) : result AgentState :=
  let query := query state in
  let query_normalized := lower (strip query) in
  match lookup query_normalized TRIVIAL_COMMANDS with
  | Some canned =>
    Ok (mkState query
          (Some (mkIntent [py "file"] [] None None None))
          (Some (VInt (complexity_value TRIVIAL)))
          (context state) (scout_info state) (examples state)
          (Some canned) (error state))
  | None =>
    match llm_intent query with
    | JOther => Raise AttributeError        (* no method get *)
    | JObject raw =>
      domains <- fix_domains (r_domains raw) ;;
      entities <- match r_entities raw with
                  | REAbsent => Ok []
                  | REDict d => Ok d
                  | REOther => Raise AttributeError
                  end ;;
      let regex_entities := extract_entities_from_query query in
      let entities := add_regex_entities regex_entities entities in
      entities <- promote_target entities ;;
      let intent := mkIntent domains entities (r_complexity raw)
                      (fst (llm_errors query)) (snd (llm_errors query)) in
      let llm_complexity := match r_complexity raw with
                            | Some v => v
                            | None => VInt 2
                            end in
      let assessed_complexity := assess_complexity query intent in
      final_complexity <- py_max llm_complexity assessed_complexity ;;
      Ok (mkState query (Some intent) (Some final_complexity)
            (context state) (scout_info state) (examples state)
            (command state) (error state))
    end
  end.

(** ** 6.8 [retrieve_node] *)

Definition retrieve_node (state : AgentState) : AgentState :=
  let examples := match kb_search (query state) with
                  | Some (_ :: _ as results) => results
                  | _ => py "No examples found."
                  end in
  mkState (query state) (intent state) (complexity state)
    (Some get_system_context) (scout_info state) (Some examples)
    (command state) (error state).

(** ** 6.9 [scout_node] *)

(** The loop over [scout_cmds]: the results so far, the count of failed
    probes and the commands handed to the shell. *)
Record ExecState : Type := mkExec {
  exec_results : list ProbeResult;
  failed_count : nat;
  spawned : list str
}.

Definition reason_text (reason : option str) : str :=
  match reason with
  | Some r => r
  | None => py "None"
  end.

Definition exec_step (st : ExecState) (cmd : str) : ExecState :=
  if negb (is_safe_scout_cmd cmd)
  then
    let reason := get_safety_reason cmd in
    mkExec (exec_results st
              ++ [mkProbe cmd [] (py "BLOCKED: " ++ reason_text reason) 126])
           (failed_count st) (spawned st)
  else
    match subprocess_run (spawned st) cmd with
    | Completed out err returncode =>
      mkExec (exec_results st ++ [mkProbe cmd out err returncode])
             (if negb (Z.eqb returncode 0) then S (failed_count st)
              else failed_count st)
             (spawned st ++ [cmd])
    | TimeoutExpired =>
      mkExec (exec_results st ++ [mkProbe cmd [] (py "TIMEOUT") 124])
             (S (failed_count st)) (spawned st ++ [cmd])
    | SpawnError msg =>
      mkExec (exec_results st ++ [mkProbe cmd [] msg 1])
             (S (failed_count st)) (spawned st ++ [cmd])
    end.

Definition exec_loop (scout_cmds : list str) (st : ExecState) : ExecState :=
  fold_left exec_step scout_cmds st.

Definition float_of_nat (n : nat) : float :=
  PrimFloat.of_uint63 (Uint63.of_Z (Z.of_nat n)).

(** [failed_count > len(scout_cmds) * 0.7], in binary64 arithmetic; the
    literal is the double nearest to 0.7. *)
Definition most_failed (failed_count len : nat) : bool :=
  PrimFloat.ltb (PrimFloat.mul (float_of_nat len) 0x1.6666666666666p-1%float)
    (float_of_nat failed_count).

Definition WARNING : str := py "[WARNING] Most scout commands failed.".

(** The last three lines of [extract_facts], after its loop. *)
Definition extract_facts (results : list ProbeResult) (entities : dict)
    (query : str) : str :=
  let (facts, raw_outputs) := scan_results results entities query in
  let facts_str := match facts with
                   | [] => py "No structured facts extracted."
                   | _ => join [NL] facts
                   end in
  let raw_str := match raw_outputs with
                 | [] => py "No raw output."
                 | _ => join ([NL] ++ py "---" ++ [NL]) (firstn 15 raw_outputs)
                 end in
  py "[EXTRACTED FACTS]" ++ [NL] ++ facts_str ++ [NL; NL]
    ++ py "[RAW SCOUT OUTPUT]" ++ [NL] ++ raw_str.

Definition set_scout_info (state : AgentState) (info : str) : AgentState :=
  mkState (query state) (intent state) (complexity state) (context state)
    (Some info) (examples state) (command state) (error state).

(** [scout_node] returns the new state and the commands it spawned. *)
Definition scout_node (state : AgentState) : result (AgentState * list str) :=
  if match complexity state with
     | Some v => match number v with
                 | Some z => Z.eqb z (complexity_value TRIVIAL)
                 | None => false
                 end
     | None => false
     end
  then Ok (set_scout_info state (py "[TRIVIAL TASK - No scout needed]"), [])
  else
    intent <- match intent state with
              | Some i => Ok i
              | None => Raise KeyError
              end ;;
    let query := query state in
    complexity <- match complexity state with
                  | None => Ok MODERATE
                  | Some v => match number v with
                              | Some z => TaskComplexity_of z
                              | None => Raise ValueError
                              end
                  end ;;
    scout_cmds <- get_scout_commands (i_domains intent) (i_entities intent)
                    query complexity ;;
    match scout_cmds with
    | [] => Ok (set_scout_info state (py "[No scout commands generated]"), [])
    | _ =>
      let st := exec_loop scout_cmds (mkExec [] 0 []) in
      let warning := if most_failed (failed_count st) (length scout_cmds)
                     then WARNING else [] in
      let facts := extract_facts (exec_results st) (i_entities intent) query in
      let facts := match warning with
                   | [] => facts
                   | _ => warning ++ [NL; NL] ++ facts
                   end in
      Ok (set_scout_info state facts, spawned st)
    end.

(** ** 6.10 [generate_node] *)

Definition fence_bash_re : regex := seq [Bol; lit "```bash"; star sp].
Definition fence_open_re : regex := seq [Bol; lit "```"; star sp].
Definition fence_close_re : regex := seq [star sp; lit "```"; Eol].

(** The list comprehension over the lines of the reply. *)
Definition command_lines (command : str) : list str :=
  map strip
    (filter (fun l => match strip l with
                      | [] => false
                      | _ => negb (startswith l (py "#"))
                      end)
       (split_on NL command)).

(** The command [generate_node] keeps of the model's reply. *)
Definition clean_command (result_str : str) : str :=
  let command := strip result_str in
  let command := re_sub fence_bash_re [] command in
  let command := re_sub fence_open_re [] command in
  let command := re_sub fence_close_re [] command in
  let command := strip command in
  if contains command [NL] && negb (startswith command (py "echo"))
  then match command_lines command with
       | first :: _ => first
       | [] => command
       end
  else command.

Definition generate_node (state : AgentState) : AgentState :=
  match command state with
  | Some (_ :: _) => state
  | _ =>
    match invoke_generate state with
    | inl result_str =>
      mkState (query state) (intent state) (complexity state) (context state)
        (scout_info state) (examples state)
        (Some (clean_command result_str)) (error state)
    | inr e =>
      mkState (query state) (intent state) (complexity state) (context state)
        (scout_info state) (examples state)
        (Some (py "echo " ++ [DQUOTE] ++ py "命令生成失败: " ++ e ++ [DQUOTE]))
        (Some e)
    end
  end.

(** ** 6.11 The graph *)

Inductive node : Type :=
| generate
| scout.

Definition should_skip_scout (state : AgentState) : node :=
  match complexity state with
  | Some v =>
    match number v with
    | Some z => if Z.eqb z (complexity_value TRIVIAL) then generate else scout
    | None => scout
    end
  | None => scout
  end.

(** [graph.invoke({"query": q})]: refine, retrieve, then scout unless the
    task is trivial, then generate.  The result is the final state with
    the commands the run spawned. *)
Definition run_graph (q : str) : result (AgentState * list str) :=
  s1 <- refine_node (initial_state q) ;;
  let s2 := retrieve_node s1 in
  match should_skip_scout s2 with
  | generate => Ok (generate_node s2, [])
  | scout =>
    r <- scout_node s2 ;;
    Ok (generate_node (fst r), snd r)
  end.

(** [run_query] *)
Definition run_query (q : str) : result str :=
  r <- run_graph q ;;
  match command (fst r) with
  | Some c => Ok c
  | None => Ok (py "No command generated")
  end.

End Graph.

(* ================================================================== *)
(** * 7. Notions used in the statements and proofs *)
(* ================================================================== *)

Section Notions.
Context {U : UCD}.

(** ** Words and white space *)

Definition blank (s : str) : bool := forallb isspace s.

Definition solid (w : str) : bool := forallb (fun c => negb (isspace c)) w.

Fixpoint break_word (s : str) : str * str :=
  match s with
  | [] => ([], [])
  | c :: s' =>
    if isspace c then ([], s)
    else let (w, r) := break_word s' in (c :: w, r)
  end.

(** The text begins and ends with characters that are not white space. *)
Definition ends_solid (k : str) : bool :=
  match hd_error k, hd_error (rev k) with
  | Some x, Some y => negb (isspace x) && negb (isspace y)
  | _, _ => false
  end.

(** What the order-independence needs of an entry with a space: it is a
    word that is no restricted command, a space, and more text. *)
Definition plain_prefix (e : str) : bool :=
  if contains e SPACE
  then match break_word e with
       | (c :: w, s :: x :: _) =>
         (s =? 32) && negb (isspace x) && negb (contains (c :: w) (py "/"))
         && negb (str_eqb (c :: w) (py "sudo"))
         && negb (is_some (lookup (c :: w) RESTRICTED_COMMANDS))
       | _ => false
       end
  else true.

Definition multi_hit (sub e : str) : bool :=
  contains e SPACE && (str_eqb sub e || startswith sub (e ++ SPACE)).

Definition single_hit (base_cmd e : str) : bool :=
  negb (contains e SPACE) && str_eqb base_cmd e.

(** The verdict of an entry equal to the base command. *)
Definition restricted_ok (original_sub base_cmd : str) : bool :=
  match lookup base_cmd RESTRICTED_COMMANDS with
  | Some _ => _check_restricted_command original_sub base_cmd
  | None => true
  end.

End Notions.

Section ScoutNotions.
Context {U : UCD} {O : SetOrder} {W : World}.

(** ** The executor *)

(** The record of a probe the gate rejected. *)
Definition blocked (c : str) : ProbeResult :=
  mkProbe c [] (py "BLOCKED: " ++ reason_text (get_safety_reason c)) 126.

(** A result of a probe that was run and did not end with status 0
    (a timeout is recorded with 124, a failure to spawn with 1). *)
Definition run_failed (r : ProbeResult) : bool :=
  is_safe_scout_cmd (cmd r) && negb (Z.eqb (rc r) 0).

Definition exec_start : ExecState := mkExec [] 0 [].

(** The probe list of [scout_node]: the planner's, or none when the task
    is trivial. *)
Definition planned_probes (state : AgentState) : result (list str) :=
  match should_skip_scout state with
  | generate => Ok []
  | scout =>
    intent <- match intent state with
              | Some i => Ok i
              | None => Raise KeyError
              end ;;
    complexity <- match complexity state with
                  | None => Ok MODERATE
                  | Some v => match number v with
                              | Some z => TaskComplexity_of z
                              | None => Raise ValueError
                              end
                  end ;;
    get_scout_commands (i_domains intent) (i_entities intent) (query state)
      complexity
  end.

End ScoutNotions.

(** ** Worlds to run the pipeline in *)

(** The worlds below fix the parameters for the concrete runs; the scan
    of the results is left empty in all of them, as no statement looks at
    the facts beyond their first line.

    A world without a model, in which every probe exits with 127. *)
Definition offline_world : World := {|
  invoke_intent := fun _ => inr (py "connection refused");
  invoke_generate := fun _ => inr (py "connection refused");
  json_loads := fun _ => inr (py "Expecting value");
  extract_entities_from_query := fun _ => [];
  kb_search := fun _ => None;
  get_system_context := py "Linux";
  subprocess_run := fun _ _ => Completed [] (py "command not found") 127;
  scan_results := fun _ _ _ => ([], [])
|}.

(** A state after [refine_node] that asks for the probes of the domain
    [log] at complexity SIMPLE. *)
Definition log_state : AgentState :=
  mkState (py "show recent errors")
    (Some (mkIntent [py "log"] [] (Some (VInt 2)) None None))
    (Some (VInt 2)) None None None None None.

Section GateNotions.
Context {U : UCD} {O : SetOrder}.

(** ** The gate *)

(** The first piece of the fragment is a combo-only command: the case
    [i == 0] of the loop of [is_safe_scout_cmd]. *)
Definition combo_first (c : str) : bool :=
  match re_split split_re (strip c) with
  | [] => false
  | p :: _ =>
    match strip p with
    | [] => false
    | sub => str_in (_get_base_command sub) COMBO_ONLY_COMMANDS
    end
  end.

(** Texts whose presence anywhere in a fragment makes a Tier-1 pattern
    match, stripped or not. *)
Definition TIER1_TOKENS : list str :=
  map py ["`"; "$("; "<("; ">("; ">>"; "||"; ";"; "> /dev/null"]%string.

(** The pattern [>\s*[^|&]] of [DANGEROUS_PATTERNS]. *)
Definition redirect_re : regex :=
  seq [lit ">"; star sp; One (ASet true [CChar (c_ "|"); CChar (c_ "&")])].

End GateNotions.

(** ** The intent *)

(** [intent.get("complexity", 2)] *)
Definition llm_complexity (i : Intent) : pyval :=
  match i_complexity i with
  | Some v => v
  | None => VInt 2
  end.

(** A world whose model answers every query with the intent
    [{"domains": ["network", "process"], "entities": {"port": "8080"},
      "complexity": 2}] and proposes [ss -tlnp]; every probe exits with 0
    and prints nothing. *)
Definition port_world : World := {|
  invoke_intent := fun _ => inl (py "{...}");
  invoke_generate := fun _ => inl (py "ss -tlnp");
  json_loads := fun _ =>
    inl (JObject (mkRaw (RDList [VStr (py "network"); VStr (py "process")])
                        (REDict [(py "port", VStr (py "8080"))])
                        (Some (VInt 2))));
  extract_entities_from_query := fun _ => [(py "port", VStr (py "8080"))];
  kb_search := fun _ => None;
  get_system_context := py "Linux";
  subprocess_run := fun _ _ => Completed [] [] 0;
  scan_results := fun _ _ _ => ([], [])
|}.

Section GenerateNotions.
Context {U : UCD}.

(** ** The reply of the model *)

(** The reply once [generate_node] has stripped it and removed the code
    fences, before it picks a line. *)
Definition unfenced (result_str : str) : str :=
  strip (re_sub fence_close_re []
           (re_sub fence_open_re []
              (re_sub fence_bash_re [] (strip result_str)))).

(** The filter of the list comprehension: the line is not blank and does
    not begin with [#]. *)
Definition kept_line (l : str) : bool :=
  match strip l with
  | [] => false
  | _ => negb (startswith l (py "#"))
  end.

End GenerateNotions.



(** ** JSON repair *)

Definition TICKS : str := py "```".

(** What a trailing-comma pattern deletes in front of the closer. *)
Definition droppable (d : N) : bool := (d =? 44) || isspace d.

(** [Thin close s out]: [out] is [s] without some runs of commas and white
    space, each of them directly in front of a [close] that is kept. *)
Inductive Thin (close : N) : str -> str -> Prop :=
| Thin_nil : Thin close [] []
| Thin_keep (c : N) (s out : str) :
    Thin close s out -> Thin close (c :: s) (c :: out)
| Thin_del (d : N) (s out : str) :
    droppable d = true -> Thin close s (close :: out) ->
    Thin close (d :: s) (close :: out).

Definition hd_solid (s : str) : bool :=
  match s with
  | [] => true
  | x :: _ => negb (isspace x)
  end.

(** No white space at either end. *)
Definition trimmed (s : str) : bool := hd_solid s && hd_solid (rev s).

(** An opening brace with a closing brace somewhere after it. *)
Definition braced (s : str) : Prop :=
  exists a r, s = a ++ 123 :: r /\ In 125 r.

(** The replacement of a single quote by a double one, on one
    character. *)
Definition requote (c : N) : N := if c =? SQUOTE then DQUOTE else c.

(** The class that matches any character. *)
Definition anychar : atom := ASet false [CSpace; CNotSpace].

(** The shape the brace pattern and both trailing-comma patterns have: a
    character, a greedy run, a character. *)
Definition enclosed (o : N) (a : atom) (c : N) : regex :=
  seq [lit_str [o]; star a; lit_str [c]].

Section RepairNotions.
Context {U : UCD}.

(** What follows the run in an [enclosed] pattern: the closing character,
    then the end of the pattern. *)
Definition closer (c : N) : str -> str -> option mstate :=
  fun b a' =>
    rmatch (Cat (Cat (One (ALit c)) Eps) Eps) (MState b a' []) (fun st => Some st).

(** The fourth step of the repair: the text from the first opening brace
    that has a closing brace after it, to the last closing brace. *)
Definition extract_braces (s : str) : str :=
  match re_search braces_re s with
  | Some m => group0 m
  | None => s
  end.

(** The last two steps of the repair: the trailing-comma removals. *)
Definition drop_trailing_commas (s : str) : str :=
  re_sub comma_bracket_re (py "]") (re_sub comma_brace_re (py "}") s).

Definition trailing_comma (s : str) : bool :=
  re_found comma_brace_re s || re_found comma_bracket_re s.

(** What the first five steps of the repair leave as it is: a text
    without a code fence, without white space at its ends, equal to its
    own brace extract and without a single quote. *)
Definition settled (t : str) : Prop :=
  contains t TICKS = false /\ trimmed t = true
  /\ extract_braces t = t /\ ~ In SQUOTE t.

End RepairNotions.

(** ** The threshold of the warning *)

(** The binary64 comparison agrees with the exact one for every number of
    failures among [m] probes. *)
Definition threshold_agrees (m : nat) : bool :=
  forallb (fun f => Bool.eqb (most_failed f m) (Nat.ltb (7 * m) (10 * f)))
    (List.seq 0 (S m)).

(* ================================================================== *)
(** * 8. More of safety.py, domains.py and graph.py *)
(* ================================================================== *)

(** ** safety.py: [validate_command_batch] *)

(** An entry of the list [validate_command_batch] returns. *)
Record Verdict : Type := mkVerdict {
  v_command : str;
  v_safe : bool;
  v_reason : option str
}.

Section Batch.
Context {U : UCD} {O : SetOrder}.

Definition validate_command_batch (commands : list str) : list Verdict :=
  map (fun cmd =>
         let is_safe := is_safe_scout_cmd cmd in
         mkVerdict cmd is_safe
           (if is_safe then None else get_safety_reason cmd))
      commands.

(** The fragment [_is_allowed_subcmd] looks at: stripped, and without a
    leading [sudo]. *)
Definition after_sudo (sub : str) : str :=
  let s := strip sub in
  if startswith s (py "sudo ") then strip (drop 5 s) else s.

(** The three ways in which [_is_allowed_subcmd] accepts: a bare
    assignment, a base command that is an entry of the allow list, an
    entry of several words the fragment begins with. *)
Definition bare_assignment (t : str) : bool :=
  contains t (py "=") && negb (contains t SPACE)
  && is_some (re_match assign_re t).

Definition listed (t : str) : bool :=
  bare_assignment t
  || str_in (_get_base_command t) UNCONDITIONAL_ALLOW
  || existsb (multi_hit t) UNCONDITIONAL_ALLOW.

End Batch.

(** ** domains.py: [safe_port] and [safe_path] *)

Section Validation.
Context {U : UCD}.

Definition SAFE_PORT_REGEX : regex :=                      (* ^\d{1,5}$ *)
  seq [Bol; Rep ADigit 1 (Some 5%nat); Eol].

Definition SAFE_PATH_REGEX : regex :=        (* ^[a-zA-Z0-9._/~@+-]+$ *)
  seq [Bol; plus (ASet false (alnum_items ++ map CChar (py "._/~@+-")));
       Eol].

(** [int(s_str)] raises [ValueError] on what is no number; the pattern has
    matched before it is called. *)
Definition safe_port (v : pyval) : result (option str) :=
  let s_str := match v with VNone => [] | _ => strip (py_str v) end in
  match re_match SAFE_PORT_REGEX s_str with
  | Some _ =>
    match py_int s_str with
    | Some n => if (0 <? n) && (n <? 65536) then Ok (Some s_str) else Ok None
    | None => Raise ValueError
    end
  | None => Ok None
  end.

Definition safe_path (v : pyval) : option str :=
  let s := match v with VNone => [] | _ => strip (py_str v) end in
  match s with
  | [] => None
  | _ =>
    match re_match SAFE_PATH_REGEX s with
    | Some _ => Some s
    | None => None
    end
  end.

End Validation.

(** The characters of the three classes, as predicates. *)
Definition ascii_alnum (c : N) : bool :=
  ascii_lower c || ascii_upper c || ascii_digit c.
Definition name_char (c : N) : bool :=
  ascii_alnum c || existsb (N.eqb c) (py "._:@+-").
Definition path_char (c : N) : bool :=
  ascii_alnum c || existsb (N.eqb c) (py "._/~@+-").
(** What [shlex.quote] leaves without quotes. *)
Definition plain_char (c : N) : bool :=
  ascii_alnum c || existsb (N.eqb c) (py "_@%+=:,./-").

(** ** How a shell reads what [shlex.quote] writes

    Quote removal for one word, as POSIX describes it: outside quotes a
    plain character stands for itself, a quote opens a quoted part and
    any other character ends or changes the word; between single quotes
    every character stands for itself; between double quotes every
    character but the dollar, the backquote and the backslash does. *)
Inductive quoting : Type :=
| Unquoted
| InSingle
| InDouble.

Fixpoint sh_word (mode : quoting) (s : str) : option str :=
  match s with
  | [] => match mode with Unquoted => Some [] | _ => None end
  | c :: s' =>
    match mode with
    | Unquoted =>
      if c =? SQUOTE then sh_word InSingle s'
      else if c =? DQUOTE then sh_word InDouble s'
      else if plain_char c then option_map (cons c) (sh_word Unquoted s')
      else None
    | InSingle =>
      if c =? SQUOTE then sh_word Unquoted s'
      else option_map (cons c) (sh_word InSingle s')
    | InDouble =>
      if c =? DQUOTE then sh_word Unquoted s'
      else if (c =? c_ "$") || (c =? c_ "`") || (c =? BACKSLASH) then None
      else option_map (cons c) (sh_word InDouble s')
    end
  end.

(** Every value of the entities is a string or [None]. *)
Definition stringly (d : dict) : bool :=
  forallb (fun kv => match snd kv with
                     | VStr _ | VNone => true
                     | _ => false
                     end) d.

(** ** graph.py: the entities of an intent *)

(** [d.get(k)] for a key that is a [str]. *)
Definition entity (d : dict) (k : str) : pyval :=
  match lookup k d with
  | Some v => v
  | None => VNone
  end.

(** The first value for [k] among the regex entities that is not false. *)
Definition regex_value (regex_entities : dict) (k : str) : option pyval :=
  option_map snd
    (find (fun kv => str_eqb k (fst kv) && truthy (snd kv)) regex_entities).

(** A world whose model declares the complexity 5. *)
Definition eager_world : World := {|
  invoke_intent := fun _ => inl (py "{...}");
  invoke_generate := fun _ => inl (py "ls");
  json_loads := fun _ =>
    inl (JObject (mkRaw (RDList [VStr (py "file")]) (REDict [])
                        (Some (VInt 5))));
  extract_entities_from_query := fun _ => [];
  kb_search := fun _ => None;
  get_system_context := py "Linux";
  subprocess_run := fun _ _ => Completed [] [] 0;
  scan_results := fun _ _ _ => ([], [])
|}.

(** ** graph.py: [_invoke_llm_with_retry]

    The chain is a function of the number of the call: a reply, or the
    exception it raises.  The loop returns the first reply; what it sleeps
    between the calls is recorded, in half seconds. *)
Inductive outcome : Type :=
| Reply (content : str)
| Raised (e : str)               (* [raise last_error] *)
| RaisedNone.                    (* [raise None], a [TypeError] *)

Record RetryRun : Type := mkRun {
  run_outcome : outcome;
  run_calls : nat;               (* how often the chain was invoked *)
  run_sleeps : list nat          (* the arguments of [time.sleep], doubled *)
}.

(** The loop [for attempt in range(self.max_retries)], from [attempt] on,
    with [remaining] iterations to go. *)
Fixpoint retry_loop (chain : nat -> str + str) (max_retries : nat)
    (remaining attempt : nat) (last_error : option str) (sleeps : list nat)
  : RetryRun :=
  match remaining with
  | O =>
    mkRun (match last_error with Some e => Raised e | None => RaisedNone end)
          attempt sleeps
  | S remaining' =>
    match chain attempt with
    | inl content => mkRun (Reply content) (S attempt) sleeps
    | inr e =>
      retry_loop chain max_retries remaining' (S attempt) (Some e)
        (if Nat.ltb attempt (max_retries - 1)
         then sleeps ++ [S attempt] else sleeps)
    end
  end.

Definition _invoke_llm_with_retry (chain : nat -> str + str)
    (max_retries : nat) : RetryRun :=
  retry_loop chain max_retries max_retries 0 None [].

(** ** Matching behind a prefix *)

(** Patterns that never look at the text before the cursor. *)
Fixpoint forward_only (r : regex) : bool :=
  match r with
  | Eps | One _ | Rep _ _ _ | Eol | NotAhead _ => true
  | Cat r1 r2 | Alt r1 r2 => forward_only r1 && forward_only r2
  | Group _ r1 => forward_only r1
  | Bol | WordB | NotBehind _ => false
  end.

(** The state of a match when the text [d] (reversed) stands in front of
    the string. *)
Definition shift (d : str) (st : mstate) : mstate :=
  MState (before st ++ d) (after st) (groups st).

(** The patterns the rules of the restricted commands search for. *)
Definition RULE_PATTERNS : list regex := [
  sleep_re;
  seq [lit "system"; star sp; lit "("];
  seq [lit "print"; star sp; lit ">"];
  seq [lit "getline"; star sp; lit "<"]
].

(** ** domains.py: the loop of [extract_facts]

    One turn of the loop reads one record, appends at most one section to
    [raw_outputs] and appends to [facts] the lines of the blocks below, in
    the order of the source.  The arguments [entities] and [query] are
    not read.  Where the source takes [cmd.split()[-1]] the command starts
    with a word, so that the list is not empty. *)

Section Facts.
Context {U : UCD}.

(** The truth value of a string. *)
Definition nonempty (s : str) : bool :=
  match s with [] => false | _ => true end.

(** The line boundaries of [str.splitlines]. *)
Definition line_break (c : N) : bool :=
  ((0x0A <=? c) && (c <=? 0x0D)) || ((0x1C <=? c) && (c <=? 0x1E))
  || (c =? 0x85) || (c =? 0x2028) || (c =? 0x2029).

(** [s.splitlines()]: [cr] tells that the last character was a carriage
    return, which takes a line feed after it into the same boundary. *)
Fixpoint splitlines_go (cr : bool) (acc : str) (s : str) : list str :=
  match s with
  | [] => match acc with [] => [] | _ => [rev acc] end
  | c :: s' =>
    if cr && (c =? NL) then splitlines_go false acc s'
    else if line_break c then rev acc :: splitlines_go (c =? CR) [] s'
    else splitlines_go false (c :: acc) s'
  end.

Definition splitlines (s : str) : list str := splitlines_go false [] s.

(** [len(l)] as an f-string shows it. *)
Definition count (l : list str) : str := str_of_Z (Z.of_nat (length l)).

Definition port_re : regex :=                      (* sport\s*=\s*:(\d+) *)
  seq [lit "sport"; star sp; lit "="; star sp; lit ":"; Group 1 (plus ADigit)].

(** [users:\(\(Q([^Q]+)Q,pid=(\d+)], with the double quote for [Q]. *)
Definition users_re : regex :=
  seq [lit "users:(("; One (ALit DQUOTE);
       Group 1 (plus (ASet true [CChar DQUOTE])); One (ALit DQUOTE);
       lit ",pid="; Group 2 (plus ADigit)].

Definition raw_output (res : ProbeResult) : list str :=
  let cmd := cmd res in
  let out := stdout res in
  let err := stderr res in
  let rc := rc res in
  if nonempty (strip out)
  then [py "$ " ++ cmd ++ [NL] ++ firstn 1000 out]
  else if nonempty (strip err) && negb (Z.eqb rc 0)
  then [py "$ " ++ cmd ++ [NL] ++ py "[ERROR] " ++ firstn 500 err]
  else [].

Definition file_info (line : str) : list str :=
  if startswith line (py "-") || startswith line (py "d")
  then
    let parts := split_ws line in
    if Nat.leb 9 (length parts)
    then [py "FILE_INFO: " ++ nth 8 parts [] ++ py " (perm=" ++ nth 0 parts []
          ++ py ", size=" ++ nth 4 parts [] ++ py ", owner=" ++ nth 2 parts []
          ++ py ")"]
    else []
  else [].

Definition file_facts (cmd out : str) (rc : Z) : list str :=
  (if startswith cmd (py "ls -")
   then
     if Z.eqb rc 0 && nonempty (strip out)
     then (py "FILE_EXISTS: " ++ last_str (split_ws cmd))
          :: flat_map file_info (splitlines out)
     else if negb (Z.eqb rc 0)
     then [py "FILE_NOT_FOUND: " ++ last_str (split_ws cmd)]
     else []
   else [])
  ++
  (if startswith cmd (py "find ") && Z.eqb rc 0
   then
     let paths :=
       map strip
         (filter (fun l => nonempty (strip l)
                           && negb (contains l (py "__pycache__")))
            (splitlines out)) in
     match paths with
     | [] => []
     | _ => [py "FOUND_FILES: " ++ join (py ", ") (firstn 10 paths)]
     end
   else []).

Definition process_facts (cmd out : str) (rc : Z) : list str :=
  (if startswith cmd (py "ps ") || contains cmd (py "pgrep")
   then
     if Z.eqb rc 0 && nonempty (strip out)
     then
       let lines := filter (fun l => nonempty (strip l)) (splitlines out) in
       match lines with
       | [] => []
       | _ =>
         (py "PROCESS_FOUND: " ++ count lines ++ py " matches")
         :: map (fun line => py "  PROC: " ++ firstn 200 line) (firstn 5 lines)
       end
     else []
   else [])
  ++
  (if contains cmd (py "top") || startswith cmd (py "free")
   then
     if Z.eqb rc 0 && nonempty (strip out)
     then [py "RESOURCE_INFO: " ++ firstn 300 out]
     else []
   else []).

Definition network_facts (cmd out : str) : list str :=
  if startswith cmd (py "ss ") && contains cmd (py "sport")
  then
    match re_search port_re cmd with
    | Some port =>
      let port_num := group 1 port in
      if nonempty (strip out)
      then
        (py "PORT_" ++ port_num ++ py "_LISTENING: yes")
        :: match re_search users_re out with
           | Some m =>
             [py "PORT_" ++ port_num ++ py "_PROCESS: " ++ group 1 m
              ++ py " (PID=" ++ group 2 m ++ py ")"]
           | None => []
           end
      else [py "PORT_" ++ port_num ++ py "_LISTENING: no"]
    | None => []
    end
  else [].

Definition service_facts (cmd out : str) (rc : Z) : list str :=
  (if contains cmd (py "systemctl status")
   then
     if contains out (py "Active: active (running)")
     then [py "SERVICE_STATUS: running"]
     else if contains out (py "Active: inactive")
     then [py "SERVICE_STATUS: inactive"]
     else if contains out (py "Active: failed")
     then [py "SERVICE_STATUS: failed"]
     else []
   else [])
  ++
  (if contains cmd (py "journalctl") && Z.eqb rc 0
   then
     let error_lines :=
       filter (fun l => contains (lower l) (py "error")
                        || contains (lower l) (py "fail"))
         (splitlines out) in
     match error_lines with
     | [] => []
     | _ =>
       [py "LOG_ERRORS: " ++ count error_lines ++ py " error entries found";
        py "  LAST_ERROR: " ++ firstn 200 (last_str error_lines)]
     end
   else []).

Definition container_facts (cmd out : str) (rc : Z) : list str :=
  if contains cmd (py "docker ps") && Z.eqb rc 0
  then
    let lines :=
      filter (fun l => nonempty (strip l)
                       && negb (startswith l (py "CONTAINER")))
        (splitlines out) in
    match lines with
    | [] => [py "DOCKER_CONTAINERS: none running"]
    | _ =>
      (py "DOCKER_CONTAINERS: " ++ count lines ++ py " running")
      :: map (fun line => py "  CONTAINER: " ++ firstn 150 line)
           (firstn 5 lines)
    end
  else [].

Definition package_facts (cmd out : str) (rc : Z) : list str :=
  (if startswith cmd (py "dpkg -l") && Z.eqb rc 0 && contains out (py "ii")
   then [py "PACKAGE_INSTALLED: " ++ last_str (split_ws cmd) ++ py " (dpkg)"]
   else [])
  ++
  (if startswith cmd (py "which") || startswith cmd (py "command -v")
   then
     if Z.eqb rc 0 && nonempty (strip out)
     then [py "TOOL_FOUND: " ++ strip out]
     else if negb (Z.eqb rc 0)
     then [py "TOOL_NOT_FOUND: " ++ last_str (split_ws cmd)]
     else []
   else []).

Definition system_facts (cmd out : str) (rc : Z) : list str :=
  (if startswith cmd (py "uname") && Z.eqb rc 0
   then [py "SYSTEM_INFO: " ++ strip out] else [])
  ++ (if startswith cmd (py "df") && Z.eqb rc 0
      then [py "DISK_USAGE:" ++ [NL] ++ firstn 500 out] else [])
  ++ (if startswith cmd (py "lsblk") && Z.eqb rc 0
      then [py "BLOCK_DEVICES:" ++ [NL] ++ firstn 500 out] else []).

(** What one record adds to [facts]. *)
Definition facts_of (res : ProbeResult) : list str :=
  let cmd := cmd res in
  let out := stdout res in
  let rc := rc res in
  file_facts cmd out rc ++ process_facts cmd out rc ++ network_facts cmd out
    ++ service_facts cmd out rc ++ container_facts cmd out rc
    ++ package_facts cmd out rc ++ system_facts cmd out rc.

(** The loop of [extract_facts]: the lists [facts] and [raw_outputs]. *)
Definition scan_loop (results : list ProbeResult) (entities : dict)
    (query : str) : list str * list str :=
  fold_left
    (fun acc res => (fst acc ++ facts_of res, snd acc ++ raw_output res))
    results ([], []).

End Facts.

(** The world [offline_world] with the loop of [extract_facts] as the
    source has it. *)
Definition scanning_world : World := {|
  invoke_intent := fun _ => inr (py "connection refused");
  invoke_generate := fun _ => inr (py "connection refused");
  json_loads := fun _ => inr (py "Expecting value");
  extract_entities_from_query := fun _ => [];
  kb_search := fun _ => None;
  get_system_context := py "Linux";
  subprocess_run := fun _ _ => Completed [] (py "command not found") 127;
  scan_results := scan_loop (U := ucd_plain)
|}.

(* ================================================================== *)
(** * 9. Strings: basic facts *)
(* ================================================================== *)

Lemma str_eqb_eq (a b : str) : str_eqb a b = true <-> a = b.
Proof.
  revert b; induction a as [|x a IH]; intros [|y b]; simpl; split;
    try congruence; try reflexivity.
  - intros H; apply andb_true_iff in H as [H1 H2].
    apply N.eqb_eq in H1; apply IH in H2; congruence.
  - intros H; injection H as -> ->.
    rewrite N.eqb_refl; simpl; now apply IH.
Qed.

Lemma str_eqb_refl (a : str) : str_eqb a a = true.
Proof. now apply str_eqb_eq. Qed.

Lemma str_in_In (x : str) (l : list str) : str_in x l = true <-> In x l.
Proof.
  unfold str_in; rewrite existsb_exists; split.
  - intros (y & Hy & E); apply str_eqb_eq in E; now subst.
  - intros H; exists x; split; [assumption | apply str_eqb_refl].
Qed.

Lemma startswith_iff (s p : str) :
  startswith s p = true <-> exists r, s = p ++ r.
Proof.
  revert s; induction p as [|a p IH]; intros [|b s]; simpl.
  - split; [intros _; now exists [] | reflexivity].
  - split; [intros _; now exists (b :: s) | reflexivity].
  - split; [discriminate | intros (r & H); discriminate].
  - rewrite andb_true_iff, N.eqb_eq, IH; split.
    + intros (-> & r & ->); now exists r.
    + intros (r & H); injection H as -> ->; split; [reflexivity | now exists r].
Qed.

Lemma contains_nil (p : str) : contains [] p = startswith [] p.
Proof. destruct p; reflexivity. Qed.

Lemma contains_cons (c : N) (s p : str) :
  contains (c :: s) p = startswith (c :: s) p || contains s p.
Proof. reflexivity. Qed.

Lemma contains_iff (s p : str) :
  contains s p = true <-> exists a b, s = a ++ p ++ b.
Proof.
  induction s as [|c s IH].
  - rewrite contains_nil, startswith_iff; split.
    + intros (r & H); now exists [], r.
    + intros (a & b & H); destruct a; simpl in H.
      * now exists b.
      * discriminate.
  - rewrite contains_cons, orb_true_iff, startswith_iff, IH; split.
    + intros [(r & H) | (a & b & H)].
      * now exists [], r.
      * exists (c :: a), b; simpl; now rewrite H.
    + intros (a & b & H); destruct a as [|x a]; simpl in H.
      * left; now exists b.
      * right; injection H as -> ->; now exists a, b.
Qed.

Lemma existsb_same (A : Type) (f : A -> bool) (l l' : list A) :
  (forall x, In x l <-> In x l') -> existsb f l = existsb f l'.
Proof.
  intros H; apply eq_true_iff_eq; rewrite !existsb_exists; split;
    intros (x & Hx & Hf); exists x; split; try assumption; now apply H.
Qed.

(** ** White space at the ends *)

Lemma lstrip_app (u v : str) :
  lstrip (u ++ v) = if blank u then lstrip v else lstrip u ++ v.
Proof.
  induction u as [|c u IH]; simpl; [reflexivity|].
  destruct (isspace c); simpl; [assumption | reflexivity].
Qed.

Lemma lstrip_blank (u : str) : blank u = true -> lstrip u = [].
Proof.
  induction u as [|c u IH]; simpl; [reflexivity|].
  destruct (isspace c); simpl; [assumption | discriminate].
Qed.

Lemma blank_rev (u : str) : blank (rev u) = blank u.
Proof.
  unfold blank; induction u as [|c u IH]; simpl; [reflexivity|].
  rewrite forallb_app, IH; simpl; rewrite andb_true_r; apply andb_comm.
Qed.

(** A character that is not white space shields what stands before it. *)
Lemma rstrip_keep (a b : str) (x : N) :
  isspace x = false -> rstrip (a ++ x :: b) = a ++ x :: rstrip b.
Proof.
  intros Hx; unfold rstrip.
  rewrite rev_app_distr; simpl; rewrite <- app_assoc; simpl.
  rewrite lstrip_app.
  destruct (blank (rev b)) eqn:Hb.
  - rewrite (lstrip_blank _ Hb); simpl; rewrite Hx; simpl.
    now rewrite rev_involutive.
  - rewrite rev_app_distr; simpl; now rewrite rev_involutive, <- app_assoc.
Qed.

Lemma lstrip_keep (x : N) (s : str) : isspace x = false -> lstrip (x :: s) = x :: s.
Proof. intros H; simpl; now rewrite H. Qed.

Lemma strip_keep (x y : N) (a b : str) :
  isspace x = false -> isspace y = false ->
  strip (x :: a ++ y :: b) = x :: a ++ y :: rstrip b.
Proof.
  intros Hx Hy; unfold strip; rewrite lstrip_keep by assumption.
  exact (rstrip_keep (x :: a) b y Hy).
Qed.

(* ================================================================== *)
(** * 10. The gate does not depend on the order of its sets *)
(* ================================================================== *)

Section GateOrder.
Context {U : UCD}.

(** ** The first word of a fragment *)

Lemma split_ws_go_word (w acc r : str) (c : N) :
  solid w = true -> isspace c = true -> rev w ++ acc <> [] ->
  split_ws_go acc (w ++ c :: r) = rev (rev w ++ acc) :: split_ws_go [] r.
Proof.
  revert acc; induction w as [|x w IH]; intros acc Hw Hc Hne; simpl in *.
  - rewrite Hc; destruct acc; [congruence | reflexivity].
  - apply andb_true_iff in Hw as [Hx Hw].
    apply negb_true_iff in Hx; rewrite Hx.
    rewrite IH; try assumption.
    + rewrite <- app_assoc; reflexivity.
    + now destruct (rev w).
Qed.

Lemma sudo_prefix (w r : str) :
  solid w = true -> startswith (w ++ 32 :: r) (py "sudo ") = true ->
  w = py "sudo".
Proof.
  intros Hw H.
  change (py "sudo ") with [115; 117; 100; 111; 32] in H.
  change (py "sudo") with [115; 117; 100; 111].
  destruct w as [|a [|b [|c [|d [|e w]]]]]; cbn [startswith app] in H;
    cbn [solid forallb] in Hw;
    repeat match type of H with
           | (_ =? _) && _ = true =>
             let E := fresh "E" in
             apply andb_true_iff in H as [E H]; apply N.eqb_eq in E;
             try subst
           end;
    try discriminate; try reflexivity.
Qed.

(** A fragment that begins with a word [w], a space and one more
    character has [w] as its base command. *)
Lemma base_of_first_word (w t : str) (x : N) :
  w <> [] -> solid w = true -> isspace x = false ->
  contains w (py "/") = false -> str_eqb w (py "sudo") = false ->
  _get_base_command (w ++ 32 :: x :: t) = w.
Proof.
  intros Hne Hw Hx Hslash Hsudo; unfold _get_base_command.
  destruct w as [|c w]; [congruence|]; simpl in Hw.
  apply andb_true_iff in Hw as [Hc Hw]; apply negb_true_iff in Hc.
  assert (E : (c :: w) ++ 32 :: x :: t = c :: (w ++ [32]) ++ x :: t)
    by (simpl; now rewrite <- app_assoc).
  rewrite E, strip_keep by assumption.
  assert (E' : c :: (w ++ [32]) ++ x :: rstrip t
               = (c :: w) ++ 32 :: x :: rstrip t)
    by (simpl; now rewrite <- app_assoc).
  rewrite E'.
  destruct (startswith ((c :: w) ++ 32 :: x :: rstrip t) (py "sudo ")) eqn:Hs.
  - apply (sudo_prefix (c :: w)) in Hs.
    + rewrite Hs in Hsudo; discriminate.
    + simpl; now rewrite Hc, Hw.
  - unfold split_ws.
    rewrite (split_ws_go_word (c :: w) [] (x :: rstrip t) 32).
    + rewrite app_nil_r, rev_involutive, Hslash; reflexivity.
    + simpl; now rewrite Hc, Hw.
    + reflexivity.
    + rewrite app_nil_r; simpl; now destruct (rev w).
Qed.

(** ** The multi-word entries of the allow list *)

Lemma break_word_spec (s : str) :
  s = fst (break_word s) ++ snd (break_word s)
  /\ solid (fst (break_word s)) = true.
Proof.
  induction s as [|c s [IH1 IH2]]; simpl; [now split|].
  destruct (isspace c) eqn:Hc; simpl; [now split|].
  destruct (break_word s) as [w r]; simpl in *; split.
  - now rewrite <- IH1.
  - now rewrite Hc, IH2.
Qed.

Lemma allow_list_plain : forallb plain_prefix UNCONDITIONAL_ALLOW = true.
Proof. vm_compute; reflexivity. Qed.

(** An entry with a space never decides a restricted command. *)
Lemma multi_word_not_restricted (sub e : str) :
  In e UNCONDITIONAL_ALLOW -> contains e SPACE = true ->
  str_eqb sub e || startswith sub (e ++ SPACE) = true ->
  lookup (_get_base_command sub) RESTRICTED_COMMANDS = None.
Proof.
  intros Hin Hsp Hm.
  pose proof allow_list_plain as Hall.
  rewrite forallb_forall in Hall; specialize (Hall e Hin).
  unfold plain_prefix in Hall; rewrite Hsp in Hall.
  destruct (break_word_spec e) as [He Hw].
  destruct (break_word e) as [[|c w] [|s [|x t]]];
    cbv beta iota in Hall; try discriminate.
  simpl in He, Hw.
  apply andb_true_iff in Hall as [Hall H4].
  apply andb_true_iff in Hall as [Hall H3].
  apply andb_true_iff in Hall as [Hall H2].
  apply andb_true_iff in Hall as [H0 H1].
  apply N.eqb_eq in H0; subst s.
  apply negb_true_iff in H1, H2, H3, H4.
  assert (Hsub : exists r, sub = (c :: w) ++ 32 :: x :: r).
  { apply orb_true_iff in Hm as [Hm | Hm].
    - apply str_eqb_eq in Hm; subst sub; exists t; exact He.
    - apply startswith_iff in Hm as (r & ->); exists (t ++ SPACE ++ r).
      rewrite He; simpl; now rewrite <- !app_assoc. }
  destruct Hsub as (r & ->).
  rewrite base_of_first_word; try assumption; try discriminate.
  destruct (lookup (c :: w) RESTRICTED_COMMANDS); [discriminate | reflexivity].
Qed.

(** ** The allow loop *)

Lemma allow_loop_cons (e : str) (l : list str) (sub original_sub base_cmd : str) :
  allow_loop (e :: l) sub original_sub base_cmd
  = if contains e SPACE
    then (if str_eqb sub e || startswith sub (e ++ SPACE) then true
          else allow_loop l sub original_sub base_cmd)
    else if str_eqb base_cmd e then restricted_ok original_sub base_cmd
    else allow_loop l sub original_sub base_cmd.
Proof.
  unfold restricted_ok; cbn [allow_loop].
  destruct (contains e SPACE); [reflexivity|].
  destruct (str_eqb base_cmd e); [|reflexivity].
  destruct (lookup base_cmd RESTRICTED_COMMANDS); [|reflexivity].
  now destruct (_check_restricted_command original_sub base_cmd).
Qed.

Lemma allow_loop_char (l : list str) (sub original_sub base_cmd : str) :
  (restricted_ok original_sub base_cmd = false ->
   forall e, In e l -> multi_hit sub e = false) ->
  allow_loop l sub original_sub base_cmd
  = existsb (multi_hit sub) l
    || (existsb (single_hit base_cmd) l
        && restricted_ok original_sub base_cmd).
Proof.
  induction l as [|e l IH]; intros Hv; [reflexivity|].
  rewrite allow_loop_cons; cbn [existsb]; unfold multi_hit at 1, single_hit at 1.
  destruct (contains e SPACE) eqn:Hsp; cbn [andb negb orb].
  - destruct (str_eqb sub e || startswith sub (e ++ SPACE)) eqn:Hm;
      cbn [andb negb orb].
    + reflexivity.
    + apply IH; intros Hr e' He'; apply Hv; [assumption | now right].
  - destruct (str_eqb base_cmd e) eqn:Hb; cbn [andb negb orb].
    + destruct (restricted_ok original_sub base_cmd) eqn:Hr.
      * now rewrite orb_true_r.
      * rewrite orb_false_r; symmetry.
        apply not_true_iff_false; intros Hex.
        apply existsb_exists in Hex as (e' & He' & Hex).
        rewrite (Hv eq_refl e') in Hex; [discriminate | now right].
    + apply IH; intros Hr e' He'; apply Hv; [assumption | now right].
Qed.

Lemma allowed_by_list_same (l : list str) (sub original_sub : str) :
  (forall x, In x l <-> In x UNCONDITIONAL_ALLOW) ->
  allowed_by_list l sub original_sub
  = allowed_by_list UNCONDITIONAL_ALLOW sub original_sub.
Proof.
  intros Hl; unfold allowed_by_list.
  destruct (_get_base_command sub) as [|b0 b] eqn:Hb; [reflexivity|].
  assert (Hnc : forall l', (forall x, In x l' -> In x UNCONDITIONAL_ALLOW) ->
            restricted_ok original_sub (b0 :: b) = false ->
            forall e, In e l' -> multi_hit sub e = false).
  { intros l' Hl' Hr e He; unfold multi_hit.
    destruct (contains e SPACE) eqn:Hsp; [|reflexivity]; simpl.
    apply not_true_iff_false; intros Hm.
    pose proof (multi_word_not_restricted sub (Hl' e He) Hsp Hm) as Hn.
    rewrite Hb in Hn; unfold restricted_ok in Hr; rewrite Hn in Hr.
    discriminate. }
  rewrite !allow_loop_char.
  - rewrite (existsb_same (multi_hit sub) _ _ Hl).
    now rewrite (existsb_same (single_hit (b0 :: b)) _ _ Hl).
  - apply Hnc; intros x Hx; exact Hx.
  - apply Hnc; intros x Hx; now apply Hl.
Qed.

Lemma is_allowed_same (l : list str) (sub : str) :
  (forall x, In x l <-> In x UNCONDITIONAL_ALLOW) ->
  _is_allowed_subcmd_in l sub = _is_allowed_subcmd_in UNCONDITIONAL_ALLOW sub.
Proof.
  intros Hl; unfold _is_allowed_subcmd_in.
  destruct (strip sub); [reflexivity|].
  rewrite !(allowed_by_list_same l _ _ Hl); reflexivity.
Qed.

Lemma subcmds_ok_same (l : list str) (parts : list str) (i : nat) :
  (forall x, In x l <-> In x UNCONDITIONAL_ALLOW) ->
  subcmds_ok l i parts = subcmds_ok UNCONDITIONAL_ALLOW i parts.
Proof.
  intros Hl; revert i; induction parts as [|p parts IH]; intros i;
    cbn [subcmds_ok]; [reflexivity|].
  destruct (strip p); [apply IH|].
  rewrite (is_allowed_same l _ Hl), IH; reflexivity.
Qed.

Lemma first_rejected_same (l : list str) (parts : list str) :
  (forall x, In x l <-> In x UNCONDITIONAL_ALLOW) ->
  first_rejected l parts = first_rejected UNCONDITIONAL_ALLOW parts.
Proof.
  intros Hl; induction parts as [|p parts IH]; cbn [first_rejected];
    [reflexivity|].
  destruct (strip p); [apply IH|].
  rewrite (is_allowed_same l _ Hl), IH; reflexivity.
Qed.

Lemma dangerous_same (l : list str) (c : str) :
  (forall x, In x l <-> In x DANGEROUS_COMMANDS) ->
  _check_dangerous_commands_in l c
  = _check_dangerous_commands_in DANGEROUS_COMMANDS c.
Proof.
  intros Hl; unfold _check_dangerous_commands_in.
  rewrite (existsb_same _ _ _ Hl); reflexivity.
Qed.

Context {O : SetOrder}.

(** The verdict of the gate is the one computed in the order of the
    source text. *)
Lemma is_safe_source_order (c : str) :
  is_safe_scout_cmd c
  = is_safe_scout_cmd_in UNCONDITIONAL_ALLOW DANGEROUS_COMMANDS c.
Proof.
  unfold is_safe_scout_cmd, is_safe_scout_cmd_in.
  destruct (strip c); [reflexivity|].
  rewrite (dangerous_same _ _ deny_order_ok).
  rewrite (subcmds_ok_same _ _ _ allow_order_ok); reflexivity.
Qed.

Lemma is_allowed_source_order (sub : str) :
  _is_allowed_subcmd sub = _is_allowed_subcmd_in UNCONDITIONAL_ALLOW sub.
Proof. apply is_allowed_same, allow_order_ok. Qed.

Lemma dangerous_source_order (c : str) :
  _check_dangerous_commands c
  = _check_dangerous_commands_in DANGEROUS_COMMANDS c.
Proof. apply dangerous_same, deny_order_ok. Qed.

(** ** The reason *)

Lemma first_dangerous_none (l : list str) (cl : str) :
  first_dangerous l cl = None <-> existsb (dangerous_hit cl) l = false.
Proof.
  induction l as [|d l IH]; cbn [first_dangerous existsb]; [tauto|].
  destruct (dangerous_hit cl d); cbn [orb]; [split; discriminate | exact IH].
Qed.



Lemma first_dangerous_nohit (cl : str) :
  existsb (dangerous_hit cl) DANGEROUS_COMMANDS = false ->
  first_dangerous deny_order cl = None.
Proof.
  intros H; apply first_dangerous_none.
  rewrite (existsb_same _ _ _ deny_order_ok); exact H.
Qed.

End GateOrder.

(* ================================================================== *)
(** * 11. The gate on concrete fragments *)
(* ================================================================== *)

Section GateFacts.
Context {U : UCD} {O : SetOrder}.

(** [get_safety_reason] step by step, for a fragment whose stripped text
    is known. *)
Lemma reason_steps (c s : str) (r : option str) :
  strip c = s -> s <> [] ->
  first_pattern DANGEROUS_PATTERNS s = None ->
  first_dangerous deny_order (lower s) = r ->
  get_safety_reason c
  = match r with
    | Some dangerous => Some (py "包含危险命令: " ++ dangerous)
    | None =>
      match first_rejected UNCONDITIONAL_ALLOW (re_split split_re s) with
      | Some base => Some (py "命令不在白名单中: " ++ base)
      | None => None
      end
    end.
Proof.
  intros Hs Hne Hp Hd.
  unfold get_safety_reason, get_safety_reason_in; rewrite Hs.
  destruct s as [|x s]; [congruence|].
  rewrite Hp, Hd; destruct r; [reflexivity|].
  rewrite (first_rejected_same _ _ allow_order_ok); reflexivity.
Qed.



End GateFacts.

(* ================================================================== *)
(** * 12. The executor *)
(* ================================================================== *)

Section Executor.
Context {U : UCD} {O : SetOrder} {W : World}.

Lemma exec_loop_cons (c : str) (cmds : list str) (st : ExecState) :
  exec_loop (c :: cmds) st = exec_loop cmds (exec_step st c).
Proof. reflexivity. Qed.

(** One turn of the loop adds one record, for the command at hand. *)
Lemma exec_step_spec (st : ExecState) (c : str) :
  exists r,
    exec_results (exec_step st c) = exec_results st ++ [r]
    /\ cmd r = c
    /\ (is_safe_scout_cmd c = false ->
        r = blocked c /\ spawned (exec_step st c) = spawned st
        /\ failed_count (exec_step st c) = failed_count st)
    /\ (is_safe_scout_cmd c = true ->
        spawned (exec_step st c) = spawned st ++ [c]
        /\ failed_count (exec_step st c)
           = (failed_count st + if Z.eqb (rc r) 0 then 0 else 1)%nat).
Proof.
  unfold exec_step.
  destruct (is_safe_scout_cmd c) eqn:Hs; cbn [negb].
  - destruct (subprocess_run (spawned st) c) as [out err code| |msg].
    + exists (mkProbe c out err code); cbn.
      repeat split; try discriminate.
      destruct (Z.eqb code 0); cbn; lia.
    + exists (mkProbe c [] (py "TIMEOUT") 124); cbn.
      repeat split; try discriminate; lia.
    + exists (mkProbe c [] msg 1); cbn.
      repeat split; try discriminate; lia.
  - exists (blocked c); cbn; repeat split; discriminate.
Qed.

Lemma run_failed_count (r : ProbeResult) :
  length (filter run_failed [r])
  = if is_safe_scout_cmd (cmd r) then (if Z.eqb (rc r) 0 then 0 else 1)%nat
    else 0%nat.
Proof.
  cbn [filter]; unfold run_failed.
  destruct (is_safe_scout_cmd (cmd r)); [|reflexivity].
  destruct (Z.eqb (rc r) 0); reflexivity.
Qed.

(** The loop as a whole. *)
Lemma exec_loop_spec (cmds : list str) (st : ExecState) :
  exists rs,
    exec_results (exec_loop cmds st) = exec_results st ++ rs
    /\ Forall2 (fun c r => cmd r = c
                           /\ (is_safe_scout_cmd c = false -> r = blocked c))
         cmds rs
    /\ spawned (exec_loop cmds st)
       = spawned st ++ filter is_safe_scout_cmd cmds
    /\ failed_count (exec_loop cmds st)
       = (failed_count st + length (filter run_failed rs))%nat.
Proof.
  revert st; induction cmds as [|c cmds IH]; intros st.
  - exists []; cbn; rewrite !app_nil_r; repeat split; [constructor | lia].
  - rewrite exec_loop_cons.
    destruct (exec_step_spec st c) as (r & Hr & Hc & Hb & Hs).
    destruct (IH (exec_step st c)) as (rs & H1 & H2 & H3 & H4).
    exists (r :: rs); split; [|split; [|split]].
    + rewrite H1, Hr, <- app_assoc; reflexivity.
    + constructor; [split; [assumption | intros E; apply Hb; assumption]
                   | assumption].
    + rewrite H3; cbn [filter].
      destruct (is_safe_scout_cmd c) eqn:E.
      * destruct (Hs eq_refl) as [-> _]; rewrite <- app_assoc; reflexivity.
      * destruct (Hb eq_refl) as (_ & -> & _); reflexivity.
    + rewrite H4.
      change (r :: rs) with ([r] ++ rs).
      rewrite filter_app, length_app, run_failed_count, Hc.
      destruct (is_safe_scout_cmd c) eqn:E.
      * destruct (Hs eq_refl) as [_ ->]; lia.
      * destruct (Hb eq_refl) as (_ & _ & ->); lia.
Qed.

Lemma exec_loop_start (cmds : list str) :
  let st := exec_loop cmds exec_start in
  Forall2 (fun c r => cmd r = c
                      /\ (is_safe_scout_cmd c = false -> r = blocked c))
    cmds (exec_results st)
  /\ spawned st = filter is_safe_scout_cmd cmds
  /\ failed_count st = length (filter run_failed (exec_results st)).
Proof.
  destruct (exec_loop_spec cmds exec_start) as (rs & H1 & H2 & H3 & H4).
  cbn in H1, H3, H4; cbv zeta; rewrite H1, H3, H4; auto.
Qed.

End Executor.

(* ================================================================== *)
(** * 13. [scout_node] *)
(* ================================================================== *)

Section Scout.
Context {U : UCD} {O : SetOrder} {W : World}.

Lemma Ok_inj (A : Type) (a b : A) : Ok a = Ok b -> a = b.
Proof. intros H; injection H as H; exact H. Qed.

(** The planner never returns more than twenty probes. *)
Lemma planner_cap (domains : list str) (entities : dict) (q0 : str)
    (cx : TaskComplexity) (cmds : list str) :
  get_scout_commands domains entities q0 cx = Ok cmds ->
  (length cmds <= 20)%nat.
Proof.
  unfold get_scout_commands.
  destruct cx;
    [ intros H; injection H as <-; cbn; lia | | | ];
    (destruct (collect domains entities q0 _) as [cmd_set|e]; cbn [bind];
     intros H; [|discriminate H]; apply Ok_inj in H; rewrite <- H;
     etransitivity; [apply firstn_le_length | cbn; lia]).
Qed.

Lemma planned_cap (state : AgentState) (cmds : list str) :
  planned_probes state = Ok cmds -> (length cmds <= 20)%nat.
Proof.
  unfold planned_probes.
  destruct (should_skip_scout state).
  - intros H; injection H as <-; cbn; lia.
  - destruct (intent state) as [i|]; cbn [bind]; [|discriminate].
    destruct (match complexity state with
              | Some v => match number v with
                          | Some z => TaskComplexity_of z
                          | None => Raise ValueError
                          end
              | None => Ok MODERATE
              end) as [cx|e]; cbn [bind]; [|discriminate].
    apply planner_cap.
Qed.

Lemma warning_not_empty : WARNING <> [].
Proof. vm_compute; discriminate. Qed.

Lemma facts_not_warning (results : list ProbeResult) (entities : dict)
    (q0 : str) :
  startswith (extract_facts results entities q0) WARNING = false.
Proof.
  unfold extract_facts.
  destruct (scan_results results entities q0) as [facts raw_outputs].
  reflexivity.
Qed.

(** What [scout_node] returns, in terms of its probe list and loop. *)
Lemma scout_node_spec (state state' : AgentState) (sp : list str) :
  scout_node state = Ok (state', sp) ->
  exists cmds info,
    planned_probes state = Ok cmds
    /\ sp = spawned (exec_loop cmds exec_start)
    /\ scout_info state' = Some info
    /\ (startswith info WARNING = true
        <-> most_failed (failed_count (exec_loop cmds exec_start))
              (length cmds) = true).
Proof.
  unfold scout_node, planned_probes, should_skip_scout.
  destruct (match complexity state with
            | Some v => match number v with
                        | Some z => Z.eqb z (complexity_value TRIVIAL)
                        | None => false
                        end
            | None => false
            end) eqn:Ht.
  - intros H; injection H as <- <-.
    exists [], (py "[TRIVIAL TASK - No scout needed]").
    assert (E : match complexity state with
                | Some v => match number v with
                            | Some z =>
                              if Z.eqb z (complexity_value TRIVIAL)
                              then generate else scout
                            | None => scout
                            end
                | None => scout
                end = generate).
    { destruct (complexity state) as [v|]; [|discriminate Ht].
      destruct (number v) as [z|]; [|discriminate Ht].
      rewrite Ht; reflexivity. }
    rewrite E; repeat split; try reflexivity;
      intros H; vm_compute in H; discriminate H.
  - assert (E : match complexity state with
                | Some v => match number v with
                            | Some z =>
                              if Z.eqb z (complexity_value TRIVIAL)
                              then generate else scout
                            | None => scout
                            end
                | None => scout
                end = scout).
    { destruct (complexity state) as [v|]; [|reflexivity].
      destruct (number v) as [z|]; [|reflexivity].
      rewrite Ht; reflexivity. }
    rewrite E; clear E Ht.
    destruct (intent state) as [i|]; cbn [bind]; [|discriminate].
    destruct (match complexity state with
              | Some v => match number v with
                          | Some z => TaskComplexity_of z
                          | None => Raise ValueError
                          end
              | None => Ok MODERATE
              end) as [cx|e]; cbn [bind]; [|discriminate].
    destruct (get_scout_commands (i_domains i) (i_entities i) (query state) cx)
      as [cmds|e]; cbn [bind]; [|discriminate].
    destruct cmds as [|c cmds].
    + intros H; injection H as <- <-.
      exists [], (py "[No scout commands generated]").
      repeat split; try reflexivity;
        intros H; vm_compute in H; discriminate H.
    + intros H; apply Ok_inj in H.
      fold exec_start in H.
      set (st := exec_loop (c :: cmds) exec_start) in *.
      set (facts := extract_facts (exec_results st) (i_entities i)
                      (query state)) in *.
      assert (H1 := f_equal fst H); assert (H2 := f_equal snd H).
      cbn [fst snd] in H1, H2; clear H; subst state' sp.
      exists (c :: cmds).
      destruct (most_failed (failed_count st) (length (c :: cmds))) eqn:Hm.
      * exists (WARNING ++ [NL; NL] ++ facts).
        split; [reflexivity|]; split; [reflexivity|]; split.
        -- cbn [set_scout_info scout_info].
           destruct WARNING eqn:Hw; [exfalso; now apply warning_not_empty|].
           reflexivity.
        -- split; [intros _; exact Hm|intros _].
           apply startswith_iff; eexists; reflexivity.
      * exists facts.
        split; [reflexivity|]; split; [reflexivity|]; split.
        -- cbn [set_scout_info scout_info].
           reflexivity.
        -- split.
           ++ intros H; unfold facts in H; rewrite facts_not_warning in H.
              discriminate H.
           ++ intros H; exfalso; exact (eq_true_false_abs _ H Hm).
Qed.

End Scout.

(* ================================================================== *)
(** * 14. The probes that are run, and the warning *)
(* ================================================================== *)

(** C1, counterexample: with no entity at all, the third probe the planner
    returns for the domain [log] is rejected by the gate (it redirects to
    [/dev/null]). *)
Lemma planner_probe_rejected :
  get_scout_commands (U := ucd_plain) [py "log"] [] (py "show recent errors")
    SIMPLE
  = Ok [py "journalctl -p err -n 30 --no-pager";
        py "dmesg | tail -30";
        py "ls -lt /var/log/*.log 2>/dev/null | head -10"]
  /\ is_safe_scout_cmd (U := ucd_plain) (O := source_order)
       (py "ls -lt /var/log/*.log 2>/dev/null | head -10") = false.
Proof. split; vm_compute; reflexivity. Qed.

(** The rejection above does not depend on the character database or on
    the order of the sets. *)
Lemma planner_probe_rejected_everywhere (U : UCD) (O : SetOrder) :
  is_safe_scout_cmd (py "ls -lt /var/log/*.log 2>/dev/null | head -10")
  = false.
Proof. rewrite is_safe_source_order; vm_compute; reflexivity. Qed.

(** C1, amended: the probes [scout_node] hands to the shell are exactly
    the probes of the planner that pass the gate, in the planner's order;
    so every probe that is run is one of the planner's and has passed the
    gate. *)
Theorem spawned_probes_pass_gate (U : UCD) (O : SetOrder) (W : World)
    (state state' : AgentState) (sp : list str) :
  scout_node state = Ok (state', sp) ->
  exists cmds,
    planned_probes state = Ok cmds
    /\ sp = filter is_safe_scout_cmd cmds
    /\ forall p, In p sp -> In p cmds /\ is_safe_scout_cmd p = true.
Proof.
  intros H; apply scout_node_spec in H as (cmds & info & Hp & Hs & _).
  exists cmds; split; [assumption|].
  destruct (exec_loop_start cmds) as (_ & Hsp & _).
  assert (E : sp = filter is_safe_scout_cmd cmds) by (rewrite Hs; exact Hsp).
  split; [assumption|].
  intros p Hin; rewrite E in Hin; apply filter_In in Hin; exact Hin.
Qed.

Lemma spawned_probes_pass_gate_witness :
  exists state' sp,
    scout_node (U := ucd_plain) (O := source_order) (W := offline_world)
      log_state = Ok (state', sp)
    /\ exists cmds,
         planned_probes (U := ucd_plain) log_state
         = Ok cmds
         /\ sp = filter (is_safe_scout_cmd (U := ucd_plain) (O := source_order))
                   cmds
         /\ forall p, In p sp ->
              In p cmds
              /\ is_safe_scout_cmd (U := ucd_plain) (O := source_order) p = true.
Proof.
  eexists; eexists; split.
  - vm_compute; reflexivity.
  - eapply (@spawned_probes_pass_gate ucd_plain source_order offline_world).
    vm_compute; reflexivity.
Defined.


(** ** The threshold of the warning *)

(** Up to the planner's cap, the binary64 comparison decides
    [failed > 0.7 * len] exactly. *)
Lemma most_failed_exact (f m : nat) :
  (m <= 20)%nat -> (f <= m)%nat ->
  most_failed f m = Nat.ltb (7 * m) (10 * f).
Proof.
  intros Hm Hf.
  assert (H : forallb threshold_agrees (List.seq 0 21) = true)
    by (vm_compute; reflexivity).
  rewrite forallb_forall in H.
  assert (Hin : In m (List.seq 0 21)) by (apply in_seq; lia).
  specialize (H m Hin); unfold threshold_agrees in H.
  rewrite forallb_forall in H.
  assert (Hin' : In f (List.seq 0 (S m))) by (apply in_seq; lia).
  specialize (H f Hin'); apply eqb_prop in H; exact H.
Qed.

(** C7, counterexample: every probe ends with a status other than 0 (two
    exit with 127, the third is rejected with 126), yet the facts carry no
    warning: the rejected probe is not counted among the failed ones. *)
Lemma all_probes_fail_without_warning :
  planned_probes (U := ucd_plain) log_state
  = Ok [py "journalctl -p err -n 30 --no-pager";
        py "dmesg | tail -30";
        py "ls -lt /var/log/*.log 2>/dev/null | head -10"]
  /\ map rc
       (exec_results
          (exec_loop (U := ucd_plain) (O := source_order) (W := offline_world)
             [py "journalctl -p err -n 30 --no-pager";
              py "dmesg | tail -30";
              py "ls -lt /var/log/*.log 2>/dev/null | head -10"]
             exec_start))
     = [127; 127; 126]%Z
  /\ match scout_node (U := ucd_plain) (O := source_order)
             (W := offline_world) log_state with
     | Ok (state', _) =>
       option_map (fun info => startswith info WARNING) (scout_info state')
     | Raise _ => None
     end = Some false.
Proof. split; [|split]; vm_compute; reflexivity. Qed.

(** C7, amended: the facts of [scout_node] begin with the warning exactly
    when more than 70% of the planned probes were run and did not end with
    status 0 (probes that timed out or could not be spawned included);
    probes the gate rejected count in the total only. *)
Theorem warning_iff_most_run_probes_failed (U : UCD) (O : SetOrder)
    (W : World) (state state' : AgentState) (sp : list str) :
  scout_node state = Ok (state', sp) ->
  exists cmds info,
    planned_probes state = Ok cmds
    /\ scout_info state' = Some info
    /\ (startswith info WARNING = true
        <-> (7 * length cmds
             < 10 * length (filter run_failed
                              (exec_results (exec_loop cmds exec_start))))%nat).
Proof.
  intros H; apply scout_node_spec in H as (cmds & info & Hp & _ & Hi & Hw).
  exists cmds, info; split; [assumption|]; split; [assumption|].
  destruct (exec_loop_start cmds) as (Hr & _ & Hf).
  rewrite Hw, Hf, most_failed_exact.
  - apply Nat.ltb_lt.
  - eapply planned_cap; eassumption.
  - rewrite (Forall2_length Hr).
    set (rs := exec_results (exec_loop cmds exec_start)).
    clearbody rs; clear; induction rs as [|r rs IH]; cbn [filter length];
      [lia|].
    destruct (run_failed r); cbn [length]; lia.
Qed.

Lemma warning_iff_most_run_probes_failed_witness :
  exists state' sp cmds info,
    scout_node (U := ucd_plain) (O := source_order) (W := offline_world)
      log_state = Ok (state', sp)
    /\ planned_probes (U := ucd_plain) log_state
       = Ok cmds
    /\ scout_info state' = Some info
    /\ (startswith info WARNING = true
        <-> (7 * length cmds
             < 10 * length
                 (filter (run_failed (U := ucd_plain) (O := source_order))
                    (exec_results
                       (exec_loop (U := ucd_plain) (O := source_order)
                          (W := offline_world) cmds exec_start))))%nat).
Proof.
  destruct (@warning_iff_most_run_probes_failed ucd_plain source_order
              offline_world log_state
              (set_scout_info log_state
                 (extract_facts (W := offline_world)
                    (exec_results
                       (exec_loop (U := ucd_plain) (O := source_order)
                          (W := offline_world)
                          [py "journalctl -p err -n 30 --no-pager";
                           py "dmesg | tail -30";
                           py "ls -lt /var/log/*.log 2>/dev/null | head -10"]
                          exec_start))
                    [] (py "show recent errors")))
              [py "journalctl -p err -n 30 --no-pager"; py "dmesg | tail -30"])
    as (cmds & info & H1 & H2 & H3).
  - vm_compute; reflexivity.
  - eexists; eexists; exists cmds, info; split; [|split; [|split]].
    + vm_compute; reflexivity.
    + exact H1.
    + exact H2.
    + exact H3.
Defined.

(* ================================================================== *)
(** * 15. The dangerous patterns *)
(* ================================================================== *)

Section TierOne.
Context {U : UCD} {O : SetOrder}.

(** ** Tier 1 *)

Lemma first_pattern_none (ps : list (str * regex)) (c : str) :
  first_pattern ps c = None
  <-> existsb (fun p => re_found (snd p) c) ps = false.
Proof.
  induction ps as [|[text r] ps IH]; cbn [first_pattern existsb snd];
    [tauto|].
  destruct (re_found r c); cbn [orb]; [split; discriminate | exact IH].
Qed.

(** A fragment whose stripped text matches a pattern is rejected. *)
Lemma pattern_rejects (c : str) (p : str * regex) :
  In p DANGEROUS_PATTERNS -> re_found (snd p) (strip c) = true ->
  is_safe_scout_cmd c = false.
Proof.
  intros Hin Hm; unfold is_safe_scout_cmd, is_safe_scout_cmd_in.
  destruct (strip c) as [|x s]; [reflexivity|].
  assert (E : _check_dangerous_patterns (x :: s) = false).
  { unfold _check_dangerous_patterns; apply negb_false_iff.
    apply existsb_exists; exists p; split; assumption. }
  rewrite E; reflexivity.
Qed.

(** Stripping keeps an occurrence of a text that begins and ends with
    characters that are not white space. *)
Lemma contains_lstrip (c k : str) (x : N) :
  isspace x = false -> contains c (x :: k) = true ->
  contains (lstrip c) (x :: k) = true.
Proof.
  intros Hx; induction c as [|y c IH]; intros H; [exact H|].
  cbn [lstrip]; destruct (isspace y) eqn:Hy; [|exact H].
  rewrite contains_cons in H; apply orb_true_iff in H as [H | H].
  - cbn [startswith] in H; apply andb_true_iff in H as [H _].
    apply N.eqb_eq in H; subst y; congruence.
  - apply IH; exact H.
Qed.

Lemma contains_rev (c k : str) :
  contains c k = true -> contains (rev c) (rev k) = true.
Proof.
  rewrite !contains_iff; intros (a & b & ->); exists (rev b), (rev a).
  rewrite !rev_app_distr, <- app_assoc; reflexivity.
Qed.

Lemma contains_strip (c k : str) :
  ends_solid k = true ->
  contains c k = true -> contains (strip c) k = true.
Proof.
  unfold ends_solid; intros Hk H; unfold strip, rstrip.
  destruct k as [|x k]; [discriminate Hk|].
  destruct (rev (x :: k)) as [|y k'] eqn:E; [discriminate Hk|].
  cbn [hd_error] in Hk; apply andb_true_iff in Hk as [Hx Hy].
  apply negb_true_iff in Hx, Hy.
  apply (contains_lstrip c k x Hx) in H.
  apply contains_rev in H; rewrite E in H.
  apply (contains_lstrip _ k' y Hy) in H.
  apply contains_rev in H.
  rewrite <- E, rev_involutive in H; exact H.
Qed.

(** A pattern that matches at every occurrence of a text is found in
    every string that contains the text. *)
Lemma found_at_occurrence (r : regex) (k s : str) :
  (forall bef rest, is_some (match_at r bef (k ++ rest)) = true) ->
  contains s k = true -> re_found r s = true.
Proof.
  intros Hm H; unfold re_found, re_search.
  generalize (@nil N) as bef.
  induction s as [|c s IH]; intros bef.
  - rewrite contains_nil in H; apply startswith_iff in H as (rest & E).
    cbn [search_from]; specialize (Hm bef rest); rewrite <- E in Hm.
    destruct (match_at r bef []); [reflexivity | discriminate Hm].
  - cbn [search_from].
    destruct (match_at r bef (c :: s)) eqn:E; [reflexivity|].
    rewrite contains_cons in H; apply orb_true_iff in H as [H | H].
    + apply startswith_iff in H as (rest & Hs).
      specialize (Hm bef rest); rewrite <- Hs, E in Hm; discriminate Hm.
    + apply IH; exact H.
Qed.

(** A greedy repetition followed by nothing always matches. *)
Lemma rep_greedy_total (A : Type) (a : atom) (hi : option nat) (n : nat)
    (bef aft : str) (k : str -> str -> option A) :
  (forall b a', is_some (k b a') = true) ->
  is_some (rep_greedy a 0 hi n bef aft k) = true.
Proof.
  intros Hk; revert n bef; induction aft as [|c aft IH]; intros n bef;
    cbn [rep_greedy Nat.leb]; [apply Hk|].
  destruct (under hi n && atom_ok a c); [|apply Hk].
  specialize (IH (S n) (c :: bef)).
  destruct (rep_greedy a 0 hi (S n) (c :: bef) aft k); [reflexivity|].
  discriminate IH.
Qed.

Lemma token_matches (k : str) :
  In k TIER1_TOKENS ->
  exists p, In p DANGEROUS_PATTERNS
    /\ forall bef rest, is_some (match_at (snd p) bef (k ++ rest)) = true.
Proof.
  unfold TIER1_TOKENS; cbn [map In].
  intros [<- | [<- | [<- | [<- | [<- | [<- | [<- | [<- | []]]]]]]]].
  - exists (py "`", lit "`"); split; [cbn; tauto | intros; reflexivity].
  - exists (py "\$\(", lit "$("); split; [cbn; tauto | intros; reflexivity].
  - exists (py "<\(", lit "<("); split; [cbn; tauto | intros; reflexivity].
  - exists (py ">\(", lit ">("); split; [cbn; tauto | intros; reflexivity].
  - exists (py ">\s*[^|&]", redirect_re); split;
      [cbn; tauto | intros; reflexivity].
  - exists (py "\|\|", lit "||"); split; [cbn; tauto | intros; reflexivity].
  - exists (py ";\s*", seq [lit ";"; star sp]); split; [cbn; tauto|].
    intros bef rest; unfold match_at.
    change (py ";" ++ rest) with (59 :: rest).
    change (seq [lit ";"; star sp])
      with (Cat (Cat (One (ALit 59)) Eps) (Cat (Rep sp 0 None) Eps)).
    cbn [snd rmatch after before groups atom_ok].
    rewrite N.eqb_refl.
    apply rep_greedy_total; intros; reflexivity.
  - exists (py ">\s*[^|&]", redirect_re); split;
      [cbn; tauto | intros; reflexivity].
Qed.

Lemma tokens_solid : forallb ends_solid TIER1_TOKENS = true.
Proof. vm_compute; reflexivity. Qed.

(** A fragment that contains one of the tokens is rejected. *)
Lemma token_rejects (c k : str) :
  In k TIER1_TOKENS -> contains c k = true -> is_safe_scout_cmd c = false.
Proof.
  intros Hk Hc.
  destruct (token_matches Hk) as (p & Hp & Hm).
  apply (pattern_rejects c Hp).
  apply found_at_occurrence with (k := k); [exact Hm|].
  apply contains_strip; [|exact Hc].
  pose proof tokens_solid as Hs; rewrite forallb_forall in Hs.
  apply Hs; exact Hk.
Qed.

End TierOne.

(** C3, counterexample: the pattern for a redirection to a file matches the
    fragment [ls > ] (the blank after [>] stands for the file), yet the
    gate, which strips the fragment first, accepts it; a newline at the end
    of a fragment is accepted in the same way. *)
Lemma tier1_match_accepted :
  In (py ">\s*[^|&]", redirect_re) DANGEROUS_PATTERNS
  /\ re_found (U := ucd_plain) redirect_re (py "ls > ") = true
  /\ is_safe_scout_cmd (U := ucd_plain) (O := source_order) (py "ls > ")
     = true
  /\ In (py "\n", One (ALit NL)) DANGEROUS_PATTERNS
  /\ re_found (U := ucd_plain) (One (ALit NL)) (py "ls" ++ [NL]) = true
  /\ is_safe_scout_cmd (U := ucd_plain) (O := source_order)
       (py "ls" ++ [NL]) = true.
Proof.
  split; [cbn; tauto|]; split; [vm_compute; reflexivity|].
  split; [vm_compute; reflexivity|]; split; [cbn; tauto|].
  split; vm_compute; reflexivity.
Qed.

(** C3, amended: a fragment is rejected when, after white space is
    stripped from its ends, any Tier-1 pattern matches it; and a fragment
    that contains a backtick, [$(], [<(], [>(], [>>], [||], [;] or
    [> /dev/null] anywhere is rejected, stripped or not. *)
Theorem tier1_fragment_rejected (U : UCD) (O : SetOrder) (c : str) :
  (forall p, In p DANGEROUS_PATTERNS -> re_found (snd p) (strip c) = true ->
             is_safe_scout_cmd c = false)
  /\ (forall k, In k TIER1_TOKENS -> contains c k = true ->
                is_safe_scout_cmd c = false)
  /\ (contains c (py "> /dev/null") = true -> is_safe_scout_cmd c = false).
Proof.
  split; [|split].
  - intros p; apply pattern_rejects.
  - intros k; apply token_rejects.
  - apply token_rejects; unfold TIER1_TOKENS; cbn [map In]; tauto.
Qed.

Lemma tier1_fragment_rejected_witness :
  is_safe_scout_cmd (U := ucd_plain) (O := source_order)
    (py "find / -name x 2> /dev/null") = false.
Proof.
  apply (@tier1_fragment_rejected ucd_plain source_order
           (py "find / -name x 2> /dev/null")).
  vm_compute; reflexivity.
Defined.

(* ================================================================== *)
(** * 16. The verdict and the reason *)
(* ================================================================== *)

Section VerdictReason.
Context {U : UCD} {O : SetOrder}.

Lemma subcmds_ok_later (allow : list str) (i : nat) (parts : list str) :
  subcmds_ok allow (S i) parts = true <-> first_rejected allow parts = None.
Proof.
  revert i; induction parts as [|p parts IH]; intros i;
    cbn [subcmds_ok first_rejected]; [tauto|].
  destruct (strip p) as [|x s]; [apply IH|].
  cbn [Nat.eqb]; rewrite andb_false_r.
  destruct (_is_allowed_subcmd_in allow (x :: s)); cbn [negb];
    [apply IH | split; discriminate].
Qed.

Lemma subcmds_ok_first (allow : list str) (parts : list str) :
  subcmds_ok allow 0 parts = true
  <-> first_rejected allow parts = None
      /\ match parts with
         | [] => false
         | p :: _ =>
           match strip p with
           | [] => false
           | sub => str_in (_get_base_command sub) COMBO_ONLY_COMMANDS
           end
         end = false.
Proof.
  destruct parts as [|p parts]; cbn [subcmds_ok first_rejected]; [tauto|].
  destruct (strip p) as [|x s].
  - rewrite subcmds_ok_later; tauto.
  - cbn [Nat.eqb]; rewrite andb_true_r.
    destruct (str_in (_get_base_command (x :: s)) COMBO_ONLY_COMMANDS).
    + split; [discriminate | intros [_ H]; discriminate H].
    + destruct (_is_allowed_subcmd_in allow (x :: s)); cbn [negb].
      * rewrite subcmds_ok_later; tauto.
      * split; [discriminate | intros [H _]; discriminate H].
Qed.

(** The gate accepts a fragment exactly when [get_safety_reason] has no
    reason and the fragment does not begin with a combo-only command: the
    reason function misses the one rule on [xargs] and [parallel]. *)
Lemma verdict_and_reason (c : str) :
  is_safe_scout_cmd c = true
  <-> get_safety_reason c = None /\ combo_first c = false.
Proof.
  unfold is_safe_scout_cmd, is_safe_scout_cmd_in, get_safety_reason,
    get_safety_reason_in, combo_first, _check_dangerous_patterns,
    _check_dangerous_commands_in.
  destruct (strip c) as [|x s] eqn:Hs.
  - split; [discriminate | intros [H _]; discriminate H].
  - rewrite negb_involutive.
    destruct (first_pattern DANGEROUS_PATTERNS (x :: s)) as [t|] eqn:Hp.
    + assert (E : existsb (fun p => re_found (snd p) (x :: s))
                    DANGEROUS_PATTERNS = true).
      { apply not_false_iff_true; intros E.
        apply first_pattern_none in E; rewrite E in Hp; discriminate Hp. }
      rewrite E; split; [discriminate | intros [H _]; discriminate H].
    + apply first_pattern_none in Hp; rewrite Hp.
      rewrite negb_involutive.
      destruct (first_dangerous deny_order (lower (x :: s))) as [d|] eqn:Hd.
      * assert (E : existsb (dangerous_hit (lower (x :: s))) deny_order = true).
        { apply not_false_iff_true; intros E.
          apply first_dangerous_none in E; rewrite E in Hd; discriminate Hd. }
        rewrite E; split; [discriminate | intros [H _]; discriminate H].
      * apply first_dangerous_none in Hd; rewrite Hd.
        rewrite subcmds_ok_first.
        destruct (first_rejected allow_order (re_split split_re (x :: s)));
          [split; intros [H _]; discriminate H | tauto].
Qed.

Lemma xargs_rejected : is_safe_scout_cmd (py "xargs ls") = false.
Proof. rewrite is_safe_source_order; vm_compute; reflexivity. Qed.

Lemma xargs_no_reason : get_safety_reason (py "xargs ls") = None.
Proof.
  rewrite (@reason_steps _ _ (py "xargs ls") (py "xargs ls") None).
  - vm_compute; reflexivity.
  - vm_compute; reflexivity.
  - discriminate.
  - vm_compute; reflexivity.
  - apply first_dangerous_nohit; vm_compute; reflexivity.
Qed.

(** ** Restricted commands that are not on the allow list *)

(** A base command that has rules but is no entry of the allow list is
    rejected whatever its arguments. *)
Lemma restricted_not_listed (sub original_sub : str) :
  is_some (lookup (_get_base_command sub) RESTRICTED_COMMANDS) = true ->
  str_in (_get_base_command sub) UNCONDITIONAL_ALLOW = false ->
  allowed_by_list allow_order sub original_sub = false.
Proof.
  intros Hr Hn; rewrite (allowed_by_list_same _ _ _ allow_order_ok).
  unfold allowed_by_list.
  destruct (_get_base_command sub) as [|b0 b] eqn:Hb; [reflexivity|].
  rewrite allow_loop_char.
  - assert (E1 : existsb (multi_hit sub) UNCONDITIONAL_ALLOW = false).
    { apply not_true_iff_false; intros E.
      apply existsb_exists in E as (e & He & Hm); unfold multi_hit in Hm.
      apply andb_true_iff in Hm as [Hsp Hm].
      pose proof (multi_word_not_restricted sub He Hsp Hm) as Hnone.
      rewrite Hb in Hnone; rewrite Hnone in Hr; discriminate Hr. }
    assert (E2 : existsb (single_hit (b0 :: b)) UNCONDITIONAL_ALLOW = false).
    { apply not_true_iff_false; intros E.
      apply existsb_exists in E as (e & He & Hm); unfold single_hit in Hm.
      apply andb_true_iff in Hm as [_ Hm]; apply str_eqb_eq in Hm.
      assert (Hin : str_in (b0 :: b) UNCONDITIONAL_ALLOW = true)
        by (apply str_in_In; rewrite Hm; exact He).
      rewrite Hin in Hn; discriminate Hn. }
    rewrite E1, E2; reflexivity.
  - intros _ e He; unfold multi_hit.
    destruct (contains e SPACE) eqn:Hsp; [|reflexivity]; cbn [andb].
    apply not_true_iff_false; intros Hm.
    pose proof (multi_word_not_restricted sub He Hsp Hm) as Hnone.
    rewrite Hb in Hnone; rewrite Hnone in Hr; discriminate Hr.
Qed.

End VerdictReason.

(** C10 (the code departs from the claim): [xargs ls] is rejected by the
    gate, as a combo-only command that comes first, and
    [get_safety_reason] has no reason for it. *)
Theorem xargs_rejected_without_reason (U : UCD) (O : SetOrder) :
  is_safe_scout_cmd (py "xargs ls") = false
  /\ get_safety_reason (py "xargs ls") = None
  /\ combo_first (py "xargs ls") = true.
Proof.
  split; [apply xargs_rejected|]; split; [apply xargs_no_reason|].
  vm_compute; reflexivity.
Qed.

(** C4 (the code departs from the claim): the fragment [sed s/a/b/ f] has
    the base command [sed], no Tier-1 pattern, no deny-listed command and
    passes the rule of [sed], yet the gate rejects it: [sed] has rules but
    is no entry of the allow list, which alone admits a command.  The
    half of the claim on [-i] holds. *)
Theorem sed_rejected_despite_rule (U : UCD) (O : SetOrder) :
  _get_base_command (py "sed s/a/b/ f") = py "sed"
  /\ _check_dangerous_patterns (py "sed s/a/b/ f") = true
  /\ _check_dangerous_commands (py "sed s/a/b/ f") = true
  /\ _check_restricted_command (py "sed s/a/b/ f") (py "sed") = true
  /\ str_in (py "sed") UNCONDITIONAL_ALLOW = false
  /\ _is_allowed_subcmd (py "sed s/a/b/ f") = false
  /\ is_safe_scout_cmd (py "sed s/a/b/ f") = false
  /\ _check_restricted_command (py "sed -i s/a/b/ f") (py "sed") = false
  /\ is_safe_scout_cmd (py "sed -i s/a/b/ f") = false.
Proof.
  split; [vm_compute; reflexivity|].
  split; [vm_compute; reflexivity|].
  split; [rewrite dangerous_source_order; vm_compute; reflexivity|].
  split; [vm_compute; reflexivity|].
  split; [vm_compute; reflexivity|].
  split; [rewrite is_allowed_source_order; vm_compute; reflexivity|].
  split; [rewrite is_safe_source_order; vm_compute; reflexivity|].
  split; [vm_compute; reflexivity|].
  rewrite is_safe_source_order; vm_compute; reflexivity.
Qed.

(* ================================================================== *)
(** * 17. [refine_node] and the fast path *)
(* ================================================================== *)

Section Refine.
Context {U : UCD} {O : SetOrder} {W : World}.

Lemma py_max_spec (a : pyval) (b : TaskComplexity) (v : pyval) :
  py_max a b = Ok v ->
  exists za zv, number a = Some za /\ number v = Some zv
                /\ zv = Z.max za (complexity_value b).
Proof.
  unfold py_max; destruct (number a) as [za|] eqn:Ha; [|discriminate].
  destruct (Z.ltb za (complexity_value b)) eqn:Hlt; intros H;
    apply Ok_inj in H; subst v; exists za.
  - exists (complexity_value b); apply Z.ltb_lt in Hlt.
    split; [reflexivity|]; split; [reflexivity | lia].
  - exists za; apply Z.ltb_ge in Hlt.
    split; [reflexivity|]; split; [exact Ha | lia].
Qed.

(** What [refine_node] stores when the query is not in the table. *)
Lemma refine_node_llm_path (state state' : AgentState) :
  lookup (lower (strip (query state))) TRIVIAL_COMMANDS = None ->
  refine_node state = Ok state' ->
  exists i final,
    intent state' = Some i /\ complexity state' = Some final
    /\ command state' = command state
    /\ py_max (llm_complexity i) (assess_complexity (query state) i)
       = Ok final.
Proof.
  intros Hl; unfold refine_node; rewrite Hl.
  destruct (llm_intent (query state)) as [raw|]; [|discriminate].
  destruct (fix_domains (r_domains raw)) as [domains|e]; cbn [bind];
    [|discriminate].
  destruct (match r_entities raw with
            | REAbsent => Ok []
            | REDict d => Ok d
            | REOther => Raise AttributeError
            end) as [entities|e]; cbn [bind]; [|discriminate].
  destruct (promote_target
              (add_regex_entities
                 (extract_entities_from_query (query state)) entities))
    as [entities'|e]; cbn [bind]; [|discriminate].
  set (i := mkIntent domains entities' (r_complexity raw)
              (fst (llm_errors (query state)))
              (snd (llm_errors (query state)))).
  change (match r_complexity raw with Some v => v | None => VInt 2 end)
    with (llm_complexity i).
  destruct (py_max (llm_complexity i) (assess_complexity (query state) i))
    as [final|e] eqn:Hm; cbn [bind]; [|discriminate].
  intros H; apply Ok_inj in H; subst state'.
  exists i, final; split; [reflexivity|]; split; [reflexivity|].
  split; [reflexivity | exact Hm].
Qed.

(** The fast path: a query in the table gets its canned command, the
    complexity TRIVIAL, and no probe is run. *)
Lemma fast_path (q0 canned : str) :
  lookup (lower (strip q0)) TRIVIAL_COMMANDS = Some canned ->
  exists s,
    run_graph q0 = Ok (s, [])
    /\ complexity s = Some (VInt 1)
    /\ command s = Some canned
    /\ should_skip_scout s = generate.
Proof.
  intros Hl.
  assert (Hne : canned <> []).
  { assert (H : forallb (fun kv => match snd kv with [] => false | _ => true end)
                  TRIVIAL_COMMANDS = true) by (vm_compute; reflexivity).
    rewrite forallb_forall in H.
    assert (Hin : In (lower (strip q0), canned) TRIVIAL_COMMANDS).
    { clear H; revert Hl; generalize TRIVIAL_COMMANDS as d.
      induction d as [|[k v] d IH]; cbn [lookup]; [discriminate|].
      destruct (str_eqb (lower (strip q0)) k) eqn:E.
      - intros H; apply str_eqb_eq in E; injection H as ->; subst k.
        left; reflexivity.
      - intros H; right; apply IH; exact H. }
    specialize (H _ Hin); cbn [snd] in H; intros ->; discriminate H. }
  unfold run_graph, refine_node; cbn [initial_state query]; rewrite Hl.
  cbn [bind retrieve_node should_skip_scout complexity number
         complexity_value Z.eqb Pos.eqb generate_node command].
  destruct canned as [|c0 canned]; [congruence|].
  eexists; split; [reflexivity|]; split; [reflexivity|].
  split; reflexivity.
Qed.

End Refine.



(** C6, counterexample: the query [磁盘使用情况] is not a key of the table
    (the key is [磁盘使用]); the heuristic does not classify it as trivial,
    and with the model out of reach the run executes the two probes of the
    domain [file] and ends with the command that reports the failure. *)
Lemma disk_usage_query_not_in_table :
  lookup (lower (U := ucd_plain) (strip (py "磁盘使用情况"))) TRIVIAL_COMMANDS
  = None
  /\ assess_complexity (U := ucd_plain) (py "磁盘使用情况")
       (mkIntent [py "file"] [] (Some (VInt 2)) None None) = MODERATE
  /\ match run_graph (U := ucd_plain) (O := source_order)
             (W := offline_world) (py "磁盘使用情况") with
     | Ok (s, probes) => (command s, probes)
     | Raise _ => (None, [])
     end
     = (Some (py "echo " ++ [DQUOTE] ++ py "命令生成失败: connection refused"
              ++ [DQUOTE]),
        [py "pwd"; py "ls -la"]).
Proof. split; [|split]; vm_compute; reflexivity. Qed.

(** C6, amended: for the query [pwd] the run takes the fast path: the
    complexity is TRIVIAL (as the heuristic also finds), no probe is run
    and the command is [pwd]; and for every query that normalises to the
    key [磁盘使用] of the table (the text [磁盘使用情况] does not), no probe
    is run and the command is [df -h]. *)
Theorem trivial_table_queries (U : UCD) (O : SetOrder) (W : World) :
  (exists s, run_graph (py "pwd") = Ok (s, [])
             /\ complexity s = Some (VInt (complexity_value TRIVIAL))
             /\ command s = Some (py "pwd"))
  /\ (forall i, assess_complexity (py "pwd") i = TRIVIAL)
  /\ lookup (py "磁盘使用") TRIVIAL_COMMANDS = Some (py "df -h")
  /\ (forall q0, lower (strip q0) = py "磁盘使用" ->
       exists s, run_graph q0 = Ok (s, [])
                 /\ complexity s = Some (VInt (complexity_value TRIVIAL))
                 /\ command s = Some (py "df -h")).
Proof.
  split; [|split; [|split]].
  - destruct (@fast_path U O W (py "pwd") (py "pwd")) as (s & H1 & H2 & H3 & _).
    + vm_compute; reflexivity.
    + exists s; split; [assumption|]; split; assumption.
  - intros i; vm_compute; reflexivity.
  - vm_compute; reflexivity.
  - intros q0 Hq.
    destruct (@fast_path U O W q0 (py "df -h")) as (s & H1 & H2 & H3 & _).
    + rewrite Hq; vm_compute; reflexivity.
    + exists s; split; [assumption|]; split; assumption.
Qed.

Lemma trivial_table_queries_witness :
  exists s,
    run_graph (U := ucd_plain) (O := source_order) (W := offline_world)
      (py "磁盘使用") = Ok (s, [])
    /\ complexity s = Some (VInt (complexity_value TRIVIAL))
    /\ command s = Some (py "df -h").
Proof.
  apply (@trivial_table_queries ucd_plain source_order offline_world).
  vm_compute; reflexivity.
Defined.

(* ================================================================== *)
(** * 18. [generate_node] *)
(* ================================================================== *)

Section Generate.
Context {U : UCD}.

Lemma contains_single (s : str) (x : N) :
  contains s [x] = true <-> In x s.
Proof.
  rewrite contains_iff; split.
  - intros (a & b & ->); apply in_or_app; right; left; reflexivity.
  - intros H; apply in_split in H as (a & b & ->); exists a, b; reflexivity.
Qed.

Lemma no_single (s : str) (x : N) : ~ In x s -> contains s [x] = false.
Proof.
  intros H; apply not_true_iff_false; intros E; apply H.
  apply contains_single; exact E.
Qed.



(** No piece of a split holds the separator. *)
Lemma split_on_go_pieces (sep : N) (s acc l : str) :
  ~ In sep acc -> In l (split_on_go sep acc s) -> ~ In sep l.
Proof.
  revert acc; induction s as [|c s IH]; intros acc Hacc; cbn [split_on_go].
  - intros [<- | []]; rewrite <- in_rev; exact Hacc.
  - destruct (N.eqb_spec c sep) as [->|Hc].
    + intros [<- | H].
      * rewrite <- in_rev; exact Hacc.
      * apply (IH []); [intros [] | exact H].
    + apply IH; intros [E | E]; [apply Hc; exact E | apply Hacc; exact E].
Qed.


Lemma clean_command_unfold (result_str : str) :
  clean_command result_str
  = let command := unfenced result_str in
    if contains command [NL] && negb (startswith command (py "echo"))
    then match map strip (filter kept_line (split_on NL command)) with
         | first :: _ => first
         | [] => command
         end
    else command.
Proof. reflexivity. Qed.




End Generate.




(* ================================================================== *)
(** * 19. JSON repair: a second pass *)
(* ================================================================== *)

Section Repair.
Context {U : UCD}.

(** ** The matcher's searches and substitutions *)

Lemma search_from_spec (r : regex) (aft bef b0 : str) (st : mstate) :
  search_from r bef aft = Some (b0, st) ->
  exists skipped rest, aft = skipped ++ rest /\ b0 = rev skipped ++ bef
    /\ match_at r b0 rest = Some st.
Proof.
  revert bef; induction aft as [|c aft IH]; intros bef; cbn [search_from].
  - destruct (match_at r bef []) eqn:E; [|discriminate].
    intros [= <- <-]; exists [], []; auto.
  - destruct (match_at r bef (c :: aft)) eqn:E.
    + intros [= <- <-]; exists [], (c :: aft); auto.
    + intros H; apply IH in H as (sk & rest & -> & -> & H).
      exists (c :: sk), rest; cbn [rev app]; rewrite <- app_assoc; auto.
Qed.

Lemma search_reaches (r : regex) (a x bef : str) :
  is_some (match_at r (rev a ++ bef) x) = true ->
  is_some (search_from r bef (a ++ x)) = true.
Proof.
  revert bef; induction a as [|c a IH]; intros bef H.
  - cbn [rev app] in *.
    destruct x; cbn [search_from]; destruct (match_at r bef _);
      first [reflexivity | discriminate H].
  - cbn [app search_from].
    destruct (match_at r bef (c :: a ++ x)); [reflexivity|].
    apply IH; cbn [rev] in H; rewrite <- app_assoc in H; exact H.
Qed.

(** Nothing to replace: the text is returned as it is. *)
Lemma sub_go_none (r : regex) (repl aft bef : str) :
  search_from r bef aft = None -> sub_go r repl bef aft 0 = aft.
Proof.
  revert bef; induction aft as [|c aft IH]; intros bef; cbn [search_from sub_go].
  - destruct (match_at r bef []); [discriminate | reflexivity].
  - destruct (match_at r bef (c :: aft)); [discriminate|].
    intros H; rewrite (IH _ H); reflexivity.
Qed.

Lemma re_sub_none (r : regex) (repl s : str) :
  re_found r s = false -> re_sub r repl s = s.
Proof.
  unfold re_found, re_sub, re_search; intros H; apply sub_go_none.
  destruct (search_from r [] s); [discriminate H | reflexivity].
Qed.

Lemma sub_go_skip (r : regex) (repl m rest bef : str) :
  sub_go r repl bef (m ++ rest) (length m)
  = sub_go r repl (rev m ++ bef) rest 0.
Proof.
  revert bef; induction m as [|c m IH]; intros bef; [reflexivity|].
  cbn [app length sub_go rev]; rewrite IH, <- app_assoc; reflexivity.
Qed.

(** A pattern that only matches at an occurrence of a text is not found in
    a string without the text. *)
Lemma not_found_without (r : regex) (k s : str) :
  (forall bef aft st, match_at r bef aft = Some st -> startswith aft k = true) ->
  contains s k = false -> re_found r s = false.
Proof.
  intros Hm H; unfold re_found, re_search.
  generalize (@nil N) as bef.
  induction s as [|c s IH]; intros bef; cbn [search_from].
  - destruct (match_at r bef []) eqn:E; [|reflexivity].
    apply Hm in E; rewrite contains_nil in H; congruence.
  - rewrite contains_cons in H; apply orb_false_iff in H as [H1 H2].
    destruct (match_at r bef (c :: s)) eqn:E.
    + apply Hm in E; congruence.
    + apply IH; exact H2.
Qed.

(** A repetition followed by nothing else only moves the cursor forward. *)
Lemma rep_greedy_grows (a : atom) (lo : nat) (hi : option nat) (g : list (nat * str))
    (aft : str) (n : nat) (bef : str) (st : mstate) :
  rep_greedy a lo hi n bef aft (fun b a' => Some (MState b a' g)) = Some st ->
  exists pre, before st = pre ++ bef.
Proof.
  revert n bef; induction aft as [|c aft IH]; intros n bef; cbn [rep_greedy].
  - destruct (Nat.leb lo n); [|discriminate].
    intros [= <-]; exists []; reflexivity.
  - assert (Hstop : (if Nat.leb lo n then Some (MState bef (c :: aft) g) else None)
                    = Some st -> exists pre, before st = pre ++ bef).
    { destruct (Nat.leb lo n); [|discriminate].
      intros [= <-]; exists []; reflexivity. }
    destruct (under hi n && atom_ok a c); [|exact Hstop].
    destruct (rep_greedy a lo hi (S n) (c :: bef) aft _) eqn:E; [|exact Hstop].
    intros [= <-]; apply IH in E as (pre & E).
    exists (pre ++ [c]); rewrite E, <- app_assoc; reflexivity.
Qed.

(** ** Step 2 leaves no code fence *)

Lemma fence_re_unfold :
  fence_re = Cat (Cat (One (ALit 96)) (Cat (One (ALit 96))
                   (Cat (One (ALit 96)) Eps)))
                 (Cat (Rep sp 0 None) Eps).
Proof. reflexivity. Qed.

Lemma fence_match (bef aft : str) (st : mstate) :
  match_at fence_re bef aft = Some st ->
  startswith aft TICKS = true
  /\ exists pre, before st = pre ++ 96 :: 96 :: 96 :: bef.
Proof.
  unfold match_at; rewrite fence_re_unfold.
  cbn [rmatch after before groups atom_ok].
  destruct aft as [|a aft]; [discriminate|].
  destruct (a =? 96) eqn:Ea; [|discriminate].
  cbn [rmatch after before groups atom_ok].
  destruct aft as [|b aft]; [discriminate|].
  destruct (b =? 96) eqn:Eb; [|discriminate].
  cbn [rmatch after before groups atom_ok].
  destruct aft as [|c aft]; [discriminate|].
  destruct (c =? 96) eqn:Ec; [|discriminate].
  cbn [rmatch after before groups atom_ok].
  apply N.eqb_eq in Ea, Eb, Ec; subst a b c.
  intros H; split; [apply startswith_iff; exists aft; reflexivity|].
  apply rep_greedy_grows in H; exact H.
Qed.

Lemma fence_json_match (bef aft : str) (st : mstate) :
  match_at fence_json_re bef aft = Some st -> startswith aft TICKS = true.
Proof.
  unfold match_at.
  change fence_json_re
    with (Cat (Cat (One (ALit 96)) (Cat (One (ALit 96))
            (Cat (One (ALit 96)) (lit "json"))))
          (Cat (Rep sp 0 None) Eps)).
  cbn [rmatch after before groups atom_ok].
  destruct aft as [|a aft]; [discriminate|].
  destruct (a =? 96) eqn:Ea; [|discriminate].
  cbn [rmatch after before groups atom_ok].
  destruct aft as [|b aft]; [discriminate|].
  destruct (b =? 96) eqn:Eb; [|discriminate].
  cbn [rmatch after before groups atom_ok].
  destruct aft as [|c aft]; [discriminate|].
  destruct (c =? 96) eqn:Ec; [|discriminate].
  apply N.eqb_eq in Ea, Eb, Ec; subst a b c.
  intros _; apply startswith_iff; exists aft; reflexivity.
Qed.

Lemma sub_fence_step (bef aft : str) :
  startswith aft TICKS = false ->
  sub_go fence_re [] bef aft 0
  = match aft with
    | c :: aft' => c :: sub_go fence_re [] (c :: bef) aft' 0
    | [] => []
    end.
Proof.
  intros H; destruct aft as [|c aft]; cbn [sub_go];
    (destruct (match_at fence_re bef _) eqn:E;
     [apply fence_match in E as [E _]; congruence | reflexivity]).
Qed.

Lemma startswith_nil (s : str) : startswith s [] = true.
Proof. destruct s; reflexivity. Qed.

Lemma startswith_cons (b a : N) (s p : str) :
  startswith (b :: s) (a :: p) = (a =? b) && startswith s p.
Proof. reflexivity. Qed.

Lemma sub_fence_one (x bef : str) :
  startswith x [96] = false ->
  startswith (sub_go fence_re [] bef x 0) [96] = false.
Proof.
  intros H; rewrite sub_fence_step.
  - destruct x as [|e x]; [reflexivity|].
    rewrite startswith_cons, startswith_nil in *; exact H.
  - destruct x as [|e x]; [reflexivity|].
    change TICKS with [96; 96; 96].
    rewrite startswith_cons, startswith_nil, andb_true_r in H.
    rewrite startswith_cons, H; reflexivity.
Qed.

Lemma sub_fence_two (x bef : str) :
  startswith x [96; 96] = false ->
  startswith (sub_go fence_re [] bef x 0) [96; 96] = false.
Proof.
  intros H; rewrite sub_fence_step.
  - destruct x as [|d x]; [reflexivity|].
    rewrite startswith_cons in H |- *.
    destruct (96 =? d); [|reflexivity].
    cbn [andb] in *; apply sub_fence_one; exact H.
  - destruct x as [|d x]; [reflexivity|].
    change TICKS with [96; 96; 96].
    rewrite startswith_cons in H |- *.
    destruct (96 =? d); [|reflexivity].
    cbn [andb] in *.
    destruct x as [|e x]; [reflexivity|].
    rewrite startswith_cons in H |- *.
    destruct (96 =? e); [|reflexivity].
    cbn [andb] in *; rewrite startswith_nil in H; discriminate H.
Qed.

Lemma sub_fence_clean (aft bef : str) (skip : nat) :
  contains (sub_go fence_re [] bef aft skip) TICKS = false.
Proof.
  revert bef skip; induction aft as [|c aft IH]; intros bef skip.
  - destruct skip; cbn [sub_go]; [|reflexivity].
    destruct (match_at fence_re bef []) eqn:E; [|reflexivity].
    apply fence_match in E as [E _]; discriminate E.
  - destruct skip as [|n]; cbn [sub_go]; [|apply IH].
    destruct (match_at fence_re bef (c :: aft)) eqn:E.
    + apply fence_match in E as [_ (pre & E)]; rewrite E.
      rewrite length_app; cbn [length].
      replace (length pre + S (S (S (length bef))) - length bef)%nat
        with (S (S (S (length pre)))) by lia.
      cbn [app]; apply IH.
    + rewrite contains_cons, IH, orb_false_r.
      destruct (startswith (c :: sub_go fence_re [] (c :: bef) aft 0) TICKS)
        eqn:S; [|reflexivity].
      change TICKS with [96; 96; 96] in S; rewrite startswith_cons in S.
      apply andb_true_iff in S as [Sc S].
      destruct (startswith aft [96; 96]) eqn:S2.
      * assert (Hm : is_some (match_at fence_re bef (c :: aft)) = true).
        { apply N.eqb_eq in Sc; subst c.
          apply startswith_iff in S2 as (rest & ->).
          cbn [app].
          unfold match_at; rewrite fence_re_unfold.
          cbn [rmatch after before groups atom_ok N.eqb Pos.eqb].
          apply rep_greedy_total; intros; reflexivity. }
        rewrite E in Hm; discriminate Hm.
      * apply (sub_fence_two aft (c :: bef)) in S2; congruence.
Qed.

End Repair.

Section Enclosed.
Context {U : UCD}.

Lemma patterns_enclosed :
  braces_re = enclosed 123 anychar 125
  /\ comma_brace_re = enclosed 44 sp 125
  /\ comma_bracket_re = enclosed 44 sp 93.
Proof. split; [|split]; reflexivity. Qed.

Lemma anychar_ok (c : N) : atom_ok anychar c = true.
Proof.
  unfold anychar; cbn [atom_ok existsb citem_ok xorb].
  destruct (isspace c); reflexivity.
Qed.

(** What a greedy repetition returns, its continuation returned for some
    split of the text. *)
Lemma rep_greedy_split (A : Type) (a : atom) (lo : nat) (hi : option nat)
    (k : str -> str -> option A) (aft : str) (n : nat) (bef : str) (x : A) :
  rep_greedy a lo hi n bef aft k = Some x ->
  exists mid rest, aft = mid ++ rest /\ forallb (atom_ok a) mid = true
    /\ k (rev mid ++ bef) rest = Some x.
Proof.
  revert n bef; induction aft as [|c aft IH]; intros n bef; cbn [rep_greedy].
  - destruct (Nat.leb lo n); [|discriminate].
    intros H; exists [], []; auto.
  - assert (Hstop : (if Nat.leb lo n then k bef (c :: aft) else None) = Some x ->
      exists mid rest, c :: aft = mid ++ rest /\ forallb (atom_ok a) mid = true
        /\ k (rev mid ++ bef) rest = Some x).
    { destruct (Nat.leb lo n); [|discriminate].
      intros H; exists [], (c :: aft); auto. }
    destruct (under hi n && atom_ok a c) eqn:E; [|exact Hstop].
    destruct (rep_greedy a lo hi (S n) (c :: bef) aft k) eqn:R; [|exact Hstop].
    intros [= <-]; apply IH in R as (mid & rest & -> & Hm & Hk).
    apply andb_true_iff in E as [_ E].
    exists (c :: mid), rest; cbn [app forallb rev]; rewrite E, Hm, <- app_assoc.
    auto.
Qed.

Lemma closer_spec (c : N) (b a' : str) (st : mstate) :
  closer c b a' = Some st ->
  exists rest, a' = c :: rest /\ st = MState (c :: b) rest [].
Proof.
  unfold closer; cbn [rmatch after before groups atom_ok].
  destruct a' as [|x rest]; [discriminate|].
  destruct (x =? c) eqn:E; [|discriminate].
  apply N.eqb_eq in E; subst x; intros [= <-]; exists rest; auto.
Qed.

Lemma closer_hit (c : N) (b rest : str) :
  closer c b (c :: rest) = Some (MState (c :: b) rest []).
Proof.
  unfold closer; cbn [rmatch after before groups atom_ok].
  rewrite N.eqb_refl; reflexivity.
Qed.

Lemma enclosed_unfold (o : N) (a : atom) (c : N) (bef aft : str) :
  match_at (enclosed o a c) bef aft
  = match aft with
    | x :: aft' =>
      if x =? o then rep_greedy a 0 None 0 (x :: bef) aft' (closer c) else None
    | [] => None
    end.
Proof. destruct aft; reflexivity. Qed.

(** A match of such a pattern: the opening character, a run, the closing
    character. *)
Lemma enclosed_match (o : N) (a : atom) (c : N) (bef aft : str) (st : mstate) :
  match_at (enclosed o a c) bef aft = Some st ->
  exists mid rest, aft = o :: mid ++ c :: rest
    /\ forallb (atom_ok a) mid = true
    /\ st = MState (c :: rev mid ++ o :: bef) rest [].
Proof.
  rewrite enclosed_unfold; destruct aft as [|x aft]; [discriminate|].
  destruct (x =? o) eqn:E; [|discriminate].
  apply N.eqb_eq in E; subst x; intros H.
  apply rep_greedy_split in H as (mid & rest & -> & Hm & H).
  apply closer_spec in H as (rest' & -> & ->).
  exists mid, rest'; auto.
Qed.

Lemma enclosed_length (o c : N) (mid bef : str) :
  (length (c :: rev mid ++ o :: bef) - length bef)%nat = S (S (length mid)).
Proof. cbn [length]; rewrite length_app, length_rev; cbn [length]; lia. Qed.

Lemma enclosed_group0 (o c : N) (mid b0 rest : str) :
  group0 (b0, MState (c :: rev mid ++ o :: b0) rest []) = o :: mid ++ [c].
Proof.
  unfold group0; cbn [fst snd before].
  rewrite enclosed_length.
  replace (c :: rev mid ++ o :: b0) with (rev (o :: mid ++ [c]) ++ b0).
  - replace (S (S (length mid))) with (length (rev (o :: mid ++ [c]))).
    + rewrite firstn_app, firstn_all, Nat.sub_diag, firstn_O, app_nil_r.
      apply rev_involutive.
    + rewrite length_rev; cbn [length]; rewrite length_app; cbn [length]; lia.
  - cbn [rev]; rewrite rev_app_distr; cbn [rev app].
    rewrite <- app_assoc; reflexivity.
Qed.

(** ** The brace pattern *)

(** Every match of the brace pattern runs from an opening to a closing
    brace. *)
Lemma braces_found (s : str) (m : str * mstate) :
  re_search braces_re s = Some m ->
  exists a mid c, s = a ++ (123 :: mid ++ [125]) ++ c
    /\ group0 m = 123 :: mid ++ [125].
Proof.
  destruct m as [b0 st]; unfold re_search; intros H.
  apply search_from_spec in H as (sk & rest & -> & -> & H).
  destruct patterns_enclosed as [E _]; rewrite E in H.
  apply enclosed_match in H as (mid & c & -> & _ & ->).
  exists sk, mid, c; split.
  - cbn [app]; rewrite <- app_assoc; reflexivity.
  - apply enclosed_group0.
Qed.

(** Greedy: from an opening brace the match reaches the last closing
    brace. *)
Lemma rep_any_last (mid : str) (n : nat) (bef : str) :
  rep_greedy anychar 0 None n bef (mid ++ [125]) (closer 125)
  = Some (MState (125 :: rev mid ++ bef) [] []).
Proof.
  revert n bef; induction mid as [|c mid IH]; intros n bef.
  - cbn [app rep_greedy under andb]; rewrite anychar_ok.
    cbn [rep_greedy Nat.leb rev app].
    rewrite closer_hit; reflexivity.
  - cbn [app rep_greedy under andb]; rewrite anychar_ok, IH.
    cbn [rev]; rewrite <- app_assoc; reflexivity.
Qed.

Lemma braces_whole (mid : str) :
  exists m, re_search braces_re (123 :: mid ++ [125]) = Some m
    /\ group0 m = 123 :: mid ++ [125].
Proof.
  exists ([], MState (125 :: rev mid ++ [123]) [] []); split.
  - unfold re_search; cbn [search_from].
    destruct patterns_enclosed as [E _]; rewrite E, enclosed_unfold.
    rewrite N.eqb_refl, rep_any_last; reflexivity.
  - apply enclosed_group0.
Qed.

Lemma rep_any_finds (r : str) (n : nat) (bef : str) :
  In 125 r -> is_some (rep_greedy anychar 0 None n bef r (closer 125)) = true.
Proof.
  revert n bef; induction r as [|c r IH]; intros n bef; [intros []|].
  intros H; cbn [rep_greedy under andb Nat.leb]; rewrite anychar_ok.
  destruct (rep_greedy anychar 0 None (S n) (c :: bef) r (closer 125)) eqn:E;
    [reflexivity|].
  destruct H as [<- | H].
  - rewrite closer_hit; reflexivity.
  - apply (IH (S n) (c :: bef)) in H; rewrite E in H; discriminate H.
Qed.

Lemma braced_found (s : str) : braced s -> re_search braces_re s <> None.
Proof.
  intros (a & r & -> & Hr) H.
  assert (Hs : is_some (search_from braces_re [] (a ++ 123 :: r)) = true).
  { apply search_reaches.
    destruct patterns_enclosed as [E _]; rewrite E, enclosed_unfold.
    rewrite N.eqb_refl; apply rep_any_finds; exact Hr. }
  unfold re_search in H; rewrite H in Hs; discriminate Hs.
Qed.

End Enclosed.

Section TrailingCommas.
Context {U : UCD}.

(** ** What a trailing-comma removal keeps *)

Lemma sub_go_match (r : regex) (repl bef aft' : str) (c : N) (st : mstate)
    (n : nat) :
  match_at r bef (c :: aft') = Some st ->
  (length (before st) - length bef)%nat = S n ->
  sub_go r repl bef (c :: aft') 0 = repl ++ sub_go r repl (c :: bef) aft' n.
Proof. intros H E; cbn [sub_go]; rewrite H, E; reflexivity. Qed.

Lemma sub_go_nomatch (r : regex) (repl bef aft' : str) (c : N) :
  match_at r bef (c :: aft') = None ->
  sub_go r repl bef (c :: aft') 0 = c :: sub_go r repl (c :: bef) aft' 0.
Proof. intros H; cbn [sub_go]; rewrite H; reflexivity. Qed.

(** One replacement: the comma and the white space go, the closer stays. *)
Lemma sub_comma_step (close : N) (bef aft : str) (st : mstate) :
  match_at (enclosed 44 sp close) bef aft = Some st ->
  exists mid rest, aft = 44 :: mid ++ close :: rest
    /\ blank mid = true
    /\ sub_go (enclosed 44 sp close) [close] bef aft 0
       = close :: sub_go (enclosed 44 sp close) [close]
                   (rev (mid ++ [close]) ++ 44 :: bef) rest 0.
Proof.
  intros H; destruct (enclosed_match _ _ _ _ _ H) as (mid & rest & -> & Hm & E).
  exists mid, rest; split; [reflexivity|]; split.
  - unfold blank; rewrite forallb_forall in *; intros x Hx.
    specialize (Hm x Hx); unfold sp in Hm.
    cbn [atom_ok existsb citem_ok xorb] in Hm; rewrite orb_false_r in Hm.
    exact Hm.
  - rewrite sub_go_match with (st := st) (n := S (length mid));
      [| exact H | rewrite E; cbn [before]; apply enclosed_length].
    replace (mid ++ close :: rest) with ((mid ++ [close]) ++ rest)
        by (rewrite <- app_assoc; reflexivity).
    replace (S (length mid)) with (length (mid ++ [close]))
      by (rewrite length_app; cbn [length]; lia).
    rewrite sub_go_skip; reflexivity.
Qed.

Lemma Thin_del_run (close : N) (run s out : str) :
  forallb droppable run = true ->
  Thin close s (close :: out) -> Thin close (run ++ s) (close :: out).
Proof.
  induction run as [|d run IH]; intros H T; [exact T|].
  cbn [forallb] in H; apply andb_true_iff in H as [Hd H].
  cbn [app]; apply Thin_del; [exact Hd | apply IH; assumption].
Qed.

Lemma blank_droppable (ws : str) :
  blank ws = true -> forallb droppable ws = true.
Proof.
  unfold blank; intros H; rewrite forallb_forall in *; intros x Hx.
  unfold droppable; rewrite (H x Hx); apply orb_true_r.
Qed.

Lemma sub_comma_thin_go (close : N) (n : nat) :
  forall aft bef, (length aft <= n)%nat ->
    Thin close aft (sub_go (enclosed 44 sp close) [close] bef aft 0).
Proof.
  induction n as [|n IH]; intros aft bef Hn.
  - destruct aft; [|cbn [length] in Hn; lia].
    cbn [sub_go]; rewrite enclosed_unfold; constructor.
  - destruct (match_at (enclosed 44 sp close) bef aft) eqn:E.
    + destruct (sub_comma_step _ _ _ E) as (mid & rest & -> & Hb & ->).
      change (44 :: mid ++ close :: rest) with ((44 :: mid) ++ close :: rest).
      apply Thin_del_run.
      * cbn [forallb]; rewrite (blank_droppable _ Hb); reflexivity.
      * apply Thin_keep, IH.
        cbn [length] in Hn; rewrite length_app in Hn; cbn [length] in Hn; lia.
    + destruct aft as [|c aft].
      * cbn [sub_go]; rewrite E; constructor.
      * rewrite sub_go_nomatch by exact E; apply Thin_keep, IH.
        cbn [length] in Hn; lia.
Qed.

Lemma sub_comma_thin (close : N) (s : str) :
  Thin close s (re_sub (enclosed 44 sp close) [close] s).
Proof. apply sub_comma_thin_go with (n := length s); lia. Qed.

(** ** What thinning preserves *)

Lemma Thin_In (close : N) (s out : str) (x : N) :
  Thin close s out -> In x out -> In x s.
Proof.
  induction 1 as [|c s out T IH|d s out Hd T IH]; intros H.
  - exact H.
  - destruct H as [-> | H]; [left; reflexivity | right; auto].
  - right; auto.
Qed.

Lemma Thin_length (close : N) (s out : str) :
  Thin close s out -> (length out <= length s)%nat.
Proof. induction 1; cbn [length] in *; lia. Qed.

Lemma Thin_empty (close : N) (s out : str) :
  Thin close s out -> (out = [] <-> s = []).
Proof. destruct 1; split; (reflexivity || discriminate). Qed.

Lemma Thin_startswith (close : N) (k s out : str) :
  ~ In close k -> Thin close s out ->
  startswith out k = true -> startswith s k = true.
Proof.
  revert s out; induction k as [|a k IH]; intros s out Hc T H.
  - apply startswith_nil.
  - inversion T as [|c s' out' T' E1 E2|d s' out' Hd T' E1 E2]; subst.
    + discriminate H.
    + rewrite startswith_cons in *; apply andb_true_iff in H as [Ha H].
      rewrite Ha; cbn [andb]; apply (IH s' out'); [|assumption..].
      intros Hi; apply Hc; right; exact Hi.
    + rewrite startswith_cons in H; apply andb_true_iff in H as [Ha _].
      apply N.eqb_eq in Ha; subst a; destruct Hc; left; reflexivity.
Qed.

Lemma Thin_contains (close : N) (k s out : str) :
  ~ In close k -> Thin close s out ->
  contains s k = false -> contains out k = false.
Proof.
  intros Hc; induction 1 as [|c s out T IH|d s out Hd T IH]; intros H.
  - exact H.
  - rewrite contains_cons in *; apply orb_false_iff in H as [H1 H2].
    rewrite (IH H2), orb_false_r.
    destruct (startswith (c :: out) k) eqn:S; [|reflexivity].
    apply Thin_startswith with (close := close) (s := c :: s) in S;
      [congruence | exact Hc | apply Thin_keep; exact T].
  - rewrite contains_cons in H; apply orb_false_iff in H as [_ H2]; auto.
Qed.

Lemma Thin_hd_solid (close : N) (s out : str) :
  isspace close = false -> Thin close s out ->
  hd_solid s = true -> hd_solid out = true.
Proof.
  intros Hc T H; destruct T; cbn [hd_solid] in *;
    [reflexivity | exact H | rewrite Hc; reflexivity].
Qed.

Lemma hd_rev_snoc (l : str) (c : N) :
  hd_solid (rev (c :: l)) = match l with [] => hd_solid [c] | _ => hd_solid (rev l) end.
Proof.
  cbn [rev]; destruct l as [|x l]; [reflexivity|].
  destruct (rev (x :: l)) eqn:E; [|reflexivity].
  apply (f_equal (@length N)) in E; rewrite length_rev in E; discriminate E.
Qed.

Lemma Thin_last_solid (close : N) (s out : str) :
  Thin close s out -> hd_solid (rev out) = hd_solid (rev s).
Proof.
  induction 1 as [|c s out T IH|d s out Hd T IH].
  - reflexivity.
  - rewrite !hd_rev_snoc, IH.
    destruct out as [|y out], s as [|x s]; try reflexivity.
    + apply Thin_empty in T; destruct T as [T _]; discriminate (T eq_refl).
    + apply Thin_empty in T; destruct T as [_ T]; discriminate (T eq_refl).
  - rewrite IH, (hd_rev_snoc s d).
    destruct s; [inversion T | reflexivity].
Qed.

Lemma Thin_trimmed (close : N) (s out : str) :
  isspace close = false -> Thin close s out ->
  trimmed s = true -> trimmed out = true.
Proof.
  unfold trimmed; intros Hc T H; apply andb_true_iff in H as [H1 H2].
  rewrite Thin_hd_solid with (close := close) (s := s) by assumption.
  rewrite Thin_last_solid with (close := close) (s := s) by assumption.
  rewrite H2; reflexivity.
Qed.

Lemma Thin_braced (close : N) (s out : str) :
  Thin close s out -> braced out -> braced s.
Proof.
  induction 1 as [|c s out T IH|d s out Hd T IH]; intros (a & r & E & Hr).
  - destruct a; discriminate E.
  - destruct a as [|x a]; cbn [app] in E; injection E as -> ->.
    + exists [], s; split; [reflexivity|].
      apply Thin_In with (close := close) (out := r); assumption.
    + destruct IH as (a' & r' & -> & Hr'); [exists a, r; auto|].
      exists (x :: a'), r'; auto.
  - destruct IH as (a' & r' & -> & Hr'); [exists a, r; auto|].
    exists (d :: a'), r'; auto.
Qed.

Lemma Thin_last (close : N) (s out : str) :
  Thin close s out ->
  forall m c, s = m ++ [c] -> exists m', out = m' ++ [c].
Proof.
  induction 1 as [|x s out T IH|d s out Hd T IH]; intros m c E.
  - destruct m; discriminate E.
  - destruct m as [|y m]; cbn [app] in E; injection E as -> ->.
    + inversion T; subst; exists []; reflexivity.
    + destruct (IH m c eq_refl) as (m' & ->).
      exists (y :: m'); reflexivity.
  - destruct m as [|y m]; cbn [app] in E; injection E as -> ->.
    + inversion T.
    + apply (IH m c eq_refl).
Qed.

(** Thinning keeps the first and the last character when the first is
    neither a comma nor white space. *)
Lemma Thin_ends (close o c : N) (mid out : str) :
  droppable o = false ->
  Thin close (o :: mid ++ [c]) out -> exists mid', out = o :: mid' ++ [c].
Proof.
  intros Ho T; inversion T as [|x s' out' T' E1 E2|d s' out' Hd T' E1 E2]; subst.
  - destruct Thin_last with (close := close) (s := mid ++ [c]) (out := out')
      (m := mid) (c := c) as (m' & ->); [assumption | reflexivity |].
    exists m'; reflexivity.
  - congruence.
Qed.

End TrailingCommas.

Section SecondPass.
Context {U : UCD}.

(** ** Stripping *)

Lemma lstrip_hd_solid (s : str) : hd_solid (lstrip s) = true.
Proof.
  induction s as [|c s IH]; [reflexivity|].
  cbn [lstrip]; destruct (isspace c) eqn:E; [exact IH|].
  cbn [hd_solid]; rewrite E; reflexivity.
Qed.

Lemma hd_solid_lstrip (s : str) : hd_solid s = true -> lstrip s = s.
Proof.
  destruct s as [|c s]; [reflexivity|]; cbn [hd_solid lstrip].
  destruct (isspace c); [discriminate | reflexivity].
Qed.

Lemma lstrip_suffix (s : str) : exists a, s = a ++ lstrip s.
Proof.
  induction s as [|c s (a & IH)]; [exists []; reflexivity|].
  cbn [lstrip]; destruct (isspace c).
  - exists (c :: a); cbn [app]; rewrite <- IH; reflexivity.
  - exists []; reflexivity.
Qed.

Lemma hd_solid_prefix (p q : str) :
  hd_solid (p ++ q) = true -> hd_solid p = true.
Proof. destruct p; [reflexivity | exact (fun H => H)]. Qed.

Lemma strip_unfold (s : str) : strip s = rev (lstrip (rev (lstrip s))).
Proof. reflexivity. Qed.

Lemma strip_trimmed (s : str) : trimmed (strip s) = true.
Proof.
  unfold trimmed; rewrite strip_unfold, rev_involutive, lstrip_hd_solid.
  rewrite andb_true_r.
  destruct (lstrip_suffix (rev (lstrip s))) as (a & E).
  apply (f_equal (@rev N)) in E; rewrite rev_involutive, rev_app_distr in E.
  apply hd_solid_prefix with (q := rev a); rewrite <- E.
  apply lstrip_hd_solid.
Qed.

Lemma trimmed_strip (s : str) : trimmed s = true -> strip s = s.
Proof.
  unfold trimmed; intros H; apply andb_true_iff in H as [H1 H2].
  rewrite strip_unfold, (hd_solid_lstrip _ H1), (hd_solid_lstrip _ H2).
  apply rev_involutive.
Qed.

Lemma strip_within (s : str) : exists a c, s = a ++ strip s ++ c.
Proof.
  destruct (lstrip_suffix s) as (a & Ea).
  destruct (lstrip_suffix (rev (lstrip s))) as (b & Eb).
  apply (f_equal (@rev N)) in Eb; rewrite rev_involutive, rev_app_distr in Eb.
  exists a, (rev b); rewrite strip_unfold, <- Eb; exact Ea.
Qed.

Lemma within_clean (a x c k : str) :
  contains (a ++ x ++ c) k = false -> contains x k = false.
Proof.
  intros H; destruct (contains x k) eqn:E; [|reflexivity].
  apply contains_iff in E as (u & v & ->).
  assert (Hc : contains (a ++ (u ++ k ++ v) ++ c) k = true).
  { apply contains_iff; exists (a ++ u), (v ++ c).
    rewrite <- !app_assoc; reflexivity. }
  congruence.
Qed.

(** ** Replacing the single quotes *)

Lemma replace_requote (s : str) :
  replace_char SQUOTE [DQUOTE] s = map requote s.
Proof.
  unfold replace_char; induction s as [|c s IH]; [reflexivity|].
  cbn [flat_map map]; rewrite IH; unfold requote.
  destruct (c =? SQUOTE); reflexivity.
Qed.

Lemma requote_other (x : N) : (x =? SQUOTE) = false -> requote x = x.
Proof. unfold requote; intros ->; reflexivity. Qed.

Lemma requote_isspace (x : N) : isspace (requote x) = isspace x.
Proof.
  unfold requote; destruct (x =? SQUOTE) eqn:E; [|reflexivity].
  apply N.eqb_eq in E; subst x; reflexivity.
Qed.

Lemma requote_eqb (a b : N) :
  a <> DQUOTE -> a <> SQUOTE -> (a =? requote b) = (a =? b).
Proof.
  intros H1 H2; unfold requote; destruct (b =? SQUOTE) eqn:E; [|reflexivity].
  apply N.eqb_eq in E; subst b.
  apply N.eqb_neq in H1, H2; rewrite H1, H2; reflexivity.
Qed.

Lemma requote_startswith (k s : str) :
  ~ In DQUOTE k -> ~ In SQUOTE k ->
  startswith (map requote s) k = startswith s k.
Proof.
  revert s; induction k as [|a k IH]; intros s H1 H2.
  - rewrite !startswith_nil; reflexivity.
  - destruct s as [|b s]; [reflexivity|].
    cbn [map]; rewrite !startswith_cons, IH, requote_eqb.
    + reflexivity.
    + intros ->; apply H1; left; reflexivity.
    + intros ->; apply H2; left; reflexivity.
    + intros H; apply H1; right; exact H.
    + intros H; apply H2; right; exact H.
Qed.

Lemma requote_contains (k s : str) :
  ~ In DQUOTE k -> ~ In SQUOTE k ->
  contains (map requote s) k = contains s k.
Proof.
  intros H1 H2; induction s as [|c s IH].
  - cbn [map]; reflexivity.
  - change (map requote (c :: s)) with (requote c :: map requote s).
    rewrite !contains_cons, IH.
    change (requote c :: map requote s) with (map requote (c :: s)).
    rewrite requote_startswith by assumption; reflexivity.
Qed.

Lemma requote_hd_solid (s : str) : hd_solid (map requote s) = hd_solid s.
Proof.
  destruct s as [|c s]; [reflexivity|].
  cbn [map hd_solid]; rewrite requote_isspace; reflexivity.
Qed.

Lemma requote_trimmed (s : str) : trimmed (map requote s) = trimmed s.
Proof.
  unfold trimmed; rewrite <- map_rev, !requote_hd_solid; reflexivity.
Qed.

Lemma requote_none (s : str) : ~ In SQUOTE (map requote s).
Proof.
  intros H; apply in_map_iff in H as (x & E & _); unfold requote in E.
  destruct (x =? SQUOTE) eqn:Ex; [discriminate E|].
  apply N.eqb_neq in Ex; congruence.
Qed.

Lemma requote_id (s : str) : ~ In SQUOTE s -> map requote s = s.
Proof.
  induction s as [|c s IH]; intros H; [reflexivity|].
  cbn [map]; rewrite IH, requote_other; [reflexivity | |].
  - apply N.eqb_neq; intros ->; apply H; left; reflexivity.
  - intros Hi; apply H; right; exact Hi.
Qed.

Lemma requote_brace (x c : N) :
  c <> DQUOTE -> requote x = c -> x = c.
Proof.
  unfold requote; destruct (x =? SQUOTE); [congruence | auto].
Qed.

Lemma requote_braced (s : str) : braced (map requote s) -> braced s.
Proof.
  intros (a & r & E & Hr).
  apply map_eq_app in E as (a0 & s1 & -> & <- & E).
  apply map_eq_cons in E as (x & r0 & -> & Ex & <-).
  apply requote_brace in Ex; [subst x | discriminate].
  apply in_map_iff in Hr as (y & Ey & Hy).
  apply requote_brace in Ey; [subst y | discriminate].
  exists a0, r0; auto.
Qed.

End SecondPass.

Section Idempotence.
Context {U : UCD}.

(** ** A second pass of the repair *)

Lemma fix_json_string_unfold (s : str) :
  fix_json_string s
  = drop_trailing_commas
      (replace_char SQUOTE [DQUOTE]
         (extract_braces
            (strip (re_sub fence_re [] (re_sub fence_json_re [] s))))).
Proof. reflexivity. Qed.

Lemma drop_thin (s : str) :
  exists s6, Thin 125 s s6 /\ Thin 93 s6 (drop_trailing_commas s).
Proof.
  exists (re_sub comma_brace_re (py "}") s); split.
  - exact (sub_comma_thin 125 s).
  - exact (sub_comma_thin 93 (re_sub comma_brace_re (py "}") s)).
Qed.

Lemma ends_trimmed (mid : str) : trimmed (123 :: mid ++ [125]) = true.
Proof.
  unfold trimmed; cbn [hd_solid rev]; rewrite rev_app_distr; reflexivity.
Qed.

Lemma TICKS_plain : ~ In 125 TICKS /\ ~ In 93 TICKS /\ ~ In DQUOTE TICKS
  /\ ~ In SQUOTE TICKS.
Proof.
  change TICKS with [96; 96; 96]; cbn [In].
  repeat split; intros [H | [H | [H | []]]]; discriminate H.
Qed.

(** The first five steps do nothing to a settled text. *)
Lemma settled_fixed (t : str) :
  settled t -> fix_json_string t = drop_trailing_commas t.
Proof.
  intros (Hc & Ht & He & Hq); rewrite fix_json_string_unfold.
  rewrite (re_sub_none fence_json_re [] t).
  2:{ apply not_found_without with (k := TICKS); [|exact Hc].
      intros bef aft st H; apply (fence_json_match _ _ H). }
  rewrite (re_sub_none fence_re [] t).
  2:{ apply not_found_without with (k := TICKS); [|exact Hc].
      intros bef aft st H; apply (fence_match _ _ H). }
  rewrite (trimmed_strip _ Ht), He, replace_requote, requote_id by exact Hq.
  reflexivity.
Qed.

Lemma extract_cases (s : str) :
  (exists a c, s = a ++ extract_braces s ++ c)
  /\ ((exists mid, extract_braces s = 123 :: mid ++ [125])
      \/ (extract_braces s = s /\ ~ braced s)).
Proof.
  unfold extract_braces; destruct (re_search braces_re s) as [m|] eqn:E.
  - apply braces_found in E as (a & mid & c & Es & ->); split.
    + exists a, c; exact Es.
    + left; exists mid; reflexivity.
  - split.
    + exists [], []; rewrite app_nil_r; reflexivity.
    + right; split; [reflexivity|].
      intros H; apply braced_found in H; congruence.
Qed.

Lemma drop_settled (s : str) :
  contains s TICKS = false -> trimmed s = true ->
  (exists mid, s = 123 :: mid ++ [125]) \/ ~ braced s ->
  settled (drop_trailing_commas (map requote s)).
Proof.
  intros Hc Ht Hb.
  destruct (drop_thin (map requote s)) as (s6 & T1 & T2).
  destruct TICKS_plain as (K1 & K2 & K3 & K4).
  split; [|split; [|split]].
  - apply Thin_contains with (close := 93) (s := s6); [exact K2 | exact T2|].
    apply Thin_contains with (close := 125) (s := map requote s);
      [exact K1 | exact T1|].
    rewrite requote_contains by assumption; exact Hc.
  - apply Thin_trimmed with (close := 93) (s := s6); [reflexivity | exact T2|].
    apply Thin_trimmed with (close := 125) (s := map requote s);
      [reflexivity | exact T1|].
    rewrite requote_trimmed; exact Ht.
  - destruct Hb as [(mid & ->) | Hb].
    + rewrite map_cons, map_app in T1; cbn [map] in T1.
      change (requote 123) with 123 in T1; change (requote 125) with 125 in T1.
      apply Thin_ends in T1 as (m6 & ->); [|reflexivity].
      apply Thin_ends in T2 as (m7 & ->); [|reflexivity].
      unfold extract_braces.
      destruct (braces_whole m7) as (m & -> & E); exact E.
    + unfold extract_braces.
      destruct (re_search braces_re _) as [m|] eqn:E; [|reflexivity].
      exfalso; apply Hb, requote_braced.
      apply Thin_braced with (close := 125) (out := s6); [exact T1|].
      apply Thin_braced with (close := 93) (out := drop_trailing_commas (map requote s));
        [exact T2|].
      apply braces_found in E as (a & mid & c & -> & _).
      exists a, (mid ++ [125] ++ c); split.
      * cbn [app]; rewrite <- !app_assoc; reflexivity.
      * apply in_or_app; right; left; reflexivity.
  - intros H; apply requote_none with (s := s).
    apply Thin_In with (close := 125) (out := s6); [exact T1|].
    apply Thin_In with (close := 93) (out := drop_trailing_commas (map requote s));
      assumption.
Qed.

(** Every repaired text is settled. *)
Lemma repaired_settled (s : str) : settled (fix_json_string s).
Proof.
  rewrite fix_json_string_unfold, replace_requote.
  set (s2 := re_sub fence_re [] (re_sub fence_json_re [] s)).
  assert (H2 : contains s2 TICKS = false) by apply sub_fence_clean.
  destruct (strip_within s2) as (a & c & E2).
  assert (H3 : contains (strip s2) TICKS = false).
  { rewrite E2 in H2; apply within_clean in H2; exact H2. }
  destruct (extract_cases (strip s2)) as [(a' & c' & E3) Hb].
  apply drop_settled.
  - rewrite E3 in H3; apply within_clean in H3; exact H3.
  - destruct Hb as [(mid & ->) | [-> _]];
      [apply ends_trimmed | apply strip_trimmed].
  - destruct Hb as [Hb | [-> Hb]]; [left; exact Hb | right; exact Hb].
Qed.

(** A second pass only repeats the trailing-comma removals. *)
Lemma second_pass (s : str) :
  fix_json_string (fix_json_string s)
  = drop_trailing_commas (fix_json_string s).
Proof. apply settled_fixed, repaired_settled. Qed.

(** A trailing-comma removal that finds a match returns a shorter text. *)
Lemma sub_comma_shrinks (close : N) (aft bef : str) :
  search_from (enclosed 44 sp close) bef aft <> None ->
  (length (sub_go (enclosed 44 sp close) [close] bef aft 0) < length aft)%nat.
Proof.
  revert bef; induction aft as [|c aft IH]; intros bef H.
  - cbn [search_from] in H; rewrite enclosed_unfold in H; congruence.
  - destruct (match_at (enclosed 44 sp close) bef (c :: aft)) eqn:E.
    + destruct (sub_comma_step _ _ _ E) as (mid & rest & Ea & _ & ->).
      rewrite Ea; cbn [length]; rewrite length_app; cbn [length].
      set (out := sub_go (enclosed 44 sp close) [close]
                    (rev (mid ++ [close]) ++ 44 :: bef) rest 0).
      assert (L : (length out <= length rest)%nat).
      { apply Thin_length with (close := close).
        apply sub_comma_thin_go with (n := length rest); lia. }
      lia.
    + rewrite sub_go_nomatch by exact E.
      cbn [search_from] in H; rewrite E in H.
      specialize (IH _ H); cbn [length]; lia.
Qed.

Lemma re_sub_shrinks (close : N) (s : str) :
  re_found (enclosed 44 sp close) s = true ->
  (length (re_sub (enclosed 44 sp close) [close] s) < length s)%nat.
Proof.
  unfold re_found, re_search; intros H; apply sub_comma_shrinks.
  destruct (search_from _ _ s); [discriminate | discriminate H].
Qed.

Lemma drop_fixed_iff (t : str) :
  drop_trailing_commas t = t <-> trailing_comma t = false.
Proof.
  unfold trailing_comma, drop_trailing_commas; split.
  - intros H; apply (f_equal (@length N)) in H.
    assert (L1 : (length (re_sub comma_brace_re (py "}") t) <= length t)%nat).
    { apply Thin_length with (close := 125); exact (sub_comma_thin 125 t). }
    assert (L2 : (length (re_sub comma_bracket_re (py "]")
                            (re_sub comma_brace_re (py "}") t))
                  <= length (re_sub comma_brace_re (py "}") t))%nat).
    { apply Thin_length with (close := 93).
      exact (sub_comma_thin 93 (re_sub comma_brace_re (py "}") t)). }
    destruct (re_found comma_brace_re t) eqn:E1.
    { apply (re_sub_shrinks 125) in E1.
      change (re_sub (enclosed 44 sp 125) [125] t)
        with (re_sub comma_brace_re (py "}") t) in *.
      change (re_sub (enclosed 44 sp 93) [93])
        with (re_sub comma_bracket_re (py "]")) in *.
      lia. }
    rewrite (re_sub_none _ _ _ E1) in H.
    destruct (re_found comma_bracket_re t) eqn:E2; [|reflexivity].
    apply (re_sub_shrinks 93) in E2.
    change (re_sub (enclosed 44 sp 93) [93])
      with (re_sub comma_bracket_re (py "]")) in *.
    lia.
  - intros H; apply orb_false_iff in H as [E1 E2].
    rewrite (re_sub_none _ _ _ E1), (re_sub_none _ _ _ E2); reflexivity.
Qed.

End Idempotence.

(** C9, counterexample: the trailing-comma removal is a single pass, so of
    two commas in front of a closing brace the first repair removes one and
    the second repair the other. *)
Lemma repair_twice_differs :
  fix_json_string (U := ucd_plain)
    (fix_json_string (U := ucd_plain) (py "{'a': 1,,}"))
  <> fix_json_string (U := ucd_plain) (py "{'a': 1,,}").
Proof. vm_compute; discriminate. Qed.

(** C9 (as amended).  A second pass of the JSON repair returns the result
    of the first exactly when that result has no comma followed, after
    optional white space, by a closing brace or bracket: the trailing-comma
    removals are the only steps a second pass can repeat. *)
Theorem repair_idempotent_iff_no_trailing_comma (U : UCD) (s : str) :
  fix_json_string (fix_json_string s) = fix_json_string s
  <-> trailing_comma (fix_json_string s) = false.
Proof. rewrite second_pass; apply drop_fixed_iff. Qed.

(* ================================================================== *)
(** * 20. Restricted commands: the allow list and the rules *)
(* ================================================================== *)

Section Restricted.
Context {U : UCD} {O : SetOrder}.

Lemma lookup_In (A : Type) (k : str) (d : list (str * A)) :
  is_some (lookup k d) = true -> In k (map fst d).
Proof.
  induction d as [|[k' v] d IH]; cbn [lookup map fst In]; [discriminate|].
  destruct (str_eqb k k') eqn:E; [|auto].
  apply str_eqb_eq in E; auto.
Qed.

Lemma restricted_no_space (b : str) :
  is_some (lookup b RESTRICTED_COMMANDS) = true -> contains b SPACE = false.
Proof.
  intros H; apply lookup_In in H.
  change (map fst RESTRICTED_COMMANDS)
    with [py "sed"; py "awk"; py "perl"; py "curl"; py "wget"; py "tee";
          py "sleep"] in H.
  cbn [In] in H.
  destruct H as [<- | [<- | [<- | [<- | [<- | [<- | [<- | []]]]]]]];
    vm_compute; reflexivity.
Qed.

Lemma single_hit_listed (b : str) (l : list str) :
  contains b SPACE = false -> existsb (single_hit b) l = str_in b l.
Proof.
  intros Hb; unfold str_in; induction l as [|e l IH]; [reflexivity|].
  cbn [existsb]; rewrite IH; f_equal; unfold single_hit.
  destruct (str_eqb b e) eqn:E; [|apply andb_false_r].
  apply str_eqb_eq in E; subst e; rewrite Hb; reflexivity.
Qed.

(** A fragment whose base command has rules is decided by the allow list
    and the rules alone. *)
Lemma restricted_decided (sub original_sub : str) :
  is_some (lookup (_get_base_command sub) RESTRICTED_COMMANDS) = true ->
  allowed_by_list allow_order sub original_sub
  = str_in (_get_base_command sub) UNCONDITIONAL_ALLOW
    && _check_restricted_command original_sub (_get_base_command sub).
Proof.
  intros Hr; rewrite (allowed_by_list_same _ _ _ allow_order_ok).
  unfold allowed_by_list.
  destruct (_get_base_command sub) as [|b0 b] eqn:Hb; [discriminate Hr|].
  assert (Hm : forall e, In e UNCONDITIONAL_ALLOW -> multi_hit sub e = false).
  { intros e He; unfold multi_hit.
    destruct (contains e SPACE) eqn:Hsp; [|reflexivity]; cbn [andb].
    apply not_true_iff_false; intros Hm.
    pose proof (multi_word_not_restricted sub He Hsp Hm) as Hnone.
    rewrite Hb in Hnone; rewrite Hnone in Hr; discriminate Hr. }
  rewrite allow_loop_char by (intros _; exact Hm).
  assert (E1 : existsb (multi_hit sub) UNCONDITIONAL_ALLOW = false).
  { apply not_true_iff_false; intros E.
    apply existsb_exists in E as (e & He & E); rewrite (Hm e He) in E.
    discriminate E. }
  rewrite E1, single_hit_listed by (apply restricted_no_space; exact Hr).
  cbn [orb]; f_equal; unfold restricted_ok.
  destruct (lookup (b0 :: b) RESTRICTED_COMMANDS); [reflexivity | discriminate Hr].
Qed.

End Restricted.

(** A fragment whose base command has rules, and which is not a bare
    assignment, is accepted exactly when the command is an entry of the
    allow list and the fragment passes the rules: so [curl], [wget], [tee]
    and [sleep] follow their rules, and [sed], [awk] and [perl], which are
    no entries, are rejected whatever their arguments. *)
Theorem restricted_follows_list_and_rule (U : UCD) (O : SetOrder) (sub : str) :
  let s := strip sub in
  let t := if startswith s (py "sudo ") then strip (drop 5 s) else s in
  is_some (lookup (_get_base_command t) RESTRICTED_COMMANDS) = true ->
  contains t (py "=") && negb (contains t SPACE) = false ->
  _is_allowed_subcmd sub
  = str_in (_get_base_command t) UNCONDITIONAL_ALLOW
    && _check_restricted_command s (_get_base_command t).
Proof.
  intros s t Hr Ha; unfold _is_allowed_subcmd, _is_allowed_subcmd_in.
  fold s; destruct s as [|x s'] eqn:Es.
  - subst t; vm_compute in Hr; discriminate Hr.
  - fold t; rewrite Ha; apply restricted_decided; exact Hr.
Qed.

Lemma restricted_follows_list_and_rule_witness :
  _is_allowed_subcmd (U := ucd_plain) (O := source_order)
    (py "sudo curl -s -o /tmp/x http://localhost") = false
  /\ _is_allowed_subcmd (U := ucd_plain) (O := source_order)
       (py "curl -sI http://localhost") = true
  /\ _is_allowed_subcmd (U := ucd_plain) (O := source_order)
       (py "awk '{print $1}' f") = false.
Proof.
  split; [|split].
  - rewrite (@restricted_follows_list_and_rule ucd_plain source_order
               (py "sudo curl -s -o /tmp/x http://localhost"));
      vm_compute; reflexivity.
  - rewrite (@restricted_follows_list_and_rule ucd_plain source_order
               (py "curl -sI http://localhost"));
      vm_compute; reflexivity.
  - rewrite (@restricted_follows_list_and_rule ucd_plain source_order
               (py "awk '{print $1}' f"));
      vm_compute; reflexivity.
Defined.

(** The verdict of the gate does not depend on the order in which the
    interpreter visits the allow set and the deny set. *)
Theorem gate_verdict_order_independent (U : UCD) (O O' : SetOrder) (c : str) :
  is_safe_scout_cmd (O := O) c = is_safe_scout_cmd (O := O') c.
Proof. rewrite !is_safe_source_order; reflexivity. Qed.

(** The gate accepts a fragment exactly when [get_safety_reason] has no
    reason for it and its first piece is not a combo-only command. *)
Theorem gate_accepts_iff_no_reason_no_leading_combo (U : UCD) (O : SetOrder)
    (c : str) :
  is_safe_scout_cmd c = true
  <-> get_safety_reason c = None /\ combo_first c = false.
Proof. apply verdict_and_reason. Qed.

(** A second repair of a text only repeats the two removals of trailing
    commas. *)
Theorem second_repair_drops_commas_only (U : UCD) (s : str) :
  fix_json_string (fix_json_string s)
  = drop_trailing_commas (fix_json_string s).
Proof. apply second_pass. Qed.



(** Every key of the table of trivial commands is a trivial query for
    the heuristic as well, whatever the intent. *)
Theorem table_keys_are_trivial (i : Intent) :
  Forall (fun kv => assess_complexity (U := ucd_plain) (fst kv) i = TRIVIAL)
    TRIVIAL_COMMANDS.
Proof. repeat constructor. Qed.

(* ================================================================== *)
(** * 21. When [refine_node] returns *)
(* ================================================================== *)

(** On the model path [refine_node] raises nothing when the intent it
    starts from is well typed: [domains] is absent, a list, a string or a
    false value; [entities] is absent or an object; the [target] entity,
    once the regex entities are merged, is a string or a false value; and
    the declared complexity, if any, is a number. *)
Theorem refine_node_returns (U : UCD) (W : World) (state : AgentState)
    (raw : RawIntent) (d : dict) :
  lookup (lower (strip (query state))) TRIVIAL_COMMANDS = None ->
  llm_intent (query state) = JObject raw ->
  match r_domains raw with
  | RDScalar v => truthy v = false \/ exists s, v = VStr s
  | _ => True
  end ->
  match r_entities raw with
  | REAbsent => d = []
  | REDict d' => d = d'
  | REOther => False
  end ->
  (let target :=
     dict_get (add_regex_entities
                 (extract_entities_from_query (query state)) d) "target" in
   truthy target = false \/ exists t, target = VStr t) ->
  number (match r_complexity raw with Some v => v | None => VInt 2 end)
  <> None ->
  exists state', refine_node state = Ok state'.
Proof.
  intros Hl Hj Hd He Ht Hc; unfold refine_node; rewrite Hl, Hj.
  assert (Ed : exists ds, fix_domains (r_domains raw) = Ok ds).
  { unfold fix_domains; destruct (r_domains raw) as [|v|[|v l]]; cbn [bind].
    - eexists; reflexivity.
    - destruct Hd as [Hv | (s & ->)].
      + rewrite Hv; cbn [negb bind].
        eexists; reflexivity.
      + destruct (negb (truthy (VStr s))); cbn [bind];
          destruct (keep_supported _); eexists; reflexivity.
    - eexists; reflexivity.
    - destruct (keep_supported _); eexists; reflexivity. }
  destruct Ed as (ds & ->); cbn [bind].
  assert (Ee : match r_entities raw with
               | REAbsent => Ok []
               | REDict d' => Ok d'
               | REOther => Raise AttributeError
               end = Ok d).
  { destruct (r_entities raw); [subst d; reflexivity.. | destruct He]. }
  rewrite Ee; cbn [bind].
  set (ents := add_regex_entities _ d) in *.
  assert (Ep : exists ents', promote_target ents = Ok ents').
  { unfold promote_target; cbv zeta in Ht.
    destruct Ht as [Hf | (t & Hs)].
    - rewrite Hf; cbn [bind andb]; eexists; reflexivity.
    - rewrite Hs; destruct (truthy (VStr t)); cbn [bind];
        repeat match goal with
               | |- context [if ?b then _ else _] => destruct b; cbn [bind]
               end; eexists; reflexivity. }
  destruct Ep as (ents' & ->); cbn [bind].
  unfold py_max.
  destruct (number _) as [z|]; [|congruence].
  destruct (Z.ltb z _); cbn [bind]; eexists; reflexivity.
Qed.

Lemma refine_node_returns_witness :
  exists state',
    refine_node (U := ucd_plain) (W := port_world)
      (initial_state (py "端口 8080 被谁占用")) = Ok state'.
Proof.
  apply (@refine_node_returns ucd_plain port_world
           (initial_state (py "端口 8080 被谁占用"))
           (mkRaw (RDList [VStr (py "network"); VStr (py "process")])
                  (REDict [(py "port", VStr (py "8080"))])
                  (Some (VInt 2)))
           [(py "port", VStr (py "8080"))]).
  - vm_compute; reflexivity.
  - vm_compute; reflexivity.
  - exact I.
  - reflexivity.
  - left; vm_compute; reflexivity.
  - vm_compute; discriminate.
Defined.

(* ================================================================== *)
(** * 22. What the JSON repair returns *)
(* ================================================================== *)

Section RepairShape.
Context {U : UCD}.

Lemma sub_go_empty_length (r : regex) (aft bef : str) (skip : nat) :
  (length (sub_go r [] bef aft skip) <= length aft)%nat.
Proof.
  revert bef skip; induction aft as [|c aft IH]; intros bef skip.
  - destruct skip; cbn [sub_go]; [|cbn; lia].
    destruct (match_at r bef []) as [st|]; [|cbn; lia].
    destruct (length (before st) - length bef)%nat; cbn; lia.
  - destruct skip as [|n]; cbn [sub_go].
    + destruct (match_at r bef (c :: aft)) as [st|].
      * destruct (length (before st) - length bef)%nat as [|n];
          cbn [app length].
        -- specialize (IH (c :: bef) 0%nat); lia.
        -- specialize (IH (c :: bef) n); lia.
      * cbn [length]; specialize (IH (c :: bef) 0%nat); lia.
    + cbn [length]; specialize (IH (c :: bef) n); lia.
Qed.

Lemma lstrip_length (s : str) : (length (lstrip s) <= length s)%nat.
Proof.
  destruct (lstrip_suffix s) as (a & E).
  rewrite E at 2; rewrite length_app; lia.
Qed.

Lemma strip_length (s : str) : (length (strip s) <= length s)%nat.
Proof.
  destruct (strip_within s) as (a & c & E).
  rewrite E at 2; rewrite !length_app; lia.
Qed.

Lemma extract_length (s : str) :
  (length (extract_braces s) <= length s)%nat.
Proof.
  destruct (extract_cases s) as [(a & c & E) _].
  rewrite E at 2; rewrite !length_app; lia.
Qed.

Lemma drop_length (s : str) :
  (length (drop_trailing_commas s) <= length s)%nat.
Proof.
  destruct (drop_thin s) as (s6 & T1 & T2).
  apply Thin_length in T1, T2; lia.
Qed.

End RepairShape.

(** The repaired text holds no single quote and no code fence, has no
    white space at its ends, and, when it has an opening brace with a
    closing brace after it, begins with the one and ends with the other. *)
Theorem repair_output_shape (U : UCD) (s : str) :
  ~ In SQUOTE (fix_json_string s)
  /\ contains (fix_json_string s) (py "```") = false
  /\ strip (fix_json_string s) = fix_json_string s
  /\ (braced (fix_json_string s) ->
      exists mid, fix_json_string s = c_ "{" :: mid ++ [c_ "}"]).
Proof.
  destruct (repaired_settled s) as (Hc & Ht & He & Hq).
  split; [exact Hq|]; split; [exact Hc|]; split; [apply trimmed_strip, Ht|].
  intros Hb; apply braced_found in Hb.
  unfold extract_braces in He.
  destruct (re_search braces_re (fix_json_string s)) as [m|] eqn:E;
    [|congruence].
  apply braces_found in E as (a & mid & c & _ & Hg).
  exists mid; rewrite <- He at 1; exact Hg.
Qed.

Lemma repair_output_shape_witness :
  exists mid,
    fix_json_string (U := ucd_plain)
      (py "Sure: ```json" ++ [NL] ++ py "{'a': [1, 2,], }" ++ [NL] ++ py "```")
    = c_ "{" :: mid ++ [c_ "}"].
Proof.
  apply (@repair_output_shape ucd_plain).
  exists [], ([DQUOTE] ++ py "a" ++ [DQUOTE] ++ py ": [1, 2]}"); split;
    [vm_compute; reflexivity|].
  vm_compute; tauto.
Defined.

(** The repair never returns a longer text than it was given. *)
Theorem repair_never_longer (U : UCD) (s : str) :
  (length (fix_json_string s) <= length s)%nat.
Proof.
  rewrite fix_json_string_unfold, replace_requote.
  etransitivity; [apply drop_length|]; rewrite length_map.
  etransitivity; [apply extract_length|].
  etransitivity; [apply strip_length|].
  etransitivity; [apply sub_go_empty_length|].
  apply sub_go_empty_length.
Qed.

(** The texts the repair leaves as they are: those without a code fence,
    without white space at the ends, equal to their own brace extract,
    without a single quote and without a trailing comma. *)
Theorem repair_fixed_points (U : UCD) (s : str) :
  fix_json_string s = s <-> settled s /\ trailing_comma s = false.
Proof.
  split.
  - intros E; assert (Hs : settled s) by (rewrite <- E; apply repaired_settled).
    split; [exact Hs|].
    apply drop_fixed_iff; rewrite <- (settled_fixed Hs); exact E.
  - intros [Hs Ht]; rewrite (settled_fixed Hs); apply drop_fixed_iff, Ht.
Qed.

(* ================================================================== *)
(** * 23. More on the gate *)
(* ================================================================== *)

Section GateMore.
Context {U : UCD} {O : SetOrder}.

Lemma strip_blank_ends (a c b : str) :
  blank a = true -> blank b = true -> strip (a ++ c ++ b) = strip c.
Proof.
  intros Ha Hb; unfold strip, rstrip.
  rewrite lstrip_app, Ha, lstrip_app.
  destruct (blank c) eqn:Hc.
  - rewrite (lstrip_blank _ Hb), (lstrip_blank _ Hc); reflexivity.
  - rewrite rev_app_distr, lstrip_app, blank_rev, Hb; reflexivity.
Qed.

Lemma gate_of_strip (c c' : str) :
  strip c = strip c' ->
  is_safe_scout_cmd c = is_safe_scout_cmd c'
  /\ get_safety_reason c = get_safety_reason c'.
Proof.
  intros E.
  unfold is_safe_scout_cmd, is_safe_scout_cmd_in, get_safety_reason,
    get_safety_reason_in.
  rewrite E; split; reflexivity.
Qed.

Lemma subcmds_ok_allowed (allow : list str) (i : nat) (parts : list str) :
  subcmds_ok allow i parts = true ->
  Forall (fun p => strip p = [] \/ _is_allowed_subcmd_in allow p = true) parts.
Proof.
  revert i; induction parts as [|p parts IH]; intros i H; [constructor|].
  cbn [subcmds_ok] in H.
  destruct (strip p) as [|x s] eqn:Hs.
  - constructor; [left; exact Hs | apply (IH _ H)].
  - destruct (str_in _ COMBO_ONLY_COMMANDS && Nat.eqb i 0); [discriminate H|].
    destruct (_is_allowed_subcmd_in allow (x :: s)) eqn:Ha;
      [|discriminate H].
    constructor; [|apply (IH _ H)].
    right; revert Ha; unfold _is_allowed_subcmd_in; cbv zeta.
    rewrite Hs.
    assert (E : strip (x :: s) = x :: s).
    { rewrite <- Hs; apply trimmed_strip, strip_trimmed. }
    rewrite E; exact (fun H => H).
Qed.

Lemma allowed_listed (sub : str) :
  _is_allowed_subcmd_in UNCONDITIONAL_ALLOW sub = true ->
  listed (after_sudo sub) = true.
Proof.
  unfold _is_allowed_subcmd_in, after_sudo, listed, bare_assignment.
  cbv zeta.
  destruct (strip sub) as [|x s] eqn:Hs; [intros H; discriminate H|].
  set (t := if startswith (x :: s) (py "sudo ") then strip (drop 5 (x :: s))
            else x :: s).
  assert (Hl : allowed_by_list UNCONDITIONAL_ALLOW t (x :: s) = true ->
               str_in (_get_base_command t) UNCONDITIONAL_ALLOW
               || existsb (multi_hit t) UNCONDITIONAL_ALLOW = true).
  { unfold allowed_by_list.
    destruct (_get_base_command t) as [|b0 b] eqn:Hb;
      [intros H; discriminate H|].
    intros H.
    destruct (existsb (multi_hit t) UNCONDITIONAL_ALLOW) eqn:Hm;
      [apply orb_true_r|].
    rewrite orb_false_r.
    apply not_false_iff_true; intros Hn.
    assert (Hnone : allow_loop UNCONDITIONAL_ALLOW t (x :: s) (b0 :: b) = false).
    { clear H; revert Hm Hn; generalize UNCONDITIONAL_ALLOW as l.
      induction l as [|e l IH]; [reflexivity|].
      unfold str_in; cbn [existsb]; intros Hm Hn.
      apply orb_false_iff in Hm as [Hm1 Hm2].
      apply orb_false_iff in Hn as [Hn1 Hn2].
      rewrite allow_loop_cons.
      unfold multi_hit in Hm1.
      destruct (contains e SPACE); cbn [andb] in Hm1.
      - rewrite Hm1; apply IH; assumption.
      - rewrite Hn1; apply IH; assumption. }
    congruence. }
  destruct (contains t (py "=") && negb (contains t SPACE)); cbn [andb].
  - destruct (existsb (fun x => contains t x) _); [intros H; discriminate H|].
    destruct (re_match assign_re t); [reflexivity|].
    cbn [is_some orb]; exact Hl.
  - cbn [orb]; exact Hl.
Qed.

End GateMore.

(** White space around a fragment changes neither the verdict of the gate
    nor the reason; a fragment of white space alone, the empty one
    included, is rejected as an empty command. *)
Theorem gate_ignores_outer_space (U : UCD) (O : SetOrder) (a c b : str) :
  blank a = true -> blank b = true ->
  is_safe_scout_cmd (a ++ c ++ b) = is_safe_scout_cmd c
  /\ get_safety_reason (a ++ c ++ b) = get_safety_reason c
  /\ (blank c = true ->
      is_safe_scout_cmd c = false /\ get_safety_reason c = Some (py "空命令")).
Proof.
  intros Ha Hb.
  destruct (@gate_of_strip U O (a ++ c ++ b) c) as [H1 H2];
    [apply strip_blank_ends; assumption|].
  split; [exact H1|]; split; [exact H2|].
  intros Hc.
  destruct (@gate_of_strip U O c []) as [-> ->]; [|split; reflexivity].
  unfold strip; rewrite (lstrip_blank _ Hc); reflexivity.
Qed.

Lemma gate_ignores_outer_space_witness :
  is_safe_scout_cmd (U := ucd_plain) (O := source_order)
    (py "  " ++ py "ls -la" ++ [NL])
  = is_safe_scout_cmd (U := ucd_plain) (O := source_order) (py "ls -la").
Proof.
  apply (@gate_ignores_outer_space ucd_plain source_order (py "  ")
           (py "ls -la") [NL]); reflexivity.
Defined.

(** The gate only accepts a command whose pieces (between [|] and [&&])
    are each blank, a bare assignment, a fragment whose base command is an
    entry of the allow list, or a fragment that begins with an entry of
    several words. *)
Theorem accepted_pieces_are_listed (U : UCD) (O : SetOrder) (c : str) :
  is_safe_scout_cmd c = true ->
  Forall (fun p => strip p = [] \/ listed (after_sudo p) = true)
    (re_split split_re (strip c)).
Proof.
  rewrite is_safe_source_order; unfold is_safe_scout_cmd_in.
  destruct (strip c) as [|x s]; [discriminate|].
  destruct (negb (_check_dangerous_patterns (x :: s))); [discriminate|].
  destruct (negb (_check_dangerous_commands_in _ (x :: s))); [discriminate|].
  intros H; apply subcmds_ok_allowed in H.
  eapply Forall_impl; [|exact H].
  intros p [Hp | Hp]; [left; exact Hp | right; apply allowed_listed, Hp].
Qed.

Lemma accepted_pieces_are_listed_witness :
  Forall (fun p => strip p = []
                   \/ listed (U := ucd_plain) (after_sudo p) = true)
    (re_split (U := ucd_plain) split_re
       (strip (py "sudo systemctl status nginx | grep -i active && A=1"))).
Proof.
  apply (@accepted_pieces_are_listed ucd_plain source_order).
  vm_compute; reflexivity.
Defined.

(** [validate_command_batch] returns one entry for each command, in order;
    the reason of an entry is the reason of [get_safety_reason], and an
    entry is unsafe without a reason exactly when the command begins with
    a combo-only command and nothing else is wrong with it. *)
Theorem batch_entries (U : UCD) (O : SetOrder) (commands : list str) :
  validate_command_batch commands
  = map (fun c => mkVerdict c (is_safe_scout_cmd c) (get_safety_reason c))
      commands
  /\ Forall (fun v => (v_safe v = false /\ v_reason v = None)
                      <-> (get_safety_reason (v_command v) = None
                           /\ combo_first (v_command v) = true))
       (validate_command_batch commands).
Proof.
  assert (E : forall c,
             (if is_safe_scout_cmd c then None else get_safety_reason c)
             = get_safety_reason c).
  { intros c; destruct (is_safe_scout_cmd c) eqn:H; [|reflexivity].
    apply verdict_and_reason in H as [H _]; symmetry; exact H. }
  split.
  - unfold validate_command_batch; apply map_ext; intros c; cbv zeta.
    rewrite E; reflexivity.
  - unfold validate_command_batch; apply Forall_map, Forall_forall.
    intros c _; cbn [v_safe v_reason v_command]; rewrite E.
    pose proof (verdict_and_reason c) as V.
    destruct (is_safe_scout_cmd c), (get_safety_reason c),
      (combo_first c); intuition congruence.
Qed.

(* ================================================================== *)
(** * 24. The base command of a fragment *)
(* ================================================================== *)

Section BaseCommand.
Context {U : UCD}.

Lemma solid_rev (w : str) : solid (rev w) = solid w.
Proof.
  unfold solid; induction w as [|c w IH]; [reflexivity|].
  cbn [rev forallb]; rewrite forallb_app, IH; cbn [forallb].
  rewrite andb_true_r; apply andb_comm.
Qed.

Lemma split_ws_go_words (s acc : str) :
  solid acc = true ->
  Forall (fun w => solid w = true /\ w <> []) (split_ws_go acc s).
Proof.
  revert acc; induction s as [|c s IH]; intros acc Ha; cbn [split_ws_go].
  - destruct acc as [|a acc]; constructor; [|constructor].
    split; [rewrite solid_rev; exact Ha|].
    intros E; apply (f_equal (@length N)) in E.
    rewrite length_rev in E; discriminate E.
  - destruct (isspace c) eqn:Hc.
    + destruct acc as [|a acc]; [apply IH; reflexivity|].
      constructor; [|apply IH; reflexivity].
      split; [rewrite solid_rev; exact Ha|].
      intros E; apply (f_equal (@length N)) in E.
      rewrite length_rev in E; discriminate E.
    + apply IH; cbn [solid forallb]; rewrite Hc; exact Ha.
Qed.

Lemma split_ws_go_solid (w acc : str) :
  solid w = true -> rev acc ++ w <> [] ->
  split_ws_go acc w = [rev acc ++ w].
Proof.
  revert acc; induction w as [|c w IH]; intros acc Hw Hne; cbn [split_ws_go].
  - rewrite app_nil_r in *; destruct acc; [cbn in Hne; congruence | reflexivity].
  - cbn [solid forallb] in Hw; apply andb_true_iff in Hw as [Hc Hw].
    apply negb_true_iff in Hc; rewrite Hc, IH.
    + cbn [rev]; rewrite <- app_assoc; reflexivity.
    + exact Hw.
    + cbn [rev]; rewrite <- app_assoc; cbn [app].
      intros E; apply app_eq_nil in E as [_ E]; discriminate E.
Qed.

Lemma split_on_go_subset (sep : N) (s acc l : str) :
  In l (split_on_go sep acc s) -> forall x, In x l -> In x acc \/ In x s.
Proof.
  revert acc; induction s as [|c s IH]; intros acc; cbn [split_on_go].
  - intros [<- | []] x Hx; left; apply in_rev; exact Hx.
  - destruct (c =? sep).
    + intros [<- | H] x Hx.
      * left; apply in_rev; exact Hx.
      * destruct (IH [] H x Hx) as [[] | Hs]; right; right; exact Hs.
    + intros H x Hx; destruct (IH _ H x Hx) as [[<- | Ha] | Hs].
      * right; left; reflexivity.
      * left; exact Ha.
      * right; right; exact Hs.
Qed.

Lemma split_on_go_last (sep : N) (s acc : str) :
  In (last (split_on_go sep acc s) []) (split_on_go sep acc s).
Proof.
  assert (H : forall (l : list str) d, l <> [] -> In (last l d) l).
  { induction l as [|a [|b l] IH]; intros d Hl; [congruence | left; reflexivity|].
    right; apply IH; discriminate. }
  apply H; destruct s as [|c s]; cbn [split_on_go]; [discriminate|].
  destruct (c =? sep); [discriminate|].
  clear; revert acc c; induction s as [|d s IH]; intros acc c;
    cbn [split_on_go]; [discriminate|].
  destruct (d =? sep); [discriminate | apply IH].
Qed.

Lemma solid_In (w : str) :
  solid w = true <-> forall x, In x w -> isspace x = false.
Proof.
  unfold solid; rewrite forallb_forall; split; intros H x Hx;
    specialize (H x Hx).
  - apply negb_true_iff; exact H.
  - apply negb_true_iff; exact H.
Qed.

Lemma solid_strip (w : str) : solid w = true -> strip w = w.
Proof.
  intros H; apply trimmed_strip; unfold trimmed.
  assert (Hh : forall v, solid v = true -> hd_solid v = true).
  { intros [|c v] Hv; [reflexivity|].
    cbn [solid forallb] in Hv; apply andb_true_iff in Hv as [Hv _].
    exact Hv. }
  rewrite (Hh w H), (Hh (rev w)); [reflexivity|].
  rewrite solid_rev; exact H.
Qed.

Lemma base_of_clean (b : str) :
  solid b = true -> ~ In (c_ "/") b -> _get_base_command b = b.
Proof.
  intros Hs Hn; unfold _get_base_command; rewrite solid_strip by exact Hs.
  destruct (startswith b (py "sudo ")) eqn:E.
  { apply startswith_iff in E as (r & ->).
    assert (H : isspace 32 = false).
    { apply (proj1 (solid_In _) Hs); apply in_or_app; left.
      vm_compute; tauto. }
    discriminate H. }
  destruct b as [|c b]; [reflexivity|].
  unfold split_ws; rewrite split_ws_go_solid by (exact Hs || discriminate).
  cbn [rev app]; change (py "/") with [c_ "/"].
  rewrite no_single by exact Hn; reflexivity.
Qed.

End BaseCommand.

(** The base command of a fragment holds no white space and no slash, and
    is its own base command. *)
Theorem base_command_is_clean (U : UCD) (cmd : str) :
  solid (_get_base_command cmd) = true
  /\ ~ In (c_ "/") (_get_base_command cmd)
  /\ _get_base_command (_get_base_command cmd) = _get_base_command cmd.
Proof.
  assert (H : solid (_get_base_command cmd) = true
              /\ ~ In (c_ "/") (_get_base_command cmd)).
  { unfold _get_base_command.
    set (c1 := strip cmd).
    set (c2 := if startswith c1 (py "sudo ") then strip (drop 5 c1) else c1).
    pose proof (split_ws_go_words c2 [] eq_refl) as Hw.
    fold (split_ws c2) in Hw.
    destruct (split_ws c2) as [|first_word l]; [split; [reflexivity | intros []]|].
    apply Forall_inv in Hw; destruct Hw as [Hs _].
    destruct (contains first_word (py "/")) eqn:Hc.
    - unfold last_str, split_on.
      pose proof (split_on_go_last (c_ "/") first_word []) as Hl.
      split.
      + apply solid_In; intros x Hx.
        apply (proj1 (solid_In _) Hs).
        destruct split_on_go_subset
          with (sep := c_ "/") (s := first_word) (acc := @nil N)
               (l := last (split_on_go (c_ "/") [] first_word) []) (x := x)
          as [[] | H]; assumption.
      + apply split_on_go_pieces with (s := first_word) (acc := @nil N);
          [intros [] | exact Hl].
    - split; [exact Hs|].
      intros Hx; apply contains_single in Hx.
      change [c_ "/"] with (py "/") in Hx; congruence. }
  destruct H as [Hs Hn]; split; [exact Hs|]; split; [exact Hn|].
  apply base_of_clean; assumption.
Qed.

(* ================================================================== *)
(** * 25. Validation and quoting of the entities *)
(* ================================================================== *)

Section Validated.
Context {U : UCD}.

(** A greedy repetition, with its bounds. *)
Lemma rep_greedy_counted (A : Type) (a : atom) (lo : nat) (hi : option nat)
    (k : str -> str -> option A) (aft : str) (n : nat) (bef : str) (x : A) :
  rep_greedy a lo hi n bef aft k = Some x ->
  exists mid rest, aft = mid ++ rest /\ forallb (atom_ok a) mid = true
    /\ k (rev mid ++ bef) rest = Some x
    /\ (lo <= n + length mid)%nat
    /\ (forall h, hi = Some h -> mid = [] \/ (n + length mid <= h)%nat).
Proof.
  revert n bef; induction aft as [|c aft IH]; intros n bef; cbn [rep_greedy].
  - destruct (Nat.leb lo n) eqn:L; [|discriminate].
    apply Nat.leb_le in L.
    intros H; exists [], []; cbn [length app rev]; repeat split; auto; lia.
  - assert (Hstop : (if Nat.leb lo n then k bef (c :: aft) else None) = Some x ->
      exists mid rest, c :: aft = mid ++ rest /\ forallb (atom_ok a) mid = true
        /\ k (rev mid ++ bef) rest = Some x
        /\ (lo <= n + length mid)%nat
        /\ (forall h, hi = Some h -> mid = [] \/ (n + length mid <= h)%nat)).
    { destruct (Nat.leb lo n) eqn:L; [|discriminate].
      apply Nat.leb_le in L.
      intros H; exists [], (c :: aft); cbn [length app rev];
        repeat split; auto; lia. }
    destruct (under hi n && atom_ok a c) eqn:E; [|exact Hstop].
    destruct (rep_greedy a lo hi (S n) (c :: bef) aft k) eqn:R; [|exact Hstop].
    intros [= <-]; apply IH in R as (mid & rest & -> & Hm & Hk & Hlo & Hhi).
    apply andb_true_iff in E as [Eu E].
    exists (c :: mid), rest; cbn [app forallb rev length].
    rewrite E, Hm, <- app_assoc.
    split; [reflexivity|]; split; [reflexivity|]; split; [exact Hk|].
    split; [lia|].
    intros h Hh; right; destruct (Hhi h Hh) as [-> | Hle]; [|lia].
    subst hi; cbn [under] in Eu; apply Nat.ltb_lt in Eu; cbn [length]; lia.
Qed.

(** A run of matching characters within the bounds, up to the end of the
    text, is taken whole. *)
Lemma rep_greedy_whole (a : atom) (lo : nat) (hi : option nat)
    (g : list (nat * str)) (w : str) (n : nat) (bef : str) :
  forallb (atom_ok a) w = true ->
  (lo <= n + length w)%nat ->
  (forall h, hi = Some h -> (n + length w <= h)%nat) ->
  rep_greedy a lo hi n bef w
    (fun b a' => rmatch Eol (MState b a' g) (fun st => Some st))
  = Some (MState (rev w ++ bef) [] g).
Proof.
  revert n bef; induction w as [|c w IH]; intros n bef Hw Hlo Hhi;
    cbn [rep_greedy].
  - cbn [length] in Hlo; rewrite Nat.add_0_r in Hlo.
    apply Nat.leb_le in Hlo; rewrite Hlo; reflexivity.
  - cbn [forallb] in Hw; apply andb_true_iff in Hw as [Hc Hw].
    cbn [length] in Hlo, Hhi.
    assert (Hu : under hi n = true).
    { destruct hi as [h|]; [|reflexivity].
      specialize (Hhi h eq_refl); cbn [under]; apply Nat.ltb_lt; lia. }
    rewrite Hu, Hc; cbn [andb].
    rewrite IH; [| exact Hw | lia | intros h Hh; specialize (Hhi h Hh); lia].
    cbn [rev]; rewrite <- app_assoc; reflexivity.
Qed.

(** The three patterns have one shape: the whole text is a run of
    characters of a class. *)
Lemma class_match_iff (a : atom) (hi : option nat) (s : str) :
  trimmed s = true ->
  is_some (re_match (seq [Bol; Rep a 1 hi; Eol]) s) = true
  <-> s <> [] /\ forallb (atom_ok a) s = true
      /\ (forall h, hi = Some h -> (length s <= h)%nat).
Proof.
  intros Ht; unfold re_match, match_at.
  change (rmatch (seq [Bol; Rep a 1 hi; Eol]) (MState [] s [])
            (fun st => Some st))
    with (rep_greedy a 1 hi 0 [] s
            (fun b a' => rmatch Eol (MState b a' []) (fun st => Some st))).
  split.
  - destruct (rep_greedy a 1 hi 0 [] s _) as [st|] eqn:R;
      [|intros H; discriminate H].
    intros _.
    apply rep_greedy_counted in R as (mid & rest & -> & Hm & Hk & Hlo & Hhi).
    assert (rest = []).
    { destruct rest as [|c [|d rest]]; [reflexivity | | discriminate Hk].
      cbn [rmatch after] in Hk.
      destruct (c =? NL) eqn:E; [|discriminate Hk].
      apply N.eqb_eq in E; subst c.
      unfold trimmed in Ht; apply andb_true_iff in Ht as [_ Ht].
      rewrite rev_app_distr in Ht; discriminate Ht. }
    subst rest; rewrite app_nil_r.
    split; [|split; [exact Hm|]].
    + intros ->; cbn [length] in Hlo; lia.
    + intros h Hh; destruct (Hhi h Hh) as [-> | H]; [cbn; lia | lia].
  - intros (Hne & Hs & Hhi).
    rewrite rep_greedy_whole;
      [reflexivity | exact Hs | | exact Hhi].
    destruct s; [congruence | cbn [length]; lia].
Qed.

Lemma class_ok (l : str) (c : N) :
  existsb (fun i => citem_ok i c) (alnum_items ++ map CChar l)
  = ascii_alnum c || existsb (N.eqb c) l.
Proof.
  rewrite existsb_app; f_equal.
  - unfold ascii_alnum, ascii_lower, ascii_upper, ascii_digit, alnum_items.
    cbn [existsb citem_ok]; rewrite orb_false_r, orb_assoc; reflexivity.
  - induction l as [|x l IH]; [reflexivity|].
    cbn [map existsb citem_ok]; rewrite IH; reflexivity.
Qed.

Lemma name_char_ok (c : N) :
  atom_ok (ASet false (alnum_items ++ map CChar (py "._:@+-"))) c
  = name_char c.
Proof. cbn [atom_ok xorb]; apply class_ok. Qed.

Lemma path_char_ok (c : N) :
  atom_ok (ASet false (alnum_items ++ map CChar (py "._/~@+-"))) c
  = path_char c.
Proof. cbn [atom_ok xorb]; apply class_ok. Qed.

Lemma forallb_same (A : Type) (f g : A -> bool) (l : list A) :
  (forall x, f x = g x) -> forallb f l = forallb g l.
Proof.
  intros H; induction l as [|x l IH]; [reflexivity|].
  cbn [forallb]; rewrite H, IH; reflexivity.
Qed.

Lemma stripped_text (v : pyval) :
  trimmed (match v with VNone => [] | _ => strip (py_str v) end) = true.
Proof. destruct v; try apply strip_trimmed; reflexivity. Qed.

Lemma validated_iff (a : atom) (hi : option nat) (s t : str) :
  trimmed s = true ->
  match s with
  | [] => None
  | _ => match re_match (seq [Bol; Rep a 1 hi; Eol]) s with
         | Some _ => Some s
         | None => None
         end
  end = Some t
  <-> t = s /\ s <> [] /\ forallb (atom_ok a) s = true
      /\ (forall h, hi = Some h -> (length s <= h)%nat).
Proof.
  intros Ht; pose proof (@class_match_iff a hi s Ht) as M.
  destruct s as [|x s'].
  - split; [discriminate | intros (_ & H & _); congruence].
  - destruct (re_match (seq [Bol; Rep a 1 hi; Eol]) (x :: s')).
    + destruct M as [M _]; destruct (M eq_refl) as (H1 & H2 & H3).
      split; [intros [= <-]; auto | intros (-> & _); reflexivity].
    + split; [discriminate|].
      intros (_ & H); apply M in H; discriminate H.
Qed.

Lemma text_of (v : pyval) :
  (v = VNone /\ match v with VNone => [] | _ => strip (py_str v) end = [])
  \/ (v <> VNone
      /\ match v with VNone => [] | _ => strip (py_str v) end
         = strip (py_str v)).
Proof. destruct v; [left; split; reflexivity | right; split; congruence..]. Qed.

End Validated.

(** [safe_name] returns the stripped text of its argument, and only when
    that text has 1 to 128 characters, all of them ASCII letters, digits
    or among [._:@+-]; [None] itself is never a name. *)
Theorem safe_name_spec (U : UCD) (v : pyval) (t : str) :
  safe_name v = Some t
  <-> v <> VNone /\ t = strip (py_str v) /\ t <> []
      /\ (length t <= 128)%nat /\ forallb name_char t = true.
Proof.
  unfold safe_name; cbv zeta.
  change SAFE_NAME_REGEX
    with (seq [Bol; Rep (ASet false (alnum_items ++ map CChar (py "._:@+-")))
                      1 (Some 128%nat); Eol]).
  rewrite validated_iff by apply stripped_text.
  rewrite (@forallb_same _ _ _ _ (@name_char_ok U)).
  destruct (text_of v) as [[-> E] | [Hv E]].
  - split; [intros (_ & H & _) | intros (H & _)]; congruence.
  - rewrite E; split.
    + intros (-> & Hne & Hc & Hl).
      split; [exact Hv|]; split; [reflexivity|]; split; [exact Hne|].
      split; [apply Hl; reflexivity | exact Hc].
    + intros (_ & -> & Hne & Hl & Hc).
      split; [reflexivity|]; split; [exact Hne|]; split; [exact Hc|].
      intros h [= <-]; exact Hl.
Qed.

(** [safe_path] returns the stripped text of its argument, and only when
    that text is not empty and all its characters are ASCII letters,
    digits or among [._/~@+-]. *)
Theorem safe_path_spec (U : UCD) (v : pyval) (t : str) :
  safe_path v = Some t
  <-> v <> VNone /\ t = strip (py_str v) /\ t <> []
      /\ forallb path_char t = true.
Proof.
  unfold safe_path; cbv zeta.
  change SAFE_PATH_REGEX
    with (seq [Bol; Rep (ASet false (alnum_items ++ map CChar (py "._/~@+-")))
                      1 None; Eol]).
  rewrite validated_iff by apply stripped_text.
  rewrite (@forallb_same _ _ _ _ (@path_char_ok U)).
  destruct (text_of v) as [[-> E] | [Hv E]].
  - split; [intros (_ & H & _) | intros (H & _)]; congruence.
  - rewrite E; split.
    + intros (-> & Hne & Hc & _).
      split; [exact Hv|]; split; [reflexivity|]; split; assumption.
    + intros (_ & -> & Hne & Hc).
      split; [reflexivity|]; split; [exact Hne|]; split; [exact Hc|].
      intros h Hh; discriminate Hh.
Qed.

Section PortAndQuote.
Context {U : UCD}.

Lemma int_go_digits (s : str) (acc : N) :
  forallb is_digit s = true -> exists n, int_go acc s = Some n.
Proof.
  revert acc; induction s as [|c s IH]; intros acc H; cbn [int_go].
  - exists acc; reflexivity.
  - cbn [forallb] in H; apply andb_true_iff in H as [Hc H].
    unfold is_digit in Hc; destruct (decimal c); [apply IH, H | discriminate].
Qed.

Lemma port_match_iff (s : str) :
  trimmed s = true ->
  is_some (re_match SAFE_PORT_REGEX s) = true
  <-> s <> [] /\ forallb is_digit s = true /\ (length s <= 5)%nat.
Proof.
  intros Ht; unfold SAFE_PORT_REGEX.
  pose proof (@class_match_iff U ADigit (Some 5%nat) s Ht) as M.
  cbn [atom_ok] in M; split.
  - intros H; apply M in H as (H1 & H2 & H3).
    split; [exact H1|]; split; [exact H2|].
    apply H3; reflexivity.
  - intros (H1 & H2 & H3); apply M.
    split; [exact H1|]; split; [exact H2|].
    intros h [= <-]; exact H3.
Qed.

Lemma plain_char_ok (c : N) : negb (atom_ok unsafe_char c) = plain_char c.
Proof.
  unfold plain_char; rewrite <- class_ok.
  unfold unsafe_char; cbn [atom_ok].
  destruct (existsb _ _); reflexivity.
Qed.

Lemma plain_not_quote (c : N) :
  plain_char c = true -> (c =? SQUOTE) = false /\ (c =? DQUOTE) = false.
Proof.
  intros H; split; apply N.eqb_neq; intros ->; vm_compute in H;
    discriminate H.
Qed.

Lemma sh_word_plain (s : str) :
  forallb plain_char s = true -> sh_word Unquoted s = Some s.
Proof.
  induction s as [|c s IH]; intros H; [reflexivity|].
  cbn [forallb] in H; apply andb_true_iff in H as [Hc H].
  destruct (plain_not_quote _ Hc) as [H1 H2].
  cbn [sh_word]; rewrite H1, H2, Hc, (IH H); reflexivity.
Qed.

Lemma sh_word_single (s rest : str) :
  sh_word InSingle
    (replace_char SQUOTE [SQUOTE; DQUOTE; SQUOTE; DQUOTE; SQUOTE] s
       ++ SQUOTE :: rest)
  = option_map (app s) (sh_word Unquoted rest).
Proof.
  unfold replace_char; induction s as [|c s IH].
  - cbn [flat_map app sh_word]; rewrite N.eqb_refl.
    destruct (sh_word Unquoted rest); reflexivity.
  - cbn [flat_map]; destruct (c =? SQUOTE) eqn:E.
    + apply N.eqb_eq in E; subst c.
      rewrite <- app_assoc.
      change ([SQUOTE; DQUOTE; SQUOTE; DQUOTE; SQUOTE] ++ ?x)
        with (SQUOTE :: DQUOTE :: SQUOTE :: DQUOTE :: SQUOTE :: x).
      cbn [app].
      change (sh_word InSingle (SQUOTE :: DQUOTE :: SQUOTE :: DQUOTE :: SQUOTE
                :: ?x))
        with (option_map (cons SQUOTE) (sh_word InSingle x)).
      rewrite IH; destruct (sh_word Unquoted rest); reflexivity.
    + rewrite <- app_assoc; cbn [app sh_word]; rewrite E, IH.
      destruct (sh_word Unquoted rest); reflexivity.
Qed.

Lemma shlex_quote_read (s : str) : sh_word Unquoted (shlex_quote s) = Some s.
Proof.
  unfold shlex_quote; destruct s as [|c s]; [reflexivity|].
  rewrite (@forallb_same _ _ _ _ plain_char_ok).
  destruct (forallb plain_char (c :: s)) eqn:E; [apply sh_word_plain, E|].
  change ([SQUOTE] ++ ?x) with (SQUOTE :: x).
  cbn [sh_word]; rewrite N.eqb_refl.
  change (?x ++ [SQUOTE]) with (x ++ SQUOTE :: []).
  rewrite sh_word_single; cbn [sh_word option_map]; rewrite app_nil_r.
  reflexivity.
Qed.

Lemma safe_port_text (s : str) :
  trimmed s = true ->
  let r := match re_match SAFE_PORT_REGEX s with
           | Some _ =>
             match py_int s with
             | Some n =>
               if (0 <? n) && (n <? 65536) then Ok (Some s) else Ok None
             | None => Raise ValueError
             end
           | None => Ok None
           end in
  (forall e, r <> Raise e)
  /\ forall t,
       r = Ok (Some t)
       <-> t = s /\ t <> [] /\ (length t <= 5)%nat
           /\ forallb is_digit t = true
           /\ exists n, py_int t = Some n /\ 0 < n < 65536.
Proof.
  intros Ht; pose proof (@port_match_iff s Ht) as M; cbv zeta.
  destruct (re_match SAFE_PORT_REGEX s) as [st|].
  - destruct M as [M _]; destruct (M eq_refl) as (Hne & Hd & Hl).
    assert (Hi : exists n, py_int s = Some n).
    { unfold py_int; destruct s; [congruence | apply int_go_digits, Hd]. }
    destruct Hi as (n & Hi); rewrite Hi.
    destruct ((0 <? n) && (n <? 65536)) eqn:B.
    + split; [discriminate|].
      apply andb_true_iff in B as [B1 B2].
      apply N.ltb_lt in B1, B2.
      intros t; split.
      * intros [= <-]; repeat (split; try assumption).
        exists n; auto.
      * intros (-> & _); reflexivity.
    + split; [discriminate|].
      intros t; split; [discriminate|].
      intros (-> & _ & _ & _ & n' & Hn' & B1 & B2).
      rewrite Hi in Hn'; injection Hn' as <-.
      apply N.ltb_lt in B1, B2; rewrite B1, B2 in B; discriminate B.
  - split; [discriminate|].
    intros t; split; [discriminate|].
    intros (-> & Hne & Hl & Hd & _).
    destruct M as [_ M]; assert (F : false = true); [|discriminate F].
    apply M; auto.
Qed.

End PortAndQuote.

(** [safe_port] raises nothing, and returns the stripped text of its
    argument exactly when that text has 1 to 5 decimal digits whose value
    is between 1 and 65535. *)
Theorem safe_port_spec (U : UCD) (v : pyval) :
  (forall e, safe_port v <> Raise e)
  /\ forall t,
       safe_port v = Ok (Some t)
       <-> v <> VNone /\ t = strip (py_str v)
           /\ t <> [] /\ (length t <= 5)%nat /\ forallb is_digit t = true
           /\ exists n, py_int t = Some n /\ 0 < n < 65536.
Proof.
  unfold safe_port; cbv zeta.
  destruct (text_of v) as [[-> E] | [Hv E]].
  - split; [intros e H; vm_compute in H; discriminate H|].
    intros t; split; [intros H; vm_compute in H; discriminate H|].
    intros (H & _); congruence.
  - rewrite E.
    destruct (@safe_port_text U (strip (py_str v)) (strip_trimmed _))
      as [R1 R2].
    split; [exact R1|].
    intros t; rewrite R2; tauto.
Qed.


(** [shlex.quote] maps different texts to different words. *)
Theorem shlex_quote_injective (U : UCD) (s s' : str) :
  shlex_quote s = shlex_quote s' -> s = s'.
Proof.
  intros E; pose proof (shlex_quote_read s) as H.
  rewrite E, shlex_quote_read in H; injection H as H; symmetry; exact H.
Qed.

Lemma shlex_quote_injective_witness :
  py "a'b c" = [97; 39; 98; 32; 99].
Proof.
  apply (@shlex_quote_injective ucd_plain); vm_compute; reflexivity.
Defined.

(* ================================================================== *)
(** * 26. More on the planner *)
(* ================================================================== *)

Section PlannerMore.
Context {U : UCD}.




Lemma q_stringly (entities : dict) (k : string) :
  stringly entities = true ->
  truthy (dict_get entities k) = true ->
  exists s, dict_get entities k = VStr s.
Proof.
  unfold dict_get, stringly; intros Hs.
  generalize (py k) as key; intros key.
  induction entities as [|[k' v] d IH]; cbn [lookup]; [discriminate|].
  cbn [forallb snd] in Hs; apply andb_true_iff in Hs as [Hv Hs].
  destruct (str_eqb key k'); [|apply IH, Hs].
  destruct v; try discriminate; intros _; eexists; reflexivity.
Qed.

Lemma or_stringly (entities : dict) (k1 k2 : string) :
  stringly entities = true ->
  truthy (py_or (dict_get entities k1) (dict_get entities k2)) = true ->
  exists s, py_or (dict_get entities k1) (dict_get entities k2) = VStr s.
Proof.
  intros Hs; unfold py_or.
  destruct (truthy (dict_get entities k1)) eqn:E.
  - intros _; apply q_stringly; assumption.
  - apply q_stringly; assumption.
Qed.

End PlannerMore.



(** When every entity is a string or [None], the planner raises nothing:
    only [shlex.quote] can raise, on a value that is no string. *)
Theorem planner_returns_on_strings (U : UCD) (domains : list str)
    (entities : dict) (q0 : str) (c : TaskComplexity) :
  stringly entities = true ->
  exists cmds, get_scout_commands domains entities q0 c = Ok cmds.
Proof.
  intros Hs.
  assert (Q : forall k, truthy (dict_get entities k) = true ->
                        exists s, q (dict_get entities k) = Ok s).
  { intros k Hk; destruct (q_stringly entities k Hs Hk) as (s & ->).
    eexists; reflexivity. }
  assert (Q2 : forall k1 k2,
             truthy (py_or (dict_get entities k1) (dict_get entities k2)) = true ->
             exists s, q (py_or (dict_get entities k1) (dict_get entities k2))
                       = Ok s).
  { intros k1 k2 Hk; destruct (or_stringly entities k1 k2 Hs Hk) as (s & ->).
    eexists; reflexivity. }
  assert (M : forall d method, In (d, method) domain_methods ->
                exists l, method entities q0 = Ok l).
  { intros d method Hin; unfold domain_methods in Hin; cbn [In] in Hin.
    destruct Hin as [H|[H|[H|[H|[H|[H|[H|[H|[H|[H|[]]]]]]]]]]];
      injection H as _ <-.
    - unfold file_commands; cbv zeta.
      destruct (truthy (dict_get entities "path")) eqn:E1.
      + destruct (Q _ E1) as (s & ->); cbn [bind andb negb].
        rewrite andb_false_r; cbn [bind]; eexists; reflexivity.
      + cbn [bind negb]; rewrite andb_true_r.
        destruct (truthy (py_or _ _)) eqn:E2.
        * destruct (Q2 _ _ E2) as (s & ->); cbn [bind]; eexists; reflexivity.
        * cbn [bind]; eexists; reflexivity.
    - unfold process_commands; cbv zeta.
      destruct (truthy (dict_get entities "pid")); cbn [bind];
        [eexists; reflexivity|].
      destruct (truthy (py_or _ _)) eqn:E2.
      + destruct (Q2 _ _ E2) as (s & ->); cbn [bind]; eexists; reflexivity.
      + destruct (truthy (dict_get entities "port")); cbn [bind];
          eexists; reflexivity.
    - unfold network_commands; cbv zeta.
      destruct (truthy (py_or _ _) && negb (truthy (dict_get entities "ip")))
        eqn:E2.
      + apply andb_true_iff in E2 as [E2 _].
        destruct (Q2 _ _ E2) as (s & ->); cbn [bind]; eexists; reflexivity.
      + cbn [bind]; eexists; reflexivity.
    - unfold service_commands; cbv zeta.
      destruct (truthy (py_or _ _)); [|eexists; reflexivity].
      destruct (safe_name _); eexists; reflexivity.
    - eexists; reflexivity.
    - eexists; reflexivity.
    - unfold storage_commands; cbv zeta.
      destruct (truthy (dict_get entities "path")) eqn:E1.
      + destruct (Q _ E1) as (s & ->); cbn [bind].
        destruct (truthy (dict_get entities "target")) eqn:E2.
        * destruct (Q _ E2) as (s2 & ->); cbn [bind]; eexists; reflexivity.
        * cbn [bind]; eexists; reflexivity.
      + cbn [bind].
        destruct (truthy (dict_get entities "target")) eqn:E2.
        * destruct (Q _ E2) as (s2 & ->); cbn [bind]; eexists; reflexivity.
        * cbn [bind]; eexists; reflexivity.
    - unfold container_commands; cbv zeta.
      destruct (truthy (py_or _ _)) eqn:E2.
      + destruct (Q2 _ _ E2) as (s & ->); cbn [bind]; eexists; reflexivity.
      + cbn [bind]; eexists; reflexivity.
    - unfold user_commands; cbv zeta.
      destruct (truthy (py_or _ _)) eqn:E2.
      + destruct (Q2 _ _ E2) as (s & ->); cbn [bind].
        destruct (truthy (dict_get entities "path")) eqn:E1.
        * destruct (Q _ E1) as (s1 & ->); cbn [bind]; eexists; reflexivity.
        * cbn [bind]; eexists; reflexivity.
      + cbn [bind].
        destruct (truthy (dict_get entities "path")) eqn:E1.
        * destruct (Q _ E1) as (s1 & ->); cbn [bind]; eexists; reflexivity.
        * cbn [bind]; eexists; reflexivity.
    - unfold log_commands; cbv zeta.
      destruct (truthy (py_or _ _)); [|eexists; reflexivity].
      destruct (safe_name _); eexists; reflexivity. }
  assert (C : exists cmd_set, collect domains entities q0 c = Ok cmd_set).
  { induction domains as [|d ds (l & IH)]; cbn [collect];
      [eexists; reflexivity|].
    destruct (lookup d domain_methods) as [method|] eqn:L;
      [|exists l; exact IH].
    assert (Hin : exists d', In (d', method) domain_methods).
    { clear - L; revert L; generalize domain_methods as dm.
      induction dm as [|[k m] dm IHd]; cbn [lookup]; [discriminate|].
      destruct (str_eqb d k).
      - intros [= <-]; exists k; left; reflexivity.
      - intros H; destruct (IHd H) as (d' & H'); exists d'; right; exact H'. }
    destruct Hin as (d' & Hin); destruct (M d' method Hin) as (l' & ->).
    cbn [bind]; rewrite IH; cbn [bind]; eexists; reflexivity. }
  destruct C as (cmd_set & C); unfold get_scout_commands.
  destruct c; [eexists; reflexivity | | |]; rewrite C; cbn [bind];
    eexists; reflexivity.
Qed.

Lemma planner_returns_on_strings_witness :
  exists cmds,
    get_scout_commands (U := ucd_plain) [py "file"; py "storage"]
      [(py "path", VStr (py "/tmp/my file")); (py "target", VNone)]
      (py "how big is it") MODERATE = Ok cmds.
Proof.
  apply (@planner_returns_on_strings ucd_plain); reflexivity.
Defined.

(* ================================================================== *)
(** * 27. The entities of the intent *)
(* ================================================================== *)

Lemma str_eqb_sym (a b : str) : str_eqb a b = str_eqb b a.
Proof.
  destruct (str_eqb a b) eqn:E.
  - apply str_eqb_eq in E; subst; symmetry; apply str_eqb_refl.
  - destruct (str_eqb b a) eqn:E'; [|reflexivity].
    apply str_eqb_eq in E'; subst; rewrite str_eqb_refl in E; discriminate E.
Qed.

(** A value that was set is the value found. *)
Lemma lookup_set_same (d : dict) (k : str) (v : pyval) :
  lookup k (dict_set d k v) = Some v.
Proof.
  induction d as [|[k' v'] d IH]; cbn [dict_set lookup].
  - rewrite str_eqb_refl; reflexivity.
  - destruct (str_eqb k k') eqn:E; cbn [lookup];
      [rewrite str_eqb_refl; reflexivity|].
    rewrite E; exact IH.
Qed.

(** Setting a key leaves the other keys as they are. *)
Lemma lookup_set_other (d : dict) (k k0 : str) (v : pyval) :
  str_eqb k0 k = false -> lookup k0 (dict_set d k v) = lookup k0 d.
Proof.
  intros Hk; induction d as [|[k' v'] d IH]; cbn [dict_set lookup].
  - rewrite Hk; reflexivity.
  - destruct (str_eqb k k') eqn:E; cbn [lookup].
    + apply str_eqb_eq in E; subst k'; rewrite Hk; reflexivity.
    + rewrite IH; reflexivity.
Qed.

(** When the regex entities are merged into those of the model, a value
    of the model that is not false stays; where the model has none, the
    first regex value that is not false is taken; other keys are not
    touched. *)
Theorem model_entities_take_precedence (regex_entities entities : dict)
    (k : str) :
  entity (add_regex_entities regex_entities entities) k
  = if truthy (entity entities k) then entity entities k
    else match regex_value regex_entities k with
         | Some v => v
         | None => entity entities k
         end.
Proof.
  revert entities; induction regex_entities as [|[key value] rest IH];
    intros entities; cbn [add_regex_entities].
  - unfold regex_value; cbn [find option_map].
    destruct (truthy (entity entities k)); reflexivity.
  - rewrite IH; unfold regex_value; cbn [find fst snd].
    fold (entity entities key).
    destruct (str_eqb k key) eqn:Ek.
    + apply str_eqb_eq in Ek; subst key.
      destruct (truthy (entity entities k)) eqn:Eo.
      * rewrite andb_false_r, Eo; reflexivity.
      * rewrite andb_true_r; destruct (truthy value) eqn:Ev; cbn [andb].
        -- unfold entity at 1 2; rewrite lookup_set_same, Ev.
           cbn [option_map snd]; reflexivity.
        -- rewrite Eo; reflexivity.
    + cbn [andb].
      assert (E : entity (if truthy value && negb (truthy (entity entities key))
                          then dict_set entities key value else entities) k
                  = entity entities k).
      { destruct (truthy value && negb (truthy (entity entities key)));
          [|reflexivity].
        unfold entity; rewrite lookup_set_other by exact Ek; reflexivity. }
      rewrite E; reflexivity.
Qed.

(* ================================================================== *)
(** * 28. A run of the graph *)
(* ================================================================== *)

Section RunMore.
Context {U : UCD} {O : SetOrder} {W : World}.

Lemma bind_Ok (A B : Type) (c : result A) (k : A -> result B) (b : B) :
  bind c k = Ok b -> exists a, c = Ok a /\ k a = Ok b.
Proof. destruct c as [a|e]; [exists a; auto | discriminate]. Qed.

(** What [refine_node] returns always has an intent, and a complexity
    that is a number, at least 1. *)
Lemma refine_node_sets (state state' : AgentState) :
  refine_node state = Ok state' ->
  query state' = query state
  /\ (exists i, intent state' = Some i)
  /\ exists v z, complexity state' = Some v /\ number v = Some z
                 /\ (1 <= z)%Z.
Proof.
  intros H.
  destruct (lookup (lower (strip (query state))) TRIVIAL_COMMANDS)
    as [canned|] eqn:L.
  - unfold refine_node in H; rewrite L in H; apply Ok_inj in H; subst state'.
    cbn [query intent complexity]; split; [reflexivity|].
    split; [eexists; reflexivity|].
    exists (VInt 1), 1%Z; repeat split; lia.
  - destruct (refine_node_llm_path state L H) as (i & final & Hi & Hc & _ & Hm).
    destruct (py_max_spec _ _ Hm) as (zl & zf & Hzl & Hzf & E).
    split.
    + revert H; unfold refine_node; rewrite L.
      destruct (llm_intent (query state)); [|discriminate].
      intros H; repeat (apply bind_Ok in H as (? & _ & H)).
      apply Ok_inj in H; subst state'; reflexivity.
    + split; [exists i; exact Hi|].
      exists final, zf; split; [exact Hc|]; split; [exact Hzf|].
      destruct (assess_complexity (query state) i); cbn in E; lia.
Qed.

Lemma refine_node_declared (state state' : AgentState) (raw : RawIntent) :
  lookup (lower (strip (query state))) TRIVIAL_COMMANDS = None ->
  llm_intent (query state) = JObject raw ->
  refine_node state = Ok state' ->
  exists i, intent state' = Some i /\ i_complexity i = r_complexity raw.
Proof.
  intros L J; unfold refine_node; rewrite L, J; intros H.
  repeat (apply bind_Ok in H as (? & _ & H)).
  apply Ok_inj in H; subst state'; cbn [intent].
  eexists; split; reflexivity.
Qed.

Lemma scout_node_state (state state' : AgentState) (sp : list str) :
  scout_node state = Ok (state', sp) ->
  exists info, state' = set_scout_info state info.
Proof.
  unfold scout_node.
  destruct (match complexity state with
            | Some v => match number v with
                        | Some z => Z.eqb z (complexity_value TRIVIAL)
                        | None => false
                        end
            | None => false
            end).
  - intros [= <- _]; eexists; reflexivity.
  - intros H; apply bind_Ok in H as (i & _ & H).
    apply bind_Ok in H as (c & _ & H).
    apply bind_Ok in H as (cmds & _ & H).
    destruct cmds; injection H as <- _; eexists; reflexivity.
Qed.

Lemma complexity_of_range (z : Z) (c : TaskComplexity) :
  TaskComplexity_of z = Ok c -> (1 <= z <= 4)%Z.
Proof.
  unfold TaskComplexity_of.
  destruct (Z.eqb_spec z 1); [lia|].
  destruct (Z.eqb_spec z 2); [lia|].
  destruct (Z.eqb_spec z 3); [lia|].
  destruct (Z.eqb_spec z 4); [lia | discriminate].
Qed.

Lemma scout_node_complexity (state : AgentState) (r : AgentState * list str)
    (v : pyval) (z : Z) :
  scout_node state = Ok r -> complexity state = Some v ->
  number v = Some z -> (1 <= z <= 4)%Z.
Proof.
  unfold scout_node; intros H Hc Hz; rewrite Hc, Hz in H.
  destruct (Z.eqb_spec z (complexity_value TRIVIAL)) as [E | E];
    [cbn in E; lia|].
  apply bind_Ok in H as (i & _ & H).
  apply bind_Ok in H as (c & Hc' & _).
  apply complexity_of_range in Hc'; exact Hc'.
Qed.

Lemma generate_node_sets (state : AgentState) :
  query (generate_node state) = query state
  /\ complexity (generate_node state) = complexity state
  /\ exists c, command (generate_node state) = Some c.
Proof.
  unfold generate_node.
  destruct (command state) as [[|x c]|] eqn:E;
    try (destruct (invoke_generate state);
         cbn [query complexity command]; repeat split; eexists; reflexivity).
  rewrite E; repeat split; eexists; reflexivity.
Qed.

End RunMore.

(** Every run of the graph that returns has handed to the shell only
    commands that pass the gate, and none when the task is trivial; the
    final state has a command, which is what [run_query] returns, and a
    complexity between 1 and 4. *)
Theorem run_spawns_only_accepted (U : UCD) (O : SetOrder) (W : World)
    (q0 : str) (s : AgentState) (probes : list str) :
  run_graph q0 = Ok (s, probes) ->
  query s = q0
  /\ Forall (fun p => is_safe_scout_cmd p = true) probes
  /\ (exists c, command s = Some c /\ run_query q0 = Ok c)
  /\ exists v z, complexity s = Some v /\ number v = Some z
                 /\ (1 <= z <= 4)%Z /\ (z = 1%Z -> probes = []).
Proof.
  intros H.
  assert (Hq : exists c, command s = Some c /\ run_query q0 = Ok c
               \/ command s = None).
  { destruct (command s) as [c|] eqn:E; [|exists []; right; reflexivity].
    exists c; left; split; [reflexivity|].
    unfold run_query; rewrite H; cbn [bind fst]; rewrite E; reflexivity. }
  unfold run_graph in H; apply bind_Ok in H as (s1 & H1 & H).
  destruct (refine_node_sets _ H1) as (Hq1 & _ & v & z & Hv & Hz & Hz1).
  cbn [query initial_state] in Hq1.
  assert (R : complexity (retrieve_node s1) = Some v
              /\ query (retrieve_node s1) = q0) by (split; assumption).
  destruct R as [Rc Rq].
  destruct (should_skip_scout (retrieve_node s1)) eqn:Sk.
  - injection H as <- <-.
    destruct (generate_node_sets (retrieve_node s1)) as (G1 & G2 & c & G3).
    split; [congruence|]; split; [constructor|].
    destruct Hq as (c' & [Hq | Hq]); [|congruence].
    split; [exists c'; exact Hq|].
    exists v, z; split; [congruence|]; split; [exact Hz|].
    unfold should_skip_scout in Sk; rewrite Rc, Hz in Sk.
    destruct (Z.eqb_spec z (complexity_value TRIVIAL)) as [E|E];
      [|discriminate Sk].
    cbn in E; split; [lia | reflexivity].
  - apply bind_Ok in H as ([s2 sp] & H2 & H); injection H as <- <-.
    cbn [fst snd] in *.
    pose proof (scout_node_complexity _ H2 Rc Hz) as Hr.
    destruct (scout_node_state _ H2) as (info & ->).
    destruct (generate_node_sets (set_scout_info (retrieve_node s1) info))
      as (G1 & G2 & c & G3).
    split; [rewrite G1; exact Rq|]; split.
    + apply scout_node_spec in H2 as (cmds & info' & _ & -> & _).
      destruct (exec_loop_start cmds) as (_ & -> & _).
      apply Forall_forall; intros p Hp; apply filter_In in Hp; apply Hp.
    + destruct Hq as (c' & [Hq | Hq]); [|congruence].
      split; [exists c'; exact Hq|].
      exists v, z; split; [rewrite G2; exact Rc|]; split; [exact Hz|].
      split; [exact Hr|].
      intros ->; unfold should_skip_scout in Sk; rewrite Rc, Hz in Sk.
      discriminate Sk.
Qed.

Lemma run_spawns_only_accepted_witness :
  Forall (fun p => is_safe_scout_cmd (U := ucd_plain) (O := source_order) p
                   = true)
    [py "pwd"; py "ls -la"].
Proof.
  eapply (@run_spawns_only_accepted ucd_plain source_order offline_world
            (py "磁盘使用情况")).
  vm_compute; reflexivity.
Defined.

(** A model that declares a complexity above 4 makes the run raise: when
    [refine_node] returns, [scout_node] raises [ValueError] on
    [TaskComplexity(...)]. *)
Theorem declared_complexity_above_four_raises (U : UCD) (O : SetOrder)
    (W : World) (q0 : str) (raw : RawIntent) (z : Z) :
  lookup (lower (strip q0)) TRIVIAL_COMMANDS = None ->
  llm_intent q0 = JObject raw ->
  r_complexity raw = Some (VInt z) -> (4 < z)%Z ->
  (forall s1, refine_node (initial_state q0) = Ok s1 ->
              complexity s1 = Some (VInt z))
  /\ exists e, run_graph q0 = Raise e
               /\ (e = ValueError
                   \/ refine_node (initial_state q0) = Raise e).
Proof.
  intros L J Hc Hz.
  assert (C : forall s1, refine_node (initial_state q0) = Ok s1 ->
                         complexity s1 = Some (VInt z)).
  { intros s1 H1.
    destruct (refine_node_llm_path (initial_state q0) L H1)
      as (i & final & Hi & Hf & _ & Hm).
    destruct (refine_node_declared (initial_state q0) L J H1)
      as (i' & Hi' & Hd).
    rewrite Hi in Hi'; injection Hi' as <-.
    unfold llm_complexity in Hm; rewrite Hd, Hc in Hm.
    unfold py_max in Hm; cbn [number] in Hm.
    destruct (Z.ltb_spec z (complexity_value (assess_complexity q0 i)))
      as [Hlt | Hge].
    - cbn [query initial_state] in Hlt.
      destruct (assess_complexity q0 i); cbn in Hlt; lia.
    - cbn [query initial_state] in Hm.
      destruct (Z.ltb z _) eqn:B; [apply Z.ltb_lt in B; cbn in *; lia|].
      apply Ok_inj in Hm; subst final; exact Hf. }
  split; [exact C|].
  unfold run_graph.
  destruct (refine_node (initial_state q0)) as [s1|e] eqn:H1; cbn [bind];
    [|exists e; split; [reflexivity | right; reflexivity]].
  exists ValueError; split; [|left; reflexivity].
  destruct (refine_node_sets _ H1) as (_ & (i & Hi) & _).
  specialize (C s1 eq_refl).
  assert (Sk : should_skip_scout (retrieve_node s1) = scout).
  { unfold should_skip_scout; cbn [retrieve_node complexity]; rewrite C.
    cbn [number]; destruct (Z.eqb_spec z (complexity_value TRIVIAL)) as [E|E];
      [cbn in E; lia | reflexivity]. }
  rewrite Sk; unfold scout_node; cbn [retrieve_node complexity intent].
  rewrite C, Hi; cbn [number bind].
  destruct (Z.eqb_spec z (complexity_value TRIVIAL)) as [E|E];
    [cbn in E; lia|].
  unfold TaskComplexity_of.
  destruct (Z.eqb_spec z 1); [lia|].
  destruct (Z.eqb_spec z 2); [lia|].
  destruct (Z.eqb_spec z 3); [lia|].
  destruct (Z.eqb_spec z 4); [lia | reflexivity].
Qed.

Lemma declared_complexity_above_four_raises_witness :
  exists e,
    run_graph (U := ucd_plain) (O := source_order) (W := eager_world)
      (py "find big files") = Raise e
    /\ (e = ValueError
        \/ refine_node (U := ucd_plain) (W := eager_world)
             (initial_state (py "find big files")) = Raise e).
Proof.
  apply (@declared_complexity_above_four_raises ucd_plain source_order
           eager_world (py "find big files")
           (mkRaw (RDList [VStr (py "file")]) (REDict []) (Some (VInt 5)))
           5%Z); vm_compute; reflexivity.
Defined.

(* ================================================================== *)
(** * 29. The retries of a call of the model *)
(* ================================================================== *)

Lemma retry_loop_reply (chain : nat -> str + str) (n : nat) (content : str)
    (k remaining attempt : nat) (last : option str) (sleeps : list nat) :
  (attempt <= k)%nat -> (k < attempt + remaining)%nat ->
  (attempt + remaining <= n)%nat ->
  chain k = inl content ->
  (forall j, (attempt <= j < k)%nat -> exists e, chain j = inr e) ->
  retry_loop chain n remaining attempt last sleeps
  = mkRun (Reply content) (S k) (sleeps ++ List.seq (S attempt) (k - attempt)).
Proof.
  revert attempt last sleeps; induction remaining as [|r IH];
    intros attempt last sleeps Hk Hr Hn Hc Hf; [lia|].
  cbn [retry_loop].
  destruct (Nat.eq_dec attempt k) as [-> | Hne].
  - rewrite Hc, Nat.sub_diag; cbn [List.seq]; rewrite app_nil_r; reflexivity.
  - destruct (Hf attempt) as (e & He); [lia|]; rewrite He.
    assert (B : Nat.ltb attempt (n - 1) = true) by (apply Nat.ltb_lt; lia).
    rewrite B, IH; try lia; try assumption.
    + replace (k - attempt)%nat with (S (k - S attempt)) by lia.
      cbn [List.seq]; rewrite <- app_assoc; reflexivity.
    + intros j Hj; apply Hf; lia.
Qed.

Lemma retry_loop_fails (chain : nat -> str + str) (n : nat)
    (remaining attempt : nat) (last : option str) (sleeps : list nat) :
  (attempt + remaining = n)%nat ->
  (forall j, (attempt <= j < n)%nat -> exists e, chain j = inr e) ->
  retry_loop chain n remaining attempt last sleeps
  = mkRun (match remaining with
           | O => match last with Some e => Raised e | None => RaisedNone end
           | S _ => match chain (n - 1)%nat with
                    | inr e => Raised e
                    | inl c => Reply c
                    end
           end)
          n (sleeps ++ List.seq (S attempt) (remaining - 1)).
Proof.
  revert attempt last sleeps; induction remaining as [|r IH];
    intros attempt last sleeps Hn Hf; cbn [retry_loop].
  - cbn [List.seq Nat.sub]; rewrite app_nil_r.
    replace attempt with n by lia; reflexivity.
  - destruct (Hf attempt) as (e & He); [lia|]; rewrite He.
    rewrite IH; [| lia | intros j Hj; apply Hf; lia].
    destruct r as [|r'].
    + assert (B : Nat.ltb attempt (n - 1) = false)
        by (apply Nat.ltb_ge; lia).
      rewrite B; replace (n - 1)%nat with attempt by lia; rewrite He.
      reflexivity.
    + assert (B : Nat.ltb attempt (n - 1) = true) by (apply Nat.ltb_lt; lia).
      rewrite B, <- app_assoc.
      replace (S (S r') - 1)%nat with (S (S r' - 1)) by lia.
      reflexivity.
Qed.

(** [_invoke_llm_with_retry] returns the first reply among the first
    [max_retries] calls, having slept 0.5 s, 1 s, ... after the calls that
    failed before it; when all the calls fail it raises the last
    exception, without a sleep after the last call; with no call allowed
    it raises [TypeError], from [raise None]. *)
Theorem retry_returns_first_reply (chain : nat -> str + str)
    (max_retries : nat) :
  (forall k content,
     (k < max_retries)%nat -> chain k = inl content ->
     (forall j, (j < k)%nat -> exists e, chain j = inr e) ->
     _invoke_llm_with_retry chain max_retries
     = mkRun (Reply content) (S k) (List.seq 1 k))
  /\ ((forall j, (j < max_retries)%nat -> exists e, chain j = inr e) ->
      _invoke_llm_with_retry chain max_retries
      = mkRun (match max_retries with
               | O => RaisedNone
               | S m => match chain m with
                        | inr e => Raised e
                        | inl c => Reply c
                        end
               end)
              max_retries (List.seq 1 (max_retries - 1))).
Proof.
  unfold _invoke_llm_with_retry; split.
  - intros k content Hk Hc Hf.
    rewrite retry_loop_reply with (k := k) (content := content);
      try lia; try assumption.
    + rewrite Nat.sub_0_r; reflexivity.
    + intros j Hj; apply Hf; lia.
  - intros Hf; rewrite retry_loop_fails;
      [| lia | intros j Hj; apply Hf; lia].
    destruct max_retries as [|m]; [reflexivity|].
    replace (S m - 1)%nat with m by lia; reflexivity.
Qed.

Lemma retry_returns_first_reply_witness :
  _invoke_llm_with_retry
    (fun k => if Nat.eqb k 2 then inl (py "ls") else inr (py "timeout")) 3
  = mkRun (Reply (py "ls")) 3 [1; 2]%nat.
Proof.
  destruct (retry_returns_first_reply
              (fun k => if Nat.eqb k 2 then inl (py "ls")
                        else inr (py "timeout")) 3) as [H _].
  apply (H 2%nat (py "ls")).
  - repeat constructor.
  - reflexivity.
  - intros [|[|j]] Hj; [eexists; reflexivity.. | exfalso].
    apply Nat.succ_lt_mono in Hj; apply Nat.succ_lt_mono in Hj.
    inversion Hj.
Defined.

(* ================================================================== *)
(** * 30. More on the nodes *)
(* ================================================================== *)

Section NodesMore.
Context {U : UCD}.

Lemma split_on_go_length (sep : N) (s acc l : str) :
  In l (split_on_go sep acc s) -> (length l <= length acc + length s)%nat.
Proof.
  revert acc; induction s as [|c s IH]; intros acc; cbn [split_on_go].
  - intros [<- | []]; rewrite length_rev; lia.
  - destruct (c =? sep).
    + intros [<- | H]; [rewrite length_rev; cbn [length]; lia|].
      apply IH in H; cbn [length] in *; lia.
    + intros H; apply IH in H; cbn [length] in *; lia.
Qed.

Lemma unfenced_length (r : str) : (length (unfenced r) <= length r)%nat.
Proof.
  unfold unfenced.
  etransitivity; [apply strip_length|].
  etransitivity; [apply sub_go_empty_length|].
  etransitivity; [apply sub_go_empty_length|].
  etransitivity; [apply sub_go_empty_length|].
  apply strip_length.
Qed.

Lemma keep_supported_spec (l : list pyval) :
  Forall (fun d => In d SUPPORTED_DOMAINS) (keep_supported l).
Proof.
  induction l as [|v l IH]; cbn [keep_supported]; [constructor|].
  destruct (supported v) as [d|] eqn:E; [|exact IH].
  constructor; [|exact IH].
  unfold supported in E; destruct v; try discriminate E.
  destruct (str_in s SUPPORTED_DOMAINS) eqn:Hs; [|discriminate E].
  injection E as <-; apply str_in_In; exact Hs.
Qed.

Lemma fix_domains_spec (d : raw_domains) (ds : list str) :
  fix_domains d = Ok ds ->
  ds <> [] /\ Forall (fun x => In x SUPPORTED_DOMAINS) ds.
Proof.
  unfold fix_domains; intros H.
  apply bind_Ok in H as (l & _ & H).
  pose proof (keep_supported_spec l) as K.
  destruct (keep_supported l) as [|x xs]; apply Ok_inj in H; subst ds.
  - split; [discriminate|].
    constructor; [vm_compute; tauto | constructor].
  - split; [discriminate | exact K].
Qed.

End NodesMore.

(** The command [generate_node] keeps of a reply has no white space at
    its ends and is never longer than the reply. *)
Theorem stored_command_is_trimmed (U : UCD) (result_str : str) :
  strip (clean_command result_str) = clean_command result_str
  /\ (length (clean_command result_str) <= length result_str)%nat.
Proof.
  rewrite clean_command_unfold; cbv zeta.
  assert (Hu : trimmed (unfenced result_str) = true)
    by (unfold unfenced; apply strip_trimmed).
  pose proof (unfenced_length result_str) as Hl.
  destruct (contains (unfenced result_str) [NL] && _);
    [|split; [apply trimmed_strip, Hu | exact Hl]].
  destruct (filter kept_line (split_on NL (unfenced result_str)))
    as [|l ls] eqn:F; cbn [map];
    [split; [apply trimmed_strip, Hu | exact Hl]|].
  split; [apply trimmed_strip, strip_trimmed|].
  assert (Hin : In l (split_on NL (unfenced result_str))).
  { assert (H : In l (filter kept_line (split_on NL (unfenced result_str))))
      by (rewrite F; left; reflexivity).
    apply filter_In in H; apply H. }
  apply split_on_go_length in Hin; cbn [length] in Hin.
  etransitivity; [apply strip_length|].
  etransitivity; [exact Hin | exact Hl].
Qed.

(** The heuristic complexity does not go down when the intent names more
    domains, the entities being the same. *)
Theorem complexity_monotone_in_domains (U : UCD) (q0 : str)
    (i i' : Intent) :
  i_entities i = i_entities i' ->
  (length (i_domains i) <= length (i_domains i'))%nat ->
  (complexity_value (assess_complexity q0 i)
   <= complexity_value (assess_complexity q0 i'))%Z.
Proof.
  intros He Hl; unfold assess_complexity; cbv zeta.
  destruct (existsb _ TRIVIAL_PATTERNS); [lia|].
  destruct (existsb _ DIAGNOSTIC_KEYWORDS); [lia|].
  rewrite <- He.
  destruct (Nat.leb_spec 3 (length (i_domains i))),
    (Nat.leb_spec 3 (length (i_domains i'))),
    (Nat.eqb_spec (length (i_domains i)) 2),
    (Nat.eqb_spec (length (i_domains i')) 2);
    try (cbn [complexity_value]; lia);
    destruct (existsb _ _); cbn [complexity_value]; lia.
Qed.

Lemma complexity_monotone_in_domains_witness :
  (complexity_value
     (assess_complexity (U := ucd_plain) (py "list logs")
        (mkIntent [py "log"] [(py "service", VStr (py "nginx"))] None None None))
   <= complexity_value
        (assess_complexity (U := ucd_plain) (py "list logs")
           (mkIntent [py "log"; py "service"]
              [(py "service", VStr (py "nginx"))] None None None)))%Z.
Proof.
  apply (@complexity_monotone_in_domains ucd_plain); [reflexivity|].
  repeat constructor.
Defined.

(** The intent [refine_node] stores names at least one domain, and only
    supported ones, for each of which the planner has a method. *)
Theorem refined_domains_are_supported (U : UCD) (W : World)
    (state state' : AgentState) :
  refine_node state = Ok state' ->
  exists i, intent state' = Some i
    /\ i_domains i <> []
    /\ Forall (fun d => In d SUPPORTED_DOMAINS
                        /\ is_some (lookup d domain_methods) = true)
         (i_domains i).
Proof.
  assert (S : forall ds, Forall (fun x => In x SUPPORTED_DOMAINS) ds ->
              Forall (fun d => In d SUPPORTED_DOMAINS
                               /\ is_some (lookup d domain_methods) = true) ds).
  { intros ds H; eapply Forall_impl; [|exact H].
    intros d Hd; split; [exact Hd|].
    unfold SUPPORTED_DOMAINS in Hd; cbn [map In] in Hd.
    destruct Hd as [<-|[<-|[<-|[<-|[<-|[<-|[<-|[<-|[<-|[<-|[]]]]]]]]]]];
      vm_compute; reflexivity. }
  unfold refine_node.
  destruct (lookup (lower (strip (query state))) TRIVIAL_COMMANDS).
  - intros [= <-]; cbn [intent]; eexists; split; [reflexivity|].
    cbn [i_domains]; split; [discriminate|].
    apply S; constructor; [vm_compute; tauto | constructor].
  - destruct (llm_intent (query state)) as [raw|]; [|discriminate].
    intros H; apply bind_Ok in H as (ds & Hd & H).
    repeat (apply bind_Ok in H as (? & _ & H)).
    apply Ok_inj in H; subst state'; cbn [intent].
    eexists; split; [reflexivity|]; cbn [i_domains].
    apply fix_domains_spec in Hd as [Hne Hs].
    split; [exact Hne | apply S, Hs].
Qed.

Lemma refined_domains_are_supported_witness :
  exists i,
    intent (mkState (py "pwd") (Some (mkIntent [py "file"] [] None None None))
              (Some (VInt 1)) None None None (Some (py "pwd")) None)
    = Some i
    /\ i_domains i <> []
    /\ Forall (fun d => In d SUPPORTED_DOMAINS
                        /\ is_some (lookup d (domain_methods (U := ucd_plain)))
                           = true)
         (i_domains i).
Proof.
  apply (@refined_domains_are_supported ucd_plain offline_world
           (initial_state (py "pwd"))).
  vm_compute; reflexivity.
Defined.

(* ================================================================== *)
(** * 31. A leading sudo *)
(* ================================================================== *)

Section Sudo.
Context {U : UCD}.

(** ** Patterns that do not look back *)

Lemma rep_greedy_shift (A B : Type) (f : A -> B) (a : atom) (lo : nat)
    (hi : option nat) (d aft : str) :
  forall (n : nat) (bef : str) (k1 : str -> str -> option B)
         (k2 : str -> str -> option A),
  (forall b a', k1 (b ++ d) a' = option_map f (k2 b a')) ->
  rep_greedy a lo hi n (bef ++ d) aft k1
  = option_map f (rep_greedy a lo hi n bef aft k2).
Proof.
  induction aft as [|c aft IH]; intros n bef k1 k2 H; cbn [rep_greedy].
  - destruct (Nat.leb lo n); [apply H | reflexivity].
  - destruct (under hi n && atom_ok a c).
    + change (c :: bef ++ d) with ((c :: bef) ++ d).
      rewrite (IH (S n) (c :: bef) k1 k2 H).
      destruct (rep_greedy a lo hi (S n) (c :: bef) aft k2);
        cbn [option_map]; [reflexivity|].
      destruct (Nat.leb lo n); [apply H | reflexivity].
    + destruct (Nat.leb lo n); [apply H | reflexivity].
Qed.

Lemma consumed_shift (d : str) (st st' : mstate) :
  consumed (shift d st) (shift d st') = consumed st st'.
Proof.
  unfold consumed, shift; cbn [before].
  rewrite !length_app.
  replace (length (before st') + length d - (length (before st) + length d))%nat
    with (length (before st') - length (before st))%nat by lia.
  rewrite firstn_app.
  replace (length (before st') - length (before st) - length (before st'))%nat
    with 0%nat by lia.
  cbn [firstn]; rewrite app_nil_r; reflexivity.
Qed.

Lemma rmatch_shift (r : regex) (d : str) :
  forward_only r = true ->
  forall (A B : Type) (f : A -> B) (st : mstate)
         (k1 : mstate -> option B) (k2 : mstate -> option A),
  (forall st', k1 (shift d st') = option_map f (k2 st')) ->
  rmatch r (shift d st) k1 = option_map f (rmatch r st k2).
Proof.
  induction r as [|a|a lo hi|r1 IH1 r2 IH2|r1 IH1 r2 IH2|n r1 IH1| | | |a|a];
    cbn [forward_only]; intros Hf A B f st k1 k2 H; cbn [rmatch];
    try discriminate Hf.
  - apply H.
  - unfold shift at 1; cbn [after before groups].
    destruct (after st) as [|c aft]; [reflexivity|].
    destruct (atom_ok a c); [|reflexivity].
    exact (H (MState (c :: before st) aft (groups st))).
  - unfold shift; cbn [after before groups].
    apply rep_greedy_shift with (k2 := fun b a' => k2 (MState b a' (groups st))).
    intros b a'; exact (H (MState b a' (groups st))).
  - apply andb_true_iff in Hf as [Hf1 Hf2].
    apply IH1 with (k2 := fun st' => rmatch r2 st' k2); [exact Hf1|].
    intros st'; apply IH2; assumption.
  - apply andb_true_iff in Hf as [Hf1 Hf2].
    rewrite (IH1 Hf1 A B f st k1 k2 H), (IH2 Hf2 A B f st k1 k2 H).
    destruct (rmatch r1 st k2); reflexivity.
  - apply IH1 with
      (k2 := fun st' => k2 (MState (before st') (after st')
                              ((n, consumed st st') :: groups st')));
      [exact Hf|].
    intros st'; rewrite consumed_shift.
    exact (H (MState (before st') (after st')
                ((n, consumed st st') :: groups st'))).
  - unfold shift at 1; cbn [after].
    destruct (after st) as [|c [|c' aft]];
      [apply H | destruct (c =? NL); [apply H | reflexivity] | reflexivity].
  - unfold shift at 1; cbn [after].
    destruct (after st) as [|c aft]; [apply H|].
    destruct (atom_ok a c); [reflexivity | apply H].
Qed.

Lemma match_at_shift (r : regex) (d bef aft : str) :
  forward_only r = true ->
  match_at r (bef ++ d) aft = option_map (shift d) (match_at r bef aft).
Proof.
  intros Hf; unfold match_at.
  apply (rmatch_shift r d Hf (shift d) (MState bef aft [])
           (fun st => Some st) (fun st => Some st)).
  reflexivity.
Qed.

Lemma search_from_shift (r : regex) (d aft : str) :
  forward_only r = true ->
  forall bef,
  search_from r (bef ++ d) aft
  = option_map (fun m => (fst m ++ d, shift d (snd m))) (search_from r bef aft).
Proof.
  intros Hf; induction aft as [|c aft IH]; intros bef; cbn [search_from];
    rewrite (match_at_shift r d bef _ Hf);
    destruct (match_at r bef _); cbn [option_map fst snd]; try reflexivity.
  apply (IH (c :: bef)).
Qed.

Lemma search_skip_blank (r : regex) (ws s : str) :
  (forall bef c aft, isspace c = true -> match_at r bef (c :: aft) = None) ->
  blank ws = true ->
  forall bef, search_from r bef (ws ++ s) = search_from r (rev ws ++ bef) s.
Proof.
  intros Hr; induction ws as [|c ws IH]; intros Hb bef; [reflexivity|].
  cbn [blank forallb] in Hb; apply andb_true_iff in Hb as [Hc Hb].
  cbn [app search_from rev]; rewrite (Hr bef c _ Hc), <- app_assoc.
  apply (IH Hb).
Qed.

(** ** The rules of the restricted commands behind a sudo *)

Lemma rule_pattern_letter (r : regex) :
  In r RULE_PATTERNS ->
  forall bef c aft, isspace c = true -> match_at r bef (c :: aft) = None.
Proof.
  intros Hin bef c aft Hc.
  assert (Hl : forall x, isspace x = false -> (c =? x) = false).
  { intros x Hx; destruct (N.eqb_spec c x) as [->|]; congruence. }
  unfold RULE_PATTERNS in Hin; cbn [In] in Hin.
  destruct Hin as [<-|[<-|[<-|[<-|[]]]]];
    unfold match_at, sleep_re, seq, lit; cbn [fold_right];
    match goal with
    | |- rmatch (Cat ?l _) _ _ = _ =>
      let l' := eval vm_compute in l in change l with l'
    end;
    cbn [rmatch after atom_ok]; rewrite Hl by reflexivity; reflexivity.
Qed.

Lemma rule_pattern_forward (r : regex) :
  In r RULE_PATTERNS -> forward_only r = true.
Proof.
  unfold RULE_PATTERNS; cbn [In].
  intros [<-|[<-|[<-|[<-|[]]]]]; reflexivity.
Qed.

Lemma rule_pattern_sudo (r : regex) (t bef : str) :
  In r RULE_PATTERNS ->
  search_from r bef (py "sudo " ++ t) = search_from r (rev (py "sudo ") ++ bef) t.
Proof.
  unfold RULE_PATTERNS; cbn [In].
  intros [<-|[<-|[<-|[<-|[]]]]]; vm_compute; reflexivity.
Qed.

Lemma rule_pattern_after_sudo (r : regex) (ws s : str) :
  In r RULE_PATTERNS -> blank ws = true ->
  re_search r (py "sudo " ++ ws ++ s)
  = option_map (fun m => (fst m ++ rev (py "sudo " ++ ws),
                          shift (rev (py "sudo " ++ ws)) (snd m)))
      (re_search r s).
Proof.
  intros Hin Hb; unfold re_search.
  rewrite (rule_pattern_sudo _ _ Hin).
  rewrite (search_skip_blank r ws s (rule_pattern_letter Hin) Hb).
  rewrite app_nil_r, <- rev_app_distr.
  apply (search_from_shift r (rev (py "sudo " ++ ws)) s
           (rule_pattern_forward Hin) []).
Qed.

Lemma contains_skip (p s f : str) (c : N) :
  (forall y, In y p -> (c =? y) = false) ->
  contains (p ++ s) (c :: f) = contains s (c :: f).
Proof.
  induction p as [|y p IH]; intros H; [reflexivity|].
  cbn [app]; rewrite contains_cons; cbn [startswith].
  rewrite (H y) by (left; reflexivity).
  apply IH; intros z Hz; apply H; right; exact Hz.
Qed.

Lemma existsb_on (A : Type) (f g : A -> bool) (l : list A) :
  (forall x, In x l -> f x = g x) -> existsb f l = existsb g l.
Proof.
  induction l as [|x l IH]; intros H; [reflexivity|].
  cbn [existsb]; rewrite (H x) by (left; reflexivity).
  rewrite IH; [reflexivity|]; intros y Hy; apply H; right; exact Hy.
Qed.

Lemma sudo_no_dash (ws : str) :
  blank ws = true ->
  forall y, In y (py "sudo " ++ ws) -> (45 =? y) = false.
Proof.
  intros Hb y Hy; apply in_app_or in Hy as [Hy|Hy].
  - cbn in Hy; destruct Hy as [<-|[<-|[<-|[<-|[<-|[]]]]]]; reflexivity.
  - unfold blank in Hb; rewrite forallb_forall in Hb.
    specialize (Hb y Hy).
    destruct (N.eqb_spec 45 y) as [<-|]; [discriminate Hb | reflexivity].
Qed.

Lemma args_after_sudo (rl : rules) (ws s : str) :
  In rl (map snd RESTRICTED_COMMANDS) -> blank ws = true ->
  match forbidden_args rl with
  | Some l => existsb (fun forbidden =>
                         contains (py "sudo " ++ ws ++ s) forbidden) l
  | None => false
  end
  = match forbidden_args rl with
    | Some l => existsb (fun forbidden => contains s forbidden) l
    | None => false
    end.
Proof.
  intros Hin Hb.
  assert (Hd : forallb (fun rl => match forbidden_args rl with
                                  | Some l => forallb (fun f => startswith f [45]) l
                                  | None => true
                                  end)
                 (map snd RESTRICTED_COMMANDS) = true)
    by (vm_compute; reflexivity).
  rewrite forallb_forall in Hd; specialize (Hd rl Hin).
  destruct (forbidden_args rl) as [l|]; [|reflexivity].
  rewrite forallb_forall in Hd.
  apply existsb_on; intros f Hf.
  specialize (Hd f Hf); apply startswith_iff in Hd as (f' & ->).
  rewrite app_assoc; cbn [app].
  apply contains_skip, sudo_no_dash, Hb.
Qed.

Lemma patterns_after_sudo (rl : rules) (ws s : str) :
  In rl (map snd RESTRICTED_COMMANDS) -> blank ws = true ->
  match forbidden_patterns rl with
  | Some l => existsb (fun pattern =>
                         re_found pattern (py "sudo " ++ ws ++ s)) l
  | None => false
  end
  = match forbidden_patterns rl with
    | Some l => existsb (fun pattern => re_found pattern s) l
    | None => false
    end.
Proof.
  intros Hin Hb.
  assert (Hd : forall rl, In rl (map snd RESTRICTED_COMMANDS) ->
               forall l, forbidden_patterns rl = Some l ->
               forall r, In r l -> In r RULE_PATTERNS).
  { clear; unfold RESTRICTED_COMMANDS, RULE_PATTERNS; cbn [map snd In].
    intros rl [<-|[<-|[<-|[<-|[<-|[<-|[<-|[]]]]]]]] l;
      cbn [forbidden_patterns]; intros [= <-]; cbn [In]; tauto. }
  specialize (Hd rl Hin).
  destruct (forbidden_patterns rl) as [l|]; [|reflexivity].
  apply existsb_on; intros r Hr; unfold re_found.
  rewrite (@rule_pattern_after_sudo r ws s (Hd l eq_refl r Hr) Hb).
  destruct (re_search r s); reflexivity.
Qed.

Lemma sleep_after_sudo (ws s : str) (m : option N) :
  blank ws = true ->
  match m, re_search sleep_re (py "sudo " ++ ws ++ s) with
  | Some m, Some mt =>
    match py_int (group 1 mt) with
    | Some n => m <? n
    | None => false
    end
  | _, _ => false
  end
  = match m, re_search sleep_re s with
    | Some m, Some mt =>
      match py_int (group 1 mt) with
      | Some n => m <? n
      | None => false
      end
    | _, _ => false
    end.
Proof.
  intros Hb.
  rewrite (@rule_pattern_after_sudo sleep_re ws s) by
    (first [left; reflexivity | exact Hb]).
  destruct m as [m|]; [|reflexivity].
  destruct (re_search sleep_re s) as [[b st]|]; reflexivity.
Qed.

Lemma split_ws_go_blank (ws s : str) :
  blank ws = true -> split_ws_go [] (ws ++ s) = split_ws_go [] s.
Proof.
  induction ws as [|c ws IH]; intros Hb; [reflexivity|].
  cbn [blank forallb] in Hb; apply andb_true_iff in Hb as [Hc Hb].
  cbn [app split_ws_go]; rewrite Hc; apply (IH Hb).
Qed.

Lemma tee_after_sudo (ws s : str) (targets : list str) :
  blank ws = true ->
  Nat.ltb 1 (length (split_ws (py "sudo " ++ ws ++ s)))
  && negb (tee_targets_ok targets (split_ws (py "sudo " ++ ws ++ s)))
  = Nat.ltb 1 (length (split_ws s))
    && negb (tee_targets_ok targets (split_ws s)).
Proof.
  intros Hb.
  assert (E : split_ws (py "sudo " ++ ws ++ s) = py "sudo" :: split_ws s).
  { unfold split_ws.
    change (py "sudo " ++ ws ++ s) with (py "sudo" ++ 32 :: ws ++ s).
    rewrite (@split_ws_go_word (py "sudo") [] (ws ++ s) 32);
      [|reflexivity|reflexivity|discriminate].
    rewrite (@split_ws_go_blank ws s Hb); reflexivity. }
  rewrite E; destruct (split_ws s) as [|p [|q l]]; try reflexivity.
Qed.

Lemma restricted_after_sudo (ws s b : str) :
  blank ws = true ->
  _check_restricted_command (py "sudo " ++ ws ++ s) b
  = _check_restricted_command s b.
Proof.
  intros Hb; unfold _check_restricted_command; cbv zeta.
  destruct (lookup b RESTRICTED_COMMANDS) as [rl|] eqn:E; [|reflexivity].
  assert (Hin : In rl (map snd RESTRICTED_COMMANDS)).
  { clear - E; induction RESTRICTED_COMMANDS as [|[k v] d IH];
      cbn [lookup] in E; [discriminate E|].
    destruct (str_eqb b k); [injection E as ->; left; reflexivity|].
    right; apply IH, E. }
  rewrite (@args_after_sudo rl ws s Hin Hb), (@patterns_after_sudo rl ws s Hin Hb).
  rewrite (@sleep_after_sudo ws s (max_seconds rl) Hb).
  destruct (allowed_targets rl) as [targets|]; [|reflexivity].
  rewrite (@tee_after_sudo ws s targets Hb); reflexivity.
Qed.

Lemma allowed_after_sudo (l : list str) (ws s sub : str) :
  blank ws = true ->
  allowed_by_list l sub (py "sudo " ++ ws ++ s) = allowed_by_list l sub s.
Proof.
  intros Hb; unfold allowed_by_list.
  destruct (_get_base_command sub) as [|b0 b]; [reflexivity|].
  induction l as [|e l IH]; [reflexivity|].
  cbn [allow_loop]; rewrite IH, (@restricted_after_sudo ws s (b0 :: b) Hb).
  reflexivity.
Qed.

Lemma lstrip_split (s : str) : exists a, s = a ++ lstrip s /\ blank a = true.
Proof.
  induction s as [|c s (a & IH & Ha)]; [exists []; split; reflexivity|].
  cbn [lstrip]; destruct (isspace c) eqn:Hc.
  - exists (c :: a); cbn [app blank forallb]; rewrite Hc, <- IH.
    split; [reflexivity | exact Ha].
  - exists []; split; reflexivity.
Qed.

Lemma strip_split (s : str) :
  exists a c, s = a ++ strip s ++ c /\ blank a = true /\ blank c = true.
Proof.
  destruct (lstrip_split s) as (a & Ea & Ha).
  destruct (lstrip_split (rev (lstrip s))) as (b & Eb & Hb).
  apply (f_equal (@rev N)) in Eb; rewrite rev_involutive, rev_app_distr in Eb.
  exists a, (rev b); rewrite strip_unfold, <- Eb, blank_rev; auto.
Qed.

Lemma blank_app (a b : str) : blank (a ++ b) = blank a && blank b.
Proof. apply forallb_app. Qed.

Lemma strip_sudo (a t c : str) :
  blank a = true -> blank c = true -> trimmed t = true -> t <> [] ->
  strip (py "sudo " ++ a ++ t ++ c) = py "sudo " ++ a ++ t.
Proof.
  intros Ha Hc Ht Hne.
  transitivity (strip ([] ++ (py "sudo " ++ a ++ t) ++ c)).
  { f_equal; cbn [app]; rewrite <- !app_assoc; reflexivity. }
  rewrite strip_blank_ends by (reflexivity || exact Hc).
  apply trimmed_strip; unfold trimmed.
  apply andb_true_iff; split; [reflexivity|].
  unfold trimmed in Ht; apply andb_true_iff in Ht as [_ Ht].
  rewrite !rev_app_distr.
  destruct (rev t) as [|x r] eqn:Er; [|exact Ht].
  apply (f_equal (@rev N)) in Er; rewrite rev_involutive in Er.
  contradiction.
Qed.

End Sudo.

(** A leading [sudo] changes nothing for a fragment that does not start
    with one already: [sudo] followed by the fragment is on the list
    exactly when the fragment is, the rules of the restricted commands
    included. *)
Theorem sudo_is_transparent (U : UCD) (O : SetOrder) (sub : str) :
  startswith (strip sub) (py "sudo ") = false ->
  _is_allowed_subcmd (py "sudo " ++ sub) = _is_allowed_subcmd sub.
Proof.
  intros H; rewrite !is_allowed_source_order.
  unfold _is_allowed_subcmd_in; cbv zeta.
  destruct (strip_split sub) as (a & c & E & Ha & Hc).
  destruct (strip sub) as [|x t] eqn:Hs.
  - assert (Hl : strip (py "sudo " ++ sub) = py "sudo").
    { rewrite E.
      change (py "sudo " ++ a ++ [] ++ c) with ([] ++ py "sudo" ++ 32 :: a ++ c).
      rewrite strip_blank_ends; [reflexivity | reflexivity |].
      change (32 :: a ++ c) with ([32] ++ a ++ c).
      rewrite !blank_app, Ha, Hc; reflexivity. }
    rewrite Hl; vm_compute; reflexivity.
  - assert (Ht : trimmed (x :: t) = true)
      by (rewrite <- Hs; apply strip_trimmed).
    assert (Hl : strip (py "sudo " ++ sub) = py "sudo " ++ a ++ x :: t).
    { rewrite E; apply strip_sudo; try assumption; discriminate. }
    rewrite Hl, H.
    assert (Hd : strip (drop 5 (py "sudo " ++ a ++ x :: t)) = x :: t).
    { change (drop 5 (py "sudo " ++ a ++ x :: t)) with (a ++ x :: t).
      rewrite <- (app_nil_r (x :: t)) at 1.
      rewrite strip_blank_ends by (reflexivity || exact Ha).
      apply trimmed_strip, Ht. }
    change (py "sudo " ++ a ++ x :: t)
      with (115 :: (117 :: 100 :: 111 :: 32 :: a ++ x :: t)) at 1.
    cbv iota.
    change (115 :: (117 :: 100 :: 111 :: 32 :: a ++ x :: t))
      with (py "sudo " ++ a ++ x :: t).
    replace (startswith (py "sudo " ++ a ++ x :: t) (py "sudo ")) with true
      by (symmetry; apply startswith_iff; eexists; reflexivity).
    rewrite Hd, !(@allowed_after_sudo U UNCONDITIONAL_ALLOW a (x :: t) (x :: t) Ha); reflexivity.
Qed.

Lemma sudo_is_transparent_witness :
  _is_allowed_subcmd (U := ucd_plain) (O := source_order)
    (py "sudo " ++ py "sleep 30")
  = _is_allowed_subcmd (U := ucd_plain) (O := source_order) (py "sleep 30").
Proof.
  apply (@sudo_is_transparent ucd_plain source_order (py "sleep 30")).
  reflexivity.
Defined.

(* ================================================================== *)
(** * 32. What the model is told about the probes *)
(* ================================================================== *)

Section FactsProofs.
Context {U : UCD} {O : SetOrder} {W : World}.

Lemma scan_loop_spec (results : list ProbeResult) (entities : dict)
    (query : str) :
  scan_loop results entities query
  = (flat_map facts_of results, flat_map raw_output results).
Proof.
  unfold scan_loop.
  assert (H : forall f r,
    fold_left (fun acc res => (fst acc ++ facts_of res,
                               snd acc ++ raw_output res)) results (f, r)
    = (f ++ flat_map facts_of results, r ++ flat_map raw_output results)).
  { induction results as [|x l IH]; intros f r; cbn [fold_left flat_map].
    - rewrite !app_nil_r; reflexivity.
    - rewrite IH; cbn [fst snd]; rewrite <- !app_assoc; reflexivity. }
  apply (H [] []).
Qed.

Lemma raw_output_length (results : list ProbeResult) :
  (length (flat_map raw_output results) <= length results)%nat.
Proof.
  induction results as [|r l IH]; [apply le_n|].
  cbn [flat_map length]; rewrite length_app.
  assert (length (raw_output r) <= 1)%nat; [|lia].
  unfold raw_output; cbv zeta.
  destruct (nonempty _); [cbn; lia|].
  destruct (_ && _); cbn; lia.
Qed.

Lemma join_In (sep x : str) (l : list str) :
  In x l -> contains (join sep l) x = true.
Proof.
  intros H; apply contains_iff.
  induction l as [|y l IH]; [destruct H|].
  destruct H as [->|H].
  - destruct l as [|z l]; cbn [join].
    + exists [], []; rewrite app_nil_r; reflexivity.
    + exists [], (sep ++ join sep (z :: l)); reflexivity.
  - destruct (IH H) as (a & b & E).
    destruct l as [|z l]; [destruct H|].
    change (join sep (y :: z :: l)) with (y ++ sep ++ join sep (z :: l)).
    rewrite E; exists (y ++ sep ++ a), b; rewrite <- !app_assoc; reflexivity.
Qed.

Lemma contains_app_l (a s x : str) :
  contains s x = true -> contains (a ++ s) x = true.
Proof.
  intros H; apply contains_iff in H as (u & v & ->).
  apply contains_iff; exists (a ++ u), v; rewrite <- app_assoc; reflexivity.
Qed.

Lemma contains_app_r (s b x : str) :
  contains s x = true -> contains (s ++ b) x = true.
Proof.
  intros H; apply contains_iff in H as (u & v & ->).
  apply contains_iff; exists u, (v ++ b); rewrite <- !app_assoc; reflexivity.
Qed.

(** What [extract_facts] shows of the two lists. *)
Lemma extract_facts_shows (results : list ProbeResult) (entities : dict)
    (query x : str) :
  (forall r e q, scan_results r e q = scan_loop r e q) ->
  (In x (flat_map facts_of results)
   \/ In x (firstn 15 (flat_map raw_output results))) ->
  contains (extract_facts results entities query) x = true.
Proof.
  intros Hs H; unfold extract_facts.
  rewrite Hs, scan_loop_spec.
  destruct H as [H|H].
  - apply contains_app_l, contains_app_l, contains_app_r.
    destruct (flat_map facts_of results) as [|f l] eqn:E; [destruct H|].
    apply join_In, H.
  - do 6 apply contains_app_l.
    destruct (flat_map raw_output results) as [|f l] eqn:E;
      [destruct H|].
    apply join_In, H.
Qed.

Lemma warning_prefix (f : str) :
  match WARNING with
  | [] => f
  | _ :: _ => WARNING ++ [NL; NL] ++ f
  end = (WARNING ++ [NL; NL]) ++ f.
Proof. rewrite <- app_assoc; vm_compute; reflexivity. Qed.

(** The facts [scout_node] stores when there are probes. *)
Lemma scout_node_info (state state' : AgentState) (sp cmds : list str) :
  scout_node state = Ok (state', sp) ->
  planned_probes state = Ok cmds -> cmds <> [] ->
  exists w i,
    intent state = Some i
    /\ scout_info state'
       = Some (w ++ extract_facts (exec_results (exec_loop cmds exec_start))
                      (i_entities i) (query state)).
Proof.
  unfold scout_node, planned_probes, should_skip_scout.
  destruct (complexity state) as [v|] eqn:Ec.
  - destruct (number v) as [z|] eqn:Ez.
    + destruct (Z.eqb z (complexity_value TRIVIAL)).
      * intros _ [= <-] Hne; contradiction.
      * destruct (intent state) as [i|]; [|discriminate].
        cbn [bind].
        destruct (TaskComplexity_of z) as [c|e]; [|discriminate].
        cbn [bind].
        destruct (get_scout_commands _ _ _ c) as [l|e]; [|discriminate].
        cbn [bind]; intros H [= <-] Hne.
        destruct l as [|c0 l]; [contradiction|].
        injection H as <- _; cbn [scout_info set_scout_info].
        destruct (most_failed _ _).
        -- exists (WARNING ++ [NL; NL]), i; split; [reflexivity|].
           apply (f_equal Some); exact (warning_prefix _).
        -- exists [], i; split; reflexivity.
    + destruct (intent state) as [i|]; discriminate.
  - destruct (intent state) as [i|]; [|discriminate].
    cbn [bind].
    destruct (get_scout_commands _ _ _ MODERATE) as [l|e]; [|discriminate].
    cbn [bind]; intros H [= <-] Hne.
    destruct l as [|c0 l]; [contradiction|].
    injection H as <- _; cbn [scout_info set_scout_info].
    destruct (most_failed _ _).
    + exists (WARNING ++ [NL; NL]), i; split; [reflexivity|].
      apply (f_equal Some); exact (warning_prefix _).
    + exists [], i; split; reflexivity.
Qed.

Lemma blocked_recorded (cmds : list str) (c : str) :
  In c cmds -> is_safe_scout_cmd c = false ->
  In (blocked c) (exec_results (exec_loop cmds exec_start)).
Proof.
  intros Hin Hc.
  destruct (exec_loop_start cmds) as (Hr & _).
  cbv zeta in Hr; revert Hr.
  generalize (exec_results (exec_loop cmds exec_start)) as rs.
  induction cmds as [|x l IH]; [destruct Hin|].
  intros rs Hr; inversion Hr as [|? r ? rs' [_ Hb] Hr']; subst.
  destruct Hin as [->|Hin].
  - left; apply Hb, Hc.
  - right; apply (IH Hin), Hr'.
Qed.

Lemma results_length (cmds : list str) :
  length (exec_results (exec_loop cmds exec_start)) = length cmds.
Proof.
  destruct (exec_loop_start cmds) as (Hr & _).
  cbv zeta in Hr; symmetry; apply (Forall2_length Hr).
Qed.

Lemma blocked_section (c : str) :
  raw_output (blocked c)
  = [py "$ " ++ c ++ [NL] ++ py "[ERROR] "
     ++ firstn 500 (py "BLOCKED: " ++ reason_text (get_safety_reason c))].
Proof.
  unfold raw_output, blocked; cbn [cmd stdout stderr rc].
  change (nonempty (strip [])) with false; cbv iota.
  change (py "BLOCKED: " ++ reason_text (get_safety_reason c))
    with (66 :: (tl (py "BLOCKED: ") ++ reason_text (get_safety_reason c))).
  set (t := tl (py "BLOCKED: ") ++ _).
  assert (E : nonempty (strip (66 :: t)) = true).
  { unfold strip; rewrite lstrip_keep by reflexivity.
    change (66 :: t) with ([] ++ 66 :: t).
    rewrite (rstrip_keep [] t 66) by reflexivity; reflexivity. }
  rewrite E; reflexivity.
Qed.

End FactsProofs.

(** With the loop of [extract_facts] as the source has it, and at most
    fifteen probes, the facts [scout_node] stores show every probe the
    gate rejected as an error section: the probe after a dollar sign, and
    on the next line [[ERROR] BLOCKED:] with the reason, cut after 500
    characters. *)
Theorem rejected_probe_is_reported (U : UCD) (O : SetOrder) (W : World)
    (state state' : AgentState) (sp cmds : list str) (c : str) :
  (forall r e q, scan_results r e q = scan_loop r e q) ->
  scout_node state = Ok (state', sp) ->
  planned_probes state = Ok cmds ->
  (length cmds <= 15)%nat ->
  In c cmds -> is_safe_scout_cmd c = false ->
  exists info,
    scout_info state' = Some info
    /\ contains info
         (py "$ " ++ c ++ [NL] ++ py "[ERROR] "
          ++ firstn 500 (py "BLOCKED: " ++ reason_text (get_safety_reason c)))
       = true.
Proof.
  intros Hs Hn Hp Hl Hin Hc.
  assert (Hne : cmds <> []) by (intros ->; destruct Hin).
  destruct (scout_node_info _ Hn Hp Hne) as (w & i & _ & ->).
  eexists; split; [reflexivity|].
  apply contains_app_l, extract_facts_shows; [exact Hs|]; right.
  rewrite firstn_all2 with (n := 15%nat).
  - apply (proj2 (in_flat_map raw_output _ _)); exists (blocked c); split.
    + apply blocked_recorded; assumption.
    + rewrite blocked_section; left; reflexivity.
  - etransitivity; [apply raw_output_length|].
    rewrite results_length; exact Hl.
Qed.

Lemma rejected_probe_is_reported_witness :
  exists info,
    scout_info
      (set_scout_info log_state
          (extract_facts (W := scanning_world)
             (exec_results
                (exec_loop (U := ucd_plain) (O := source_order)
                   (W := scanning_world)
                   [py "journalctl -p err -n 30 --no-pager";
                    py "dmesg | tail -30";
                    py "ls -lt /var/log/*.log 2>/dev/null | head -10"]
                   exec_start))
             [] (py "show recent errors")))
    = Some info
    /\ contains info
         (py "$ " ++ py "ls -lt /var/log/*.log 2>/dev/null | head -10" ++ [NL]
          ++ py "[ERROR] "
          ++ firstn 500
               (py "BLOCKED: "
                ++ reason_text
                     (get_safety_reason (U := ucd_plain) (O := source_order)
                        (py "ls -lt /var/log/*.log 2>/dev/null | head -10"))))
       = true.
Proof.
  apply (@rejected_probe_is_reported ucd_plain source_order scanning_world
          log_state
          (set_scout_info log_state
           (extract_facts (W := scanning_world)
              (exec_results
                 (exec_loop (U := ucd_plain) (O := source_order)
                    (W := scanning_world)
                    [py "journalctl -p err -n 30 --no-pager";
                     py "dmesg | tail -30";
                     py "ls -lt /var/log/*.log 2>/dev/null | head -10"]
                    exec_start))
              [] (py "show recent errors")))
          [py "journalctl -p err -n 30 --no-pager"; py "dmesg | tail -30"]
          [py "journalctl -p err -n 30 --no-pager";
           py "dmesg | tail -30";
           py "ls -lt /var/log/*.log 2>/dev/null | head -10"]
          (py "ls -lt /var/log/*.log 2>/dev/null | head -10")).
  - reflexivity.
  - vm_compute; reflexivity.
  - vm_compute; reflexivity.
  - cbn [length]; lia.
  - right; right; left; reflexivity.
  - vm_compute; reflexivity.
Defined.

(** A rejected probe that starts with [ls -] is moreover reported as a
    file that was not found, under the last word of the probe. *)
Theorem rejected_listing_reported_missing (U : UCD) (O : SetOrder)
    (W : World) (state state' : AgentState) (sp cmds : list str) (c : str) :
  (forall r e q, scan_results r e q = scan_loop r e q) ->
  scout_node state = Ok (state', sp) ->
  planned_probes state = Ok cmds ->
  In c cmds -> is_safe_scout_cmd c = false ->
  startswith c (py "ls -") = true ->
  exists info,
    scout_info state' = Some info
    /\ contains info (py "FILE_NOT_FOUND: " ++ last_str (split_ws c)) = true.
Proof.
  intros Hs Hn Hp Hin Hc Hls.
  assert (Hne : cmds <> []) by (intros ->; destruct Hin).
  destruct (scout_node_info _ Hn Hp Hne) as (w & i & _ & ->).
  eexists; split; [reflexivity|].
  apply contains_app_l, extract_facts_shows; [exact Hs|]; left.
  apply (proj2 (in_flat_map facts_of _ _)); exists (blocked c); split.
  - apply blocked_recorded; assumption.
  - unfold facts_of, blocked; cbn [cmd stdout stderr rc]; cbv zeta.
    apply in_or_app; left; unfold file_facts.
    apply in_or_app; left; rewrite Hls.
    left; reflexivity.
Qed.

Lemma rejected_listing_reported_missing_witness :
  exists info,
    scout_info
      (set_scout_info log_state
          (extract_facts (W := scanning_world)
             (exec_results
                (exec_loop (U := ucd_plain) (O := source_order)
                   (W := scanning_world)
                   [py "journalctl -p err -n 30 --no-pager";
                    py "dmesg | tail -30";
                    py "ls -lt /var/log/*.log 2>/dev/null | head -10"]
                   exec_start))
             [] (py "show recent errors")))
    = Some info
    /\ contains info
         (py "FILE_NOT_FOUND: "
          ++ last_str
               (split_ws (py "ls -lt /var/log/*.log 2>/dev/null | head -10")))
       = true.
Proof.
  apply (@rejected_listing_reported_missing ucd_plain source_order
           scanning_world
          log_state
          (set_scout_info log_state
           (extract_facts (W := scanning_world)
              (exec_results
                 (exec_loop (U := ucd_plain) (O := source_order)
                    (W := scanning_world)
                    [py "journalctl -p err -n 30 --no-pager";
                     py "dmesg | tail -30";
                     py "ls -lt /var/log/*.log 2>/dev/null | head -10"]
                    exec_start))
              [] (py "show recent errors")))
          [py "journalctl -p err -n 30 --no-pager"; py "dmesg | tail -30"]
          [py "journalctl -p err -n 30 --no-pager";
           py "dmesg | tail -30";
           py "ls -lt /var/log/*.log 2>/dev/null | head -10"]
          (py "ls -lt /var/log/*.log 2>/dev/null | head -10")).
  - reflexivity.
  - vm_compute; reflexivity.
  - vm_compute; reflexivity.
  - right; right; left; reflexivity.
  - vm_compute; reflexivity.
  - vm_compute; reflexivity.
Defined.
